(** * VPaint background panel: image-URL validator, wildcard inference and
    undo checkpoints of [BackgroundWidget]

    A shallow embedding of [src/Gui/Background/BackgroundWidget.cpp]:
    - the toolkit string operations the file relies on ([QStr]);
    - [ImageUrlValidator::validate] and [ImageUrlValidator::fixup];
    - the wildcard inference of [processImageBrowseButtonClicked_];
    - the widget's slots as state transformers over a store of [Background]
      objects, with the signal/slot re-entrancy of the toolkit made explicit. *)

From Stdlib Require Import ZArith Ascii String List Bool Lia.
From stdpp Require Import base decidable option list strings gmap.

Local Open Scope Z_scope.

(** ** Toolkit strings

    A [QString] is modelled as the list of its characters. The embedding
    covers the 8-bit characters of [ascii]; [int] indices are [Z] (every index
    computed below lies between [-1] and the length of a string, so no 32-bit
    wrap-around can occur). *)
Module QStr.

Abbreviation QString := (list ascii).

(** A literal. *)
Definition q (s : string) : QString := list_ascii_of_string s.

Definition size (s : QString) : Z := Z.of_nat (length s).

(** [s[i]]; every use below is guarded by a range test, the default is never
    read. *)
Definition at_ (s : QString) (i : Z) : ascii :=
  if i <? 0 then zero else nth (Z.to_nat i) s zero.

Definition ch_eqb (a b : ascii) : bool := bool_decide (a = b).

Definition star : ascii := "*"%char.
Definition slash : ascii := "/"%char.
Definition dash : ascii := "-"%char.
Definition newline : ascii := ascii_of_nat 10.

(** [QChar::isDigit], on the 8-bit range: '0' .. '9'. *)
Definition isDigit (c : ascii) : bool :=
  let n := nat_of_ascii c in (48 <=? n)%nat && (n <=? 57)%nat.

(** [QChar::isSpace], on the 8-bit range: tab, LF, VT, FF, CR, space, NEL and
    the no-break space. *)
Definition isSpace (c : ascii) : bool :=
  let n := nat_of_ascii c in
  ((9 <=? n)%nat && (n <=? 13)%nat) || (n =? 32)%nat
  || (n =? 133)%nat || (n =? 160)%nat.

(** [QString::lastIndexOf(c)]: the index of the last occurrence of [c],
    [-1] when there is none. *)
Fixpoint lastIndexOf_from (c : ascii) (s : QString) (i acc : Z) : Z :=
  match s with
  | [] => acc
  | x :: t => lastIndexOf_from c t (i + 1) (if ch_eqb x c then i else acc)
  end.

Definition lastIndexOf (c : ascii) (s : QString) : Z :=
  lastIndexOf_from c s 0 (-1).

(** [QString::left(n)]: the [n] leftmost characters; the entire string when
    [n] is negative or not less than the size. *)
Definition left (n : Z) (s : QString) : QString :=
  if (n <? 0) || (size s <=? n) then s else take (Z.to_nat n) s.

(** [QString::right(n)]: the [n] rightmost characters; the entire string when
    [n] is negative or not less than the size. *)
Definition right (n : Z) (s : QString) : QString :=
  if (n <? 0) || (size s <=? n) then s else drop (length s - Z.to_nat n) s.

(** [QString::remove(0, n)]: drops the first [n] characters (all of them when
    [n] exceeds the size). *)
Definition remove0 (n : Z) (s : QString) : QString :=
  if n <=? 0 then s else drop (Z.to_nat n) s.

(** [QString::chop(n)]: drops the last [n] characters; empty when [n] is not
    less than the size, unchanged when [n] is negative. *)
Definition chop (n : Z) (s : QString) : QString :=
  if n <=? 0 then s
  else if size s <=? n then []
  else take (length s - Z.to_nat n) s.

(** The value of a run of decimal digits after [acc], [None] when a character
    is not a digit. *)
Fixpoint digitsValue (acc : Z) (s : QString) : option Z :=
  match s with
  | [] => Some acc
  | c :: t =>
      if isDigit c
      then digitsValue (10 * acc + (Z.of_nat (nat_of_ascii c) - 48)) t
      else None
  end.

Fixpoint dropSpaces (s : QString) : QString :=
  match s with
  | c :: t => if isSpace c then dropSpaces t else s
  | [] => []
  end.

Definition trimmed (s : QString) : QString :=
  rev (dropSpaces (rev (dropSpaces s))).

(** [QString::toInt(&ok)], base 10: surrounding white space is skipped, one
    sign is allowed, at least one digit is required, and the value has to fit
    a 32-bit [int]. [None] stands for [ok == false]. *)
Definition toInt (s : QString) : option Z :=
  let body v (neg : bool) :=
    let r := if neg then - v else v in
    if (- 2147483648 <=? r) && (r <=? 2147483647) then Some r else None in
  match trimmed s with
  | [] => None
  | c :: t =>
      if ch_eqb c dash then
        match t with [] => None | _ => v ← digitsValue 0 t; body v true end
      else if ch_eqb c "+"%char then
        match t with [] => None | _ => v ← digitsValue 0 t; body v false end
      else v ← digitsValue 0 (c :: t); body v false
  end.

End QStr.

(** ** The validator of the image line edit *)
Module ImageUrlValidator.
Import QStr.

(** [QValidator::State]. *)
Inductive State := Invalid | Intermediate | Acceptable.

#[global] Instance State_eq_dec : EqDecision State.
Proof. solve_decision. Defined.

(** The loop of [validate]: [wildcardCount] is the counter of the source, the
    list is what is left of [input] from index [i] on. *)
Fixpoint validate_loop (wildcardCount : Z) (rest : QString) : State :=
  match rest with
  | [] => Acceptable
  | c :: t =>
      if ch_eqb c star then
        if wildcardCount =? 0 then validate_loop (wildcardCount + 1) t
        else Intermediate
      else if ch_eqb c slash && (wildcardCount >? 0) then Intermediate
      else validate_loop wildcardCount t
  end.

Definition validate (input : QString) : State := validate_loop 0 input.

(** The loop of [fixup]: appends [input[i]] to [res] when it is not a
    wildcard or when [i == j]. *)
Fixpoint fixup_loop (j : Z) (rest : QString) (i : Z) : QString :=
  match rest with
  | [] => []
  | c :: t =>
      if negb (ch_eqb c star) || (i =? j)
      then c :: fixup_loop j t (i + 1)
      else fixup_loop j t (i + 1)
  end.

Definition fixup (input : QString) : QString :=
  let j := lastIndexOf star input in
  let k := lastIndexOf slash input in
  let j := if k >? j then -1 else j in
  fixup_loop j input 0.

End ImageUrlValidator.

(** ** Wildcard inference of [processImageBrowseButtonClicked_] *)
Module Wildcard.
Import QStr.

(** [while (s0.length() > prefixLength && s1.length() > prefixLength &&
            s0[prefixLength] == s1[prefixLength]) prefixLength++;]
    The counter never exceeds the length of [s0], which bounds the loop. *)
Fixpoint sharedPrefix_loop (fuel : nat) (s0 s1 : QString) (prefixLength : Z) : Z :=
  match fuel with
  | O => prefixLength
  | S fuel' =>
      if (size s0 >? prefixLength) && (size s1 >? prefixLength)
         && ch_eqb (at_ s0 prefixLength) (at_ s1 prefixLength)
      then sharedPrefix_loop fuel' s0 s1 (prefixLength + 1)
      else prefixLength
  end.

(** [while (prefixLength > 0 && s0[prefixLength-1].isDigit()) prefixLength--;] *)
Fixpoint chopDigits_loop (fuel : nat) (s0 : QString) (prefixLength : Z) : Z :=
  match fuel with
  | O => prefixLength
  | S fuel' =>
      if (prefixLength >? 0) && isDigit (at_ s0 (prefixLength - 1))
      then chopDigits_loop fuel' s0 (prefixLength - 1)
      else prefixLength
  end.

(** The [for] loop computing [theyAllHaveIt] (with its [break]). *)
Definition theyAllHaveIt (filenames : list QString) (prefixLength : Z) : bool :=
  forallb (fun f => negb ((size f <? prefixLength)
                          || negb (ch_eqb (at_ f (prefixLength - 1)) dash)))
          filenames.

Definition chopMinus (filenames : list QString) (s0 : QString) (prefixLength : Z) : Z :=
  if (prefixLength >? 0) && ch_eqb (at_ s0 (prefixLength - 1)) dash
  then if negb (theyAllHaveIt filenames prefixLength)
       then prefixLength - 1 else prefixLength
  else prefixLength.

(** [while (s0.length() > prefixLength+s0WildcardLength &&
            s0[prefixLength+s0WildcardLength].isDigit()) s0WildcardLength++;] *)
Fixpoint wildcardDigits_loop (fuel : nat) (s0 : QString)
    (prefixLength s0WildcardLength : Z) : Z :=
  match fuel with
  | O => s0WildcardLength
  | S fuel' =>
      if (size s0 >? prefixLength + s0WildcardLength)
         && isDigit (at_ s0 (prefixLength + s0WildcardLength))
      then wildcardDigits_loop fuel' s0 prefixLength (s0WildcardLength + 1)
      else s0WildcardLength
  end.

(** "Read wildcard of s0". *)
Definition s0WildcardLength (s0 : QString) (prefixLength : Z) : Z :=
  if size s0 =? prefixLength then 0
  else if ch_eqb (at_ s0 prefixLength) dash
       then wildcardDigits_loop (length s0) s0 prefixLength 1
  else if isDigit (at_ s0 prefixLength)
       then wildcardDigits_loop (length s0) s0 prefixLength 0
  else 0.

(** What the inference leaves for the consistency check and the url. *)
Record Pattern := {
  prefixLength : Z;
  suffixLength : Z;
  prefix : QString;
  suffix : QString
}.

(** Lines 383-456, for [filenames.size() >= 2]; [s0] and [s1] are the first
    two names. *)
Definition infer (filenames : list QString) (s0 s1 : QString) : Pattern :=
  let pl := sharedPrefix_loop (length s0) s0 s1 0 in
  let pl := chopDigits_loop (Z.to_nat pl) s0 pl in
  let pl := chopMinus filenames s0 pl in
  let wl := s0WildcardLength s0 pl in
  let sl := size s0 - pl - wl in
  {| prefixLength := pl; suffixLength := sl;
     prefix := left pl s0; suffix := right sl s0 |}.

Definition patternUrl (p : Pattern) : QString :=
  prefix p ++ star :: suffix p.

(** The body of the loop "Check for inconsistent names": the value of
    [inconsistent] for one file name. *)
Definition inconsistent (p : Pattern) (f : QString) : bool :=
  if negb (bool_decide (left (prefixLength p) f = prefix p))
     || negb (bool_decide (right (suffixLength p) f = suffix p))
  then true
  else
    let w := chop (suffixLength p) (remove0 (prefixLength p) f) in
    if size w =? 0 then false
    else match toInt w with Some _ => false | None => true end.

(** [inconsistentFilenames], before its last newline is chopped. *)
Fixpoint inconsistentFilenames (p : Pattern) (filenames : list QString) : QString :=
  match filenames with
  | [] => []
  | f :: rest =>
      if inconsistent p f
      then f ++ newline :: inconsistentFilenames p rest
      else inconsistentFilenames p rest
  end.

(** The two arguments substituted into the text of the warning box. *)
Record Warning := { warnedUrl : QString; warnedFiles : QString }.

#[global] Instance Pattern_eq_dec : EqDecision Pattern.
Proof. solve_decision. Defined.
#[global] Instance Warning_eq_dec : EqDecision Warning.
Proof. solve_decision. Defined.

(** "Detect wildcard" (lines 371-516): the url, and the warning shown if
    any. *)
Definition detectWildcard (filenames : list QString) : QString * option Warning :=
  match filenames with
  | [] => ([], None)
  | [f] => (f, None)
  | s0 :: s1 :: _ =>
      let p := infer filenames s0 s1 in
      let url := patternUrl p in
      let bad := inconsistentFilenames p filenames in
      (url, if size bad >? 0
            then Some {| warnedUrl := url; warnedFiles := chop 1 bad |}
            else None)
  end.

(** The lengths agree with the strings. *)
Definition wellFormed (p : Pattern) : Prop :=
  prefixLength p = size (prefix p) /\ suffixLength p = size (suffix p).

(** The names the warning box lists, one per line. *)
Definition reported (p : Pattern) (filenames : list QString) : list QString :=
  filter (fun f => inconsistent p f = true) filenames.

(** The names, one per line: a newline between two names, none at the end. *)
Fixpoint joinLines (names : list QString) : QString :=
  match names with
  | [] => []
  | [f] => f
  | f :: rest => f ++ newline :: joinLines rest
  end.

(** The wildcard read off the first name: what stands between prefix and
    suffix. *)
Definition wildcardOf (p : Pattern) (s0 : QString) : QString :=
  take (Z.to_nat (size s0 - prefixLength p - suffixLength p))
       (drop (Z.to_nat (prefixLength p)) s0).

(** The rules of the inference in the words of the specification. [r] is
    the length of the "largest shared prefix of the first two names": the
    names agree on their first [r] characters and on no more. *)
Definition largestSharedPrefix (s0 s1 : QString) (r : nat) : Prop :=
  (r <= length s0)%nat /\ (r <= length s1)%nat /\ take r s0 = take r s1 /\
  forall k, (r < k)%nat -> (k <= length s0)%nat -> (k <= length s1)%nat ->
            take k s0 <> take k s1.

(** "Trailing digits chopped from the prefix": of the first [r] characters
    of [s0] the first [d] are left; the characters chopped are digits and the
    last one left is not. *)
Definition digitsChopped (s0 : QString) (r d : nat) : Prop :=
  (d <= r)%nat /\
  Forall (fun c => isDigit c = true) (drop d (take r s0)) /\
  forall c, last (take d s0) = Some c -> isDigit c = false.

(** "Every selected filename has '-' at that position", the position being
    that of the last of the first [d] characters. *)
Definition allHaveDash (filenames : list QString) (d : nat) : Prop :=
  Forall (fun f => f !! (d - 1)%nat = Some dash) filenames.

(** "A trailing '-' chopped unless every selected filename has '-' at that
    position": of the first [d] characters of [s0], [n] are left. *)
Definition dashChopped (filenames : list QString) (s0 : QString)
    (d n : nat) : Prop :=
  (last (take d s0) = Some dash /\ ~ allHaveDash filenames d ->
   n = (d - 1)%nat) /\
  (~ (last (take d s0) = Some dash /\ ~ allHaveDash filenames d) -> n = d).

(** In the words of the specification: the file name "matches" the pattern
    when it is "equal to prefix+suffix as fallback, or prefix + integer
    wildcard + suffix". *)
Definition matchesPattern (p : Pattern) (f : QString) : Prop :=
  exists w, f = prefix p ++ w ++ suffix p /\ (w = [] \/ is_Some (toInt w)).

End Wildcard.

(** ** The widget and the Background it edits *)
Module Widget.
Import QStr Wildcard.

(** A [Background *]: an address in the store of Background objects. The null
    pointer is [None] of [option ptr]. *)
Definition ptr : Type := nat.

(** [Background::SizeType] and [Background::RepeatType] are kept as the [int]
    under the enumeration: the combo-box slots [static_cast] an index to
    them. *)
Definition SizeType : Type := Z.
Definition Cover : SizeType := 0.
Definition Manual : SizeType := 1.
Definition RepeatType : Type := Z.

(** The controls whose change signal is connected to a slot of the widget. *)
Inductive Control :=
  | ColorSelectorCtl | LeftSpinBox | TopSpinBox | SizeComboBox | WidthSpinBox
  | HeightSpinBox | RepeatComboBox | OpacitySpinBox | HoldCheckBox.

(** What can go wrong when a slot runs. *)
Inductive Fault := NullDereference | DanglingPointer | OutOfFuel.

Inductive Res (W A : Type) :=
  | Ok (a : A) (w : W)
  | Failed (e : Fault).
Arguments Ok {W A} a w.
Arguments Failed {W A} e.

Section Model.

(** The widget stores [double] and [Color] values and hands them on; the only
    operation on them is the comparison inside [Data], taken to be equality
    (a spin box never holds a NaN). *)
Context {double Color : Type}.
Context `{!EqDecision double, !EqDecision Color}.

(** Modelled from the spec: [Background::Data] (Background.h is not part of
    the sources), the serialized property bundle: "color, image-URL pattern,
    position, size (fit-to-canvas vs manual), repeat mode, opacity, and hold
    flag". *)
Record Data := {
  color : Color;
  imageUrl : QString;
  position : double * double;
  size_ : double * double;
  sizeType : SizeType;
  repeatType : RepeatType;
  opacity : double;
  hold : bool
}.

#[global] Instance Data_eq_dec : EqDecision Data.
Proof. solve_decision. Defined.

(** Modelled from the spec: a Background object (Background.h is not part of
    the sources): its data, whether the widget's [updateFromBackground_] is
    connected to its [changed()] signal, and how often its image cache was
    cleared. *)
Record Background := {
  data_ : Data;
  changedConnected : bool;
  cacheClears : nat
}.

(** The values shown by the child widgets. *)
Record Controls := {
  colorSelector_ : Color;
  imageLineEdit_ : QString;
  leftSpinBox_ : double;
  topSpinBox_ : double;
  sizeComboBox_ : Z;
  widthSpinBox_ : double;
  heightSpinBox_ : double;
  widthSpinBoxShown : bool;
  heightSpinBoxShown : bool;
  repeatComboBox_ : Z;
  opacitySpinBox_ : double;
  holdCheckBox_ : bool;
  childrenEnabled : bool
}.

(** The member variables of [BackgroundWidget]. *)
Record WidgetState := {
  background_ : option ptr;
  isUpdatingFromBackground_ : bool;
  isBeingEdited_ : bool;
  dataBeforeEditing_ : Data;
  controls : Controls
}.

(** The widget, the Background objects of the document, the undo entries
    recorded so far (newest first) and the warning boxes shown so far. *)
Record World := {
  widget : WidgetState;
  store : gmap ptr Background;
  undo : list (ptr * Data);
  warnings : list Warning
}.

(** What a control holds after its setter was handed a value. A
    [QDoubleSpinBox] rounds the value to its decimals and bounds it by the
    minimum and maximum the constructor sets (lines 139-140, 144-145,
    171-172, 178-179, 218-219); a [QComboBox] keeps the index of one of the
    items the constructor adds (lines 154-155, 189-192); [QLineEdit::setText]
    and [ColorSelector::setColor] (ColorSelector.h is not part of the
    sources) are left as open. *)
Record Toolkit := {
  shownColor : Color -> Color;
  shownText : QString -> QString;
  shownValue : Control -> double -> double;
  shownIndex : Control -> Z -> Z
}.

(** The toolkit's side, left open: the answer of the controls to a
    programmatic [setValue], [setCurrentIndex], [setChecked] or [setColor],
    that is whether the change signal is emitted (it may depend on anything)
    and the value the control then holds, and [QDir::relativeFilePath] for
    the document directory. *)
Context (emits : Control -> World -> bool).
Context (toolkit : Toolkit).
Context (relativeFilePath : QString -> QString).

(** *** State and error monad of the slots *)
Definition M (A : Type) : Type := World -> Res World A.

Definition ret {A} (a : A) : M A := fun w => Ok a w.
Definition bind {A B} (m : M A) (k : A -> M B) : M B :=
  fun w => match m w with Ok a w' => k a w' | Failed e => Failed e end.
Definition fail {A} (e : Fault) : M A := fun _ => Failed e.
Definition get : M World := fun w => Ok w w.
Definition when (b : bool) (m : M unit) : M unit := if b then m else ret tt.

Notation "x <- m ;; k" := (bind m (fun x => k))
  (at level 90, m at next level, right associativity).
Notation "m ;;; k" := (bind m (fun _ => k))
  (at level 90, right associativity).

(** *** Field updates *)
Definition with_widget (f : WidgetState -> WidgetState) : M unit :=
  fun w => Ok tt {| widget := f (widget w); store := store w;
                    undo := undo w; warnings := warnings w |}.

Definition set_background_ (b : option ptr) : M unit :=
  with_widget (fun s =>
    {| background_ := b;
       isUpdatingFromBackground_ := isUpdatingFromBackground_ s;
       isBeingEdited_ := isBeingEdited_ s;
       dataBeforeEditing_ := dataBeforeEditing_ s; controls := controls s |}).

Definition set_isUpdatingFromBackground_ (b : bool) : M unit :=
  with_widget (fun s =>
    {| background_ := background_ s;
       isUpdatingFromBackground_ := b;
       isBeingEdited_ := isBeingEdited_ s;
       dataBeforeEditing_ := dataBeforeEditing_ s; controls := controls s |}).

Definition set_isBeingEdited_ (b : bool) : M unit :=
  with_widget (fun s =>
    {| background_ := background_ s;
       isUpdatingFromBackground_ := isUpdatingFromBackground_ s;
       isBeingEdited_ := b;
       dataBeforeEditing_ := dataBeforeEditing_ s; controls := controls s |}).

Definition set_dataBeforeEditing_ (d : Data) : M unit :=
  with_widget (fun s =>
    {| background_ := background_ s;
       isUpdatingFromBackground_ := isUpdatingFromBackground_ s;
       isBeingEdited_ := isBeingEdited_ s;
       dataBeforeEditing_ := d; controls := controls s |}).

Definition with_controls (f : Controls -> Controls) : M unit :=
  with_widget (fun s =>
    {| background_ := background_ s;
       isUpdatingFromBackground_ := isUpdatingFromBackground_ s;
       isBeingEdited_ := isBeingEdited_ s;
       dataBeforeEditing_ := dataBeforeEditing_ s; controls := f (controls s) |}).

Definition with_store (f : gmap ptr Background -> gmap ptr Background) : M unit :=
  fun w => Ok tt {| widget := widget w; store := f (store w);
                    undo := undo w; warnings := warnings w |}.

(** One update per control of the panel. *)
Definition show_colorSelector_ (v : Color) (r : Controls) : Controls :=
  {| colorSelector_ := v; imageLineEdit_ := imageLineEdit_ r;
     leftSpinBox_ := leftSpinBox_ r; topSpinBox_ := topSpinBox_ r;
     sizeComboBox_ := sizeComboBox_ r; widthSpinBox_ := widthSpinBox_ r;
     heightSpinBox_ := heightSpinBox_ r;
     widthSpinBoxShown := widthSpinBoxShown r;
     heightSpinBoxShown := heightSpinBoxShown r;
     repeatComboBox_ := repeatComboBox_ r;
     opacitySpinBox_ := opacitySpinBox_ r; holdCheckBox_ := holdCheckBox_ r;
     childrenEnabled := childrenEnabled r |}.

Definition show_imageLineEdit_ (v : QString) (r : Controls) : Controls :=
  {| colorSelector_ := colorSelector_ r; imageLineEdit_ := v;
     leftSpinBox_ := leftSpinBox_ r; topSpinBox_ := topSpinBox_ r;
     sizeComboBox_ := sizeComboBox_ r; widthSpinBox_ := widthSpinBox_ r;
     heightSpinBox_ := heightSpinBox_ r;
     widthSpinBoxShown := widthSpinBoxShown r;
     heightSpinBoxShown := heightSpinBoxShown r;
     repeatComboBox_ := repeatComboBox_ r;
     opacitySpinBox_ := opacitySpinBox_ r; holdCheckBox_ := holdCheckBox_ r;
     childrenEnabled := childrenEnabled r |}.

Definition show_leftSpinBox_ (v : double) (r : Controls) : Controls :=
  {| colorSelector_ := colorSelector_ r; imageLineEdit_ := imageLineEdit_ r;
     leftSpinBox_ := v; topSpinBox_ := topSpinBox_ r;
     sizeComboBox_ := sizeComboBox_ r; widthSpinBox_ := widthSpinBox_ r;
     heightSpinBox_ := heightSpinBox_ r;
     widthSpinBoxShown := widthSpinBoxShown r;
     heightSpinBoxShown := heightSpinBoxShown r;
     repeatComboBox_ := repeatComboBox_ r;
     opacitySpinBox_ := opacitySpinBox_ r; holdCheckBox_ := holdCheckBox_ r;
     childrenEnabled := childrenEnabled r |}.

Definition show_topSpinBox_ (v : double) (r : Controls) : Controls :=
  {| colorSelector_ := colorSelector_ r; imageLineEdit_ := imageLineEdit_ r;
     leftSpinBox_ := leftSpinBox_ r; topSpinBox_ := v;
     sizeComboBox_ := sizeComboBox_ r; widthSpinBox_ := widthSpinBox_ r;
     heightSpinBox_ := heightSpinBox_ r;
     widthSpinBoxShown := widthSpinBoxShown r;
     heightSpinBoxShown := heightSpinBoxShown r;
     repeatComboBox_ := repeatComboBox_ r;
     opacitySpinBox_ := opacitySpinBox_ r; holdCheckBox_ := holdCheckBox_ r;
     childrenEnabled := childrenEnabled r |}.

Definition show_sizeComboBox_ (v : Z) (r : Controls) : Controls :=
  {| colorSelector_ := colorSelector_ r; imageLineEdit_ := imageLineEdit_ r;
     leftSpinBox_ := leftSpinBox_ r; topSpinBox_ := topSpinBox_ r;
     sizeComboBox_ := v; widthSpinBox_ := widthSpinBox_ r;
     heightSpinBox_ := heightSpinBox_ r;
     widthSpinBoxShown := widthSpinBoxShown r;
     heightSpinBoxShown := heightSpinBoxShown r;
     repeatComboBox_ := repeatComboBox_ r;
     opacitySpinBox_ := opacitySpinBox_ r; holdCheckBox_ := holdCheckBox_ r;
     childrenEnabled := childrenEnabled r |}.

Definition show_widthSpinBox_ (v : double) (r : Controls) : Controls :=
  {| colorSelector_ := colorSelector_ r; imageLineEdit_ := imageLineEdit_ r;
     leftSpinBox_ := leftSpinBox_ r; topSpinBox_ := topSpinBox_ r;
     sizeComboBox_ := sizeComboBox_ r; widthSpinBox_ := v;
     heightSpinBox_ := heightSpinBox_ r;
     widthSpinBoxShown := widthSpinBoxShown r;
     heightSpinBoxShown := heightSpinBoxShown r;
     repeatComboBox_ := repeatComboBox_ r;
     opacitySpinBox_ := opacitySpinBox_ r; holdCheckBox_ := holdCheckBox_ r;
     childrenEnabled := childrenEnabled r |}.

Definition show_heightSpinBox_ (v : double) (r : Controls) : Controls :=
  {| colorSelector_ := colorSelector_ r; imageLineEdit_ := imageLineEdit_ r;
     leftSpinBox_ := leftSpinBox_ r; topSpinBox_ := topSpinBox_ r;
     sizeComboBox_ := sizeComboBox_ r; widthSpinBox_ := widthSpinBox_ r;
     heightSpinBox_ := v; widthSpinBoxShown := widthSpinBoxShown r;
     heightSpinBoxShown := heightSpinBoxShown r;
     repeatComboBox_ := repeatComboBox_ r;
     opacitySpinBox_ := opacitySpinBox_ r; holdCheckBox_ := holdCheckBox_ r;
     childrenEnabled := childrenEnabled r |}.

Definition show_widthSpinBoxShown (v : bool) (r : Controls) : Controls :=
  {| colorSelector_ := colorSelector_ r; imageLineEdit_ := imageLineEdit_ r;
     leftSpinBox_ := leftSpinBox_ r; topSpinBox_ := topSpinBox_ r;
     sizeComboBox_ := sizeComboBox_ r; widthSpinBox_ := widthSpinBox_ r;
     heightSpinBox_ := heightSpinBox_ r; widthSpinBoxShown := v;
     heightSpinBoxShown := heightSpinBoxShown r;
     repeatComboBox_ := repeatComboBox_ r;
     opacitySpinBox_ := opacitySpinBox_ r; holdCheckBox_ := holdCheckBox_ r;
     childrenEnabled := childrenEnabled r |}.

Definition show_heightSpinBoxShown (v : bool) (r : Controls) : Controls :=
  {| colorSelector_ := colorSelector_ r; imageLineEdit_ := imageLineEdit_ r;
     leftSpinBox_ := leftSpinBox_ r; topSpinBox_ := topSpinBox_ r;
     sizeComboBox_ := sizeComboBox_ r; widthSpinBox_ := widthSpinBox_ r;
     heightSpinBox_ := heightSpinBox_ r;
     widthSpinBoxShown := widthSpinBoxShown r; heightSpinBoxShown := v;
     repeatComboBox_ := repeatComboBox_ r;
     opacitySpinBox_ := opacitySpinBox_ r; holdCheckBox_ := holdCheckBox_ r;
     childrenEnabled := childrenEnabled r |}.

Definition show_repeatComboBox_ (v : Z) (r : Controls) : Controls :=
  {| colorSelector_ := colorSelector_ r; imageLineEdit_ := imageLineEdit_ r;
     leftSpinBox_ := leftSpinBox_ r; topSpinBox_ := topSpinBox_ r;
     sizeComboBox_ := sizeComboBox_ r; widthSpinBox_ := widthSpinBox_ r;
     heightSpinBox_ := heightSpinBox_ r;
     widthSpinBoxShown := widthSpinBoxShown r;
     heightSpinBoxShown := heightSpinBoxShown r; repeatComboBox_ := v;
     opacitySpinBox_ := opacitySpinBox_ r; holdCheckBox_ := holdCheckBox_ r;
     childrenEnabled := childrenEnabled r |}.

Definition show_opacitySpinBox_ (v : double) (r : Controls) : Controls :=
  {| colorSelector_ := colorSelector_ r; imageLineEdit_ := imageLineEdit_ r;
     leftSpinBox_ := leftSpinBox_ r; topSpinBox_ := topSpinBox_ r;
     sizeComboBox_ := sizeComboBox_ r; widthSpinBox_ := widthSpinBox_ r;
     heightSpinBox_ := heightSpinBox_ r;
     widthSpinBoxShown := widthSpinBoxShown r;
     heightSpinBoxShown := heightSpinBoxShown r;
     repeatComboBox_ := repeatComboBox_ r; opacitySpinBox_ := v;
     holdCheckBox_ := holdCheckBox_ r; childrenEnabled := childrenEnabled r |}.

Definition show_holdCheckBox_ (v : bool) (r : Controls) : Controls :=
  {| colorSelector_ := colorSelector_ r; imageLineEdit_ := imageLineEdit_ r;
     leftSpinBox_ := leftSpinBox_ r; topSpinBox_ := topSpinBox_ r;
     sizeComboBox_ := sizeComboBox_ r; widthSpinBox_ := widthSpinBox_ r;
     heightSpinBox_ := heightSpinBox_ r;
     widthSpinBoxShown := widthSpinBoxShown r;
     heightSpinBoxShown := heightSpinBoxShown r;
     repeatComboBox_ := repeatComboBox_ r;
     opacitySpinBox_ := opacitySpinBox_ r; holdCheckBox_ := v;
     childrenEnabled := childrenEnabled r |}.

Definition show_childrenEnabled (v : bool) (r : Controls) : Controls :=
  {| colorSelector_ := colorSelector_ r; imageLineEdit_ := imageLineEdit_ r;
     leftSpinBox_ := leftSpinBox_ r; topSpinBox_ := topSpinBox_ r;
     sizeComboBox_ := sizeComboBox_ r; widthSpinBox_ := widthSpinBox_ r;
     heightSpinBox_ := heightSpinBox_ r;
     widthSpinBoxShown := widthSpinBoxShown r;
     heightSpinBoxShown := heightSpinBoxShown r;
     repeatComboBox_ := repeatComboBox_ r;
     opacitySpinBox_ := opacitySpinBox_ r; holdCheckBox_ := holdCheckBox_ r;
     childrenEnabled := v |}.

(** One update per property of [Data]. *)
Definition upd_color (v : Color) (r : Data) : Data :=
  {| color := v; imageUrl := imageUrl r; position := position r;
     size_ := size_ r; sizeType := sizeType r; repeatType := repeatType r;
     opacity := opacity r; hold := hold r |}.

Definition upd_imageUrl (v : QString) (r : Data) : Data :=
  {| color := color r; imageUrl := v; position := position r; size_ := size_ r;
     sizeType := sizeType r; repeatType := repeatType r; opacity := opacity r;
     hold := hold r |}.

Definition upd_position (v : double * double) (r : Data) : Data :=
  {| color := color r; imageUrl := imageUrl r; position := v; size_ := size_ r;
     sizeType := sizeType r; repeatType := repeatType r; opacity := opacity r;
     hold := hold r |}.

Definition upd_size_ (v : double * double) (r : Data) : Data :=
  {| color := color r; imageUrl := imageUrl r; position := position r;
     size_ := v; sizeType := sizeType r; repeatType := repeatType r;
     opacity := opacity r; hold := hold r |}.

Definition upd_sizeType (v : SizeType) (r : Data) : Data :=
  {| color := color r; imageUrl := imageUrl r; position := position r;
     size_ := size_ r; sizeType := v; repeatType := repeatType r;
     opacity := opacity r; hold := hold r |}.

Definition upd_repeatType (v : RepeatType) (r : Data) : Data :=
  {| color := color r; imageUrl := imageUrl r; position := position r;
     size_ := size_ r; sizeType := sizeType r; repeatType := v;
     opacity := opacity r; hold := hold r |}.

Definition upd_opacity (v : double) (r : Data) : Data :=
  {| color := color r; imageUrl := imageUrl r; position := position r;
     size_ := size_ r; sizeType := sizeType r; repeatType := repeatType r;
     opacity := v; hold := hold r |}.

Definition upd_hold (v : bool) (r : Data) : Data :=
  {| color := color r; imageUrl := imageUrl r; position := position r;
     size_ := size_ r; sizeType := sizeType r; repeatType := repeatType r;
     opacity := opacity r; hold := v |}.

(** *** Pointers *)

(** [background_ ? true : false]. *)
Definition bound (w : World) : bool :=
  match background_ (widget w) with Some _ => true | None => false end.

(** Reading the pointer in [background_->...]: a fault when it is null. *)
Definition deref : M ptr :=
  fun w => match background_ (widget w) with
           | Some p => Ok p w
           | None => Failed NullDereference
           end.

Definition load (p : ptr) : M Background :=
  fun w => match store w !! p with
           | Some b => Ok b w
           | None => Failed DanglingPointer
           end.

Definition save (p : ptr) (b : Background) : M unit :=
  with_store (fun st => <[p := b]> st).

(** [background_->f(...)]. *)
Definition viaBackground {A} (f : ptr -> M A) : M A :=
  p <- deref ;; f p.

(** *** Slots of the widget, as the toolkit invokes them *)
Inductive Slot :=
  | ColorSelectorColorChanged (newColor : Color)
  | ImageLineEditEditingFinished
  | ImageBrowseButtonClicked (selected : list QString)
  | ImageRefreshButtonClicked
  | LeftSpinBoxValueChanged (newLeft : double)
  | TopSpinBoxValueChanged (newTop : double)
  | LeftSpinBoxEditingFinished
  | TopSpinBoxEditingFinished
  | SizeComboBoxCurrentIndexChanged (newSizeType : Z)
  | WidthSpinBoxValueChanged (newWidth : double)
  | HeightSpinBoxValueChanged (newHeight : double)
  | WidthSpinBoxEditingFinished
  | HeightSpinBoxEditingFinished
  | RepeatComboBoxCurrentIndexChanged (newRepeatType : Z)
  | OpacitySpinBoxValueChanged (newOpacity : double)
  | OpacitySpinBoxEditingFinished
  | HoldCheckBoxToggled (newHold : bool)
  | UpdateFromBackground.

(** Signals are delivered synchronously: emitting one runs the connected
    slot before the emitter goes on. [deliver] is that call; the slots below
    are written against it, and [dispatch] closes the loop. *)
Section Slots.
Context (deliver : Slot -> M unit).

(** **** Background (modelled from the spec) *)

(** Modelled from the spec: emission of [Background::changed()] (Background.h
    and Background.cpp are not part of the sources); the only receiver is the
    widget's [updateFromBackground_], once [setBackground] has connected it. *)
Definition Background_changed (p : ptr) : M unit :=
  b <- load p ;; when (changedConnected b) (deliver UpdateFromBackground).

(** Modelled from the spec: the setters of Background, "each of which, on
    change, triggers a changed notification". *)
Definition Background_set {A} `{!EqDecision A}
    (getter : Data -> A) (upd : A -> Data -> Data) (p : ptr) (v : A) : M unit :=
  b <- load p ;;
  if decide (getter (data_ b) = v) then ret tt
  else
    save p {| data_ := upd v (data_ b);
              changedConnected := changedConnected b;
              cacheClears := cacheClears b |} ;;;
    Background_changed p.

Definition Background_setColor := Background_set color upd_color.
Definition Background_setImageUrl := Background_set imageUrl upd_imageUrl.
Definition Background_setPosition := Background_set position upd_position.
Definition Background_setSize := Background_set size_ upd_size_.
Definition Background_setSizeType := Background_set sizeType upd_sizeType.
Definition Background_setRepeatType := Background_set repeatType upd_repeatType.
Definition Background_setOpacity := Background_set opacity upd_opacity.
Definition Background_setHold := Background_set hold upd_hold.

(** Modelled from the spec: [Background::data()], the serialized bundle. *)
Definition Background_data (p : ptr) : M Data :=
  b <- load p ;; ret (data_ b).

(** Modelled from the spec: [Background::emitCheckpoint()] records one undo
    entry, a snapshot of the object. *)
Definition Background_emitCheckpoint (p : ptr) : M unit :=
  b <- load p ;;
  fun w => Ok tt {| widget := widget w; store := store w;
                    undo := (p, data_ b) :: undo w; warnings := warnings w |}.

(** Modelled from the spec: [Background::clearCache()]. *)
Definition Background_clearCache (p : ptr) : M unit :=
  b <- load p ;;
  save p {| data_ := data_ b; changedConnected := changedConnected b;
            cacheClears := S (cacheClears b) |}.

(** [QObject::disconnect(this)] and [connect(..., SIGNAL(changed()), ...)]. *)
Definition Background_connect (c : bool) (p : ptr) : M unit :=
  b <- load p ;;
  save p {| data_ := data_ b; changedConnected := c;
            cacheClears := cacheClears b |}.

(** **** Toolkit controls *)

(** A programmatic change of a control: the shown value is replaced, then the
    control may emit its change signal, which runs the connected slot. *)
Definition setControl (ctl : Control) (show : Controls -> Controls)
    (s : Slot) : M unit :=
  before <- get ;;
  with_controls show ;;;
  when (emits ctl before) (deliver s).

(** [QMessageBox::warning]. *)
Definition warn (x : Warning) : M unit :=
  fun w => Ok tt {| widget := widget w; store := store w; undo := undo w;
                    warnings := x :: warnings w |}.

(** **** BackgroundWidget *)

(** Lines 648-655. *)
Definition emitCheckpoint_ : M unit :=
  w <- get ;;
  if bound w then
    d <- viaBackground Background_data ;;
    w <- get ;;
    if decide (d <> dataBeforeEditing_ (widget w)) then
      d <- viaBackground Background_data ;;
      set_dataBeforeEditing_ d ;;;
      viaBackground Background_emitCheckpoint
    else ret tt
  else ret tt.

(** [colorSelector_->setColor(c)]: the selector holds what it makes of [c]
    and signals [colorChanged] with it. *)
Definition setColor (c : Color) : M unit :=
  let shown := shownColor toolkit c in
  setControl ColorSelectorCtl (show_colorSelector_ shown)
             (ColorSelectorColorChanged shown).

(** [imageLineEdit_->setText(url)]; no slot is connected to a text
    change. *)
Definition setText (url : QString) : M unit :=
  with_controls (show_imageLineEdit_ (shownText toolkit url)).

(** [QDoubleSpinBox::setValue(v)] on the spin box [ctl]: the box holds [v]
    rounded and bounded, and signals [valueChanged] with the value it
    holds. *)
Definition setValue (ctl : Control) (show : double -> Controls -> Controls)
    (valueChanged : double -> Slot) (v : double) : M unit :=
  let shown := shownValue toolkit ctl v in
  setControl ctl (show shown) (valueChanged shown).

(** [QComboBox::setCurrentIndex(i)] on the combo box [ctl]. *)
Definition setCurrentIndex (ctl : Control) (show : Z -> Controls -> Controls)
    (currentIndexChanged : Z -> Slot) (i : Z) : M unit :=
  let shown := shownIndex toolkit ctl i in
  setControl ctl (show shown) (currentIndexChanged shown).

(** The guard of every editing slot:
    [background_ && !isUpdatingFromBackground_]. *)
Definition editable (w : World) : bool :=
  bound w && negb (isUpdatingFromBackground_ (widget w)).

(** The [switch] of lines 295-305; it has no [default]. *)
Definition showSizeSpinBoxes (t : SizeType) : M unit :=
  if t =? Cover then
    with_controls (show_widthSpinBoxShown false) ;;;
    with_controls (show_heightSpinBoxShown false)
  else if t =? Manual then
    with_controls (show_widthSpinBoxShown true) ;;;
    with_controls (show_heightSpinBoxShown true)
  else ret tt.

(** Lines 274-325. *)
Definition updateFromBackground_ : M unit :=
  w <- get ;;
  if bound w then
    set_isUpdatingFromBackground_ true ;;;
    c <- viaBackground Background_data ;;
    setColor (color c) ;;;
    u <- viaBackground Background_data ;;
    setText (imageUrl u) ;;;
    l <- viaBackground Background_data ;;
    setValue LeftSpinBox show_leftSpinBox_ LeftSpinBoxValueChanged
             (position l).1 ;;;
    t <- viaBackground Background_data ;;
    setValue TopSpinBox show_topSpinBox_ TopSpinBoxValueChanged
             (position t).2 ;;;
    st <- viaBackground Background_data ;;
    setCurrentIndex SizeComboBox show_sizeComboBox_
                    SizeComboBoxCurrentIndexChanged (sizeType st) ;;;
    wd <- viaBackground Background_data ;;
    setValue WidthSpinBox show_widthSpinBox_ WidthSpinBoxValueChanged
             (size_ wd).1 ;;;
    ht <- viaBackground Background_data ;;
    setValue HeightSpinBox show_heightSpinBox_ HeightSpinBoxValueChanged
             (size_ ht).2 ;;;
    sw <- viaBackground Background_data ;;
    showSizeSpinBoxes (sizeType sw) ;;;
    r <- viaBackground Background_data ;;
    setCurrentIndex RepeatComboBox show_repeatComboBox_
                    RepeatComboBoxCurrentIndexChanged (repeatType r) ;;;
    o <- viaBackground Background_data ;;
    setValue OpacitySpinBox show_opacitySpinBox_ OpacitySpinBoxValueChanged
             (opacity o) ;;;
    h <- viaBackground Background_data ;;
    setControl HoldCheckBox (show_holdCheckBox_ (hold h))
               (HoldCheckBoxToggled (hold h)) ;;;
    w <- get ;;
    when (negb (isBeingEdited_ (widget w)))
         (d <- viaBackground Background_data ;; set_dataBeforeEditing_ d) ;;;
    set_isUpdatingFromBackground_ false
  else ret tt.

(** The shape shared by the editing slots (lines 332-341, 343-352, 518-525,
    568-577, 611-620, 637-646): guard, edit between the two assignments of
    [isBeingEdited_], then [emitCheckpoint_]. *)
Definition editAndCheckpoint (edit : M unit) : M unit :=
  w <- get ;;
  when (editable w)
    (set_isBeingEdited_ true ;;;
     edit ;;;
     set_isBeingEdited_ false ;;;
     emitCheckpoint_).

(** The shape of the value-changed slots of the spin boxes (lines 536-556,
    579-599, 622-630): the same without the checkpoint. *)
Definition editOnly (edit : M unit) : M unit :=
  w <- get ;;
  when (editable w)
    (set_isBeingEdited_ true ;;;
     edit ;;;
     set_isBeingEdited_ false).

Definition processColorSelectorColorChanged_ (newColor : Color) : M unit :=
  editAndCheckpoint
    (viaBackground (fun p => Background_setColor p newColor)).

Definition processImageLineEditEditingFinished_ : M unit :=
  editAndCheckpoint
    (w <- get ;;
     viaBackground (fun p =>
       Background_setImageUrl p (imageLineEdit_ (controls (widget w))))).

(** Lines 354-526; [selected] is what the file dialog returned. *)
Definition processImageBrowseButtonClicked_ (selected : list QString) : M unit :=
  let filenames := map relativeFilePath selected in
  let detected := detectWildcard filenames in
  match detected.2 with Some x => warn x | None => ret tt end ;;;
  editAndCheckpoint
    (viaBackground (fun p => Background_setImageUrl p detected.1)).

Definition processImageRefreshButtonClicked_ : M unit :=
  w <- get ;;
  when (bound w) (viaBackground Background_clearCache).

Definition processLeftSpinBoxValueChanged_ (newLeft : double) : M unit :=
  editOnly
    (d <- viaBackground Background_data ;;
     let top := (position d).2 in
     viaBackground (fun p => Background_setPosition p (newLeft, top))).

Definition processTopSpinBoxValueChanged_ (newTop : double) : M unit :=
  editOnly
    (d <- viaBackground Background_data ;;
     let left := (position d).1 in
     viaBackground (fun p => Background_setPosition p (left, newTop))).

Definition processLeftSpinBoxEditingFinished_ : M unit := emitCheckpoint_.
Definition processTopSpinBoxEditingFinished_ : M unit := emitCheckpoint_.

Definition processSizeComboBoxCurrentIndexChanged_ (newSizeType : Z) : M unit :=
  editAndCheckpoint
    (viaBackground (fun p => Background_setSizeType p newSizeType)).

Definition processWidthSpinBoxValueChanged_ (newWidth : double) : M unit :=
  editOnly
    (d <- viaBackground Background_data ;;
     let height := (size_ d).2 in
     viaBackground (fun p => Background_setSize p (newWidth, height))).

Definition processHeightSpinBoxValueChanged_ (newHeight : double) : M unit :=
  editOnly
    (d <- viaBackground Background_data ;;
     let width := (size_ d).1 in
     viaBackground (fun p => Background_setSize p (width, newHeight))).

Definition processWidthSpinBoxEditingFinished_ : M unit := emitCheckpoint_.
Definition processHeightSpinBoxEditingFinished_ : M unit := emitCheckpoint_.

Definition processRepeatComboBoxCurrentIndexChanged_ (newRepeatType : Z) : M unit :=
  editAndCheckpoint
    (viaBackground (fun p => Background_setRepeatType p newRepeatType)).

Definition processOpacitySpinBoxValueChanged_ (newOpacity : double) : M unit :=
  editOnly (viaBackground (fun p => Background_setOpacity p newOpacity)).

Definition processOpacitySpinBoxEditingFinished_ : M unit := emitCheckpoint_.

Definition processHoldCheckBoxToggled_ (newHold : bool) : M unit :=
  editAndCheckpoint (viaBackground (fun p => Background_setHold p newHold)).

(** The connections made by the constructor and by [setBackground]. *)
Definition slot (s : Slot) : M unit :=
  match s with
  | ColorSelectorColorChanged c => processColorSelectorColorChanged_ c
  | ImageLineEditEditingFinished => processImageLineEditEditingFinished_
  | ImageBrowseButtonClicked l => processImageBrowseButtonClicked_ l
  | ImageRefreshButtonClicked => processImageRefreshButtonClicked_
  | LeftSpinBoxValueChanged v => processLeftSpinBoxValueChanged_ v
  | TopSpinBoxValueChanged v => processTopSpinBoxValueChanged_ v
  | LeftSpinBoxEditingFinished => processLeftSpinBoxEditingFinished_
  | TopSpinBoxEditingFinished => processTopSpinBoxEditingFinished_
  | SizeComboBoxCurrentIndexChanged i => processSizeComboBoxCurrentIndexChanged_ i
  | WidthSpinBoxValueChanged v => processWidthSpinBoxValueChanged_ v
  | HeightSpinBoxValueChanged v => processHeightSpinBoxValueChanged_ v
  | WidthSpinBoxEditingFinished => processWidthSpinBoxEditingFinished_
  | HeightSpinBoxEditingFinished => processHeightSpinBoxEditingFinished_
  | RepeatComboBoxCurrentIndexChanged i => processRepeatComboBoxCurrentIndexChanged_ i
  | OpacitySpinBoxValueChanged v => processOpacitySpinBoxValueChanged_ v
  | OpacitySpinBoxEditingFinished => processOpacitySpinBoxEditingFinished_
  | HoldCheckBoxToggled b => processHoldCheckBoxToggled_ b
  | UpdateFromBackground => updateFromBackground_
  end.

(** Lines 245-272. *)
Definition setBackground (background : option ptr) : M unit :=
  w <- get ;;
  when (bound w) (viaBackground (Background_connect false)) ;;;
  set_background_ background ;;;
  w <- get ;;
  let areChildrenEnabled := if bound w then true else false in
  with_controls (show_childrenEnabled areChildrenEnabled) ;;;
  updateFromBackground_ ;;;
  w <- get ;;
  when (bound w) (viaBackground (Background_connect true)).

End Slots.

(** Delivery of a signal to its slot; [fuel] bounds the nesting of slots
    running inside slots. *)
Fixpoint dispatch (fuel : nat) (s : Slot) : M unit :=
  match fuel with
  | O => fail OutOfFuel
  | S n => slot (dispatch n) s
  end.

(** A sequence of events, each handled to completion before the next. *)
Fixpoint dispatchAll (fuel : nat) (events : list Slot) : M unit :=
  match events with
  | [] => ret tt
  | s :: rest => dispatch fuel s ;;; dispatchAll fuel rest
  end.

(** *** Vocabulary of the theorems *)

(** The widget is bound to the live Background [b] at address [p]. *)
Definition pointsTo (w : World) (p : ptr) (b : Background) : Prop :=
  background_ (widget w) = Some p /\ store w !! p = Some b.

(** No slot is running: both flags are down. *)
Definition idle (w : World) : Prop :=
  isUpdatingFromBackground_ (widget w) = false /\
  isBeingEdited_ (widget w) = false.

(** Everything but the values shown by the controls. *)
Definition frame (w : World) :=
  (background_ (widget w), isUpdatingFromBackground_ (widget w),
   isBeingEdited_ (widget w), dataBeforeEditing_ (widget w),
   store w, undo w, warnings w).

(** The slots connected to the change signal of a control, those that
    [updateFromBackground_] can set off. *)
Definition isChangeSlot (s : Slot) : bool :=
  match s with
  | ColorSelectorColorChanged _ | LeftSpinBoxValueChanged _
  | TopSpinBoxValueChanged _ | SizeComboBoxCurrentIndexChanged _
  | WidthSpinBoxValueChanged _ | HeightSpinBoxValueChanged _
  | RepeatComboBoxCurrentIndexChanged _ | OpacitySpinBoxValueChanged _
  | HoldCheckBoxToggled _ => true
  | _ => false
  end.

(** The slots that start with the test
    [background_ && !isUpdatingFromBackground_]. *)
Definition isGuardedSlot (s : Slot) : bool :=
  match s with
  | ImageLineEditEditingFinished | ImageBrowseButtonClicked _ => true
  | _ => isChangeSlot s
  end.

(** The [editingFinished] slots of the spin boxes. *)
Definition isEditingFinished (s : Slot) : bool :=
  match s with
  | LeftSpinBoxEditingFinished | TopSpinBoxEditingFinished
  | WidthSpinBoxEditingFinished | HeightSpinBoxEditingFinished
  | OpacitySpinBoxEditingFinished => true
  | _ => false
  end.

(** The [valueChanged] slots of the spin boxes. *)
Definition isValueChanged (s : Slot) : bool :=
  match s with
  | LeftSpinBoxValueChanged _ | TopSpinBoxValueChanged _
  | WidthSpinBoxValueChanged _ | HeightSpinBoxValueChanged _
  | OpacitySpinBoxValueChanged _ => true
  | _ => false
  end.

(** What a [valueChanged] slot writes into the data of the Background. *)
Definition applyValueChanged (s : Slot) (d : Data) : Data :=
  match s with
  | LeftSpinBoxValueChanged v => upd_position (v, (position d).2) d
  | TopSpinBoxValueChanged v => upd_position ((position d).1, v) d
  | WidthSpinBoxValueChanged v => upd_size_ (v, (size_ d).2) d
  | HeightSpinBoxValueChanged v => upd_size_ ((size_ d).1, v) d
  | OpacitySpinBoxValueChanged v => upd_opacity v d
  | _ => d
  end.

(** The worlds in which an update of the controls is under way: the guard is
    up, the pointer is [p], and all but the controls is fixed. *)
Definition updating (p : ptr) (e : bool) (d : Data) (st : gmap ptr Background)
    (u : list (ptr * Data)) (ws : list Warning) (w : World) : Prop :=
  frame w = (Some p, true, e, d, st, u, ws).

(** A change signal that reaches a guarded slot changes nothing. *)
Definition quietUnderGuard (deliver : Slot -> M unit) : Prop :=
  forall s w, isChangeSlot s = true ->
              isUpdatingFromBackground_ (widget w) = true ->
              deliver s w = Ok tt w.

(** The world after a checkpoint of the Background at [p] holding [d]: the
    baseline is [d] and one undo entry is added. *)
Definition checkpointed (p : ptr) (d : Data) (w : World) : World :=
  {| widget :=
       {| background_ := background_ (widget w);
          isUpdatingFromBackground_ := isUpdatingFromBackground_ (widget w);
          isBeingEdited_ := isBeingEdited_ (widget w);
          dataBeforeEditing_ := d;
          controls := controls (widget w) |};
     store := store w;
     undo := (p, d) :: undo w;
     warnings := warnings w |}.

(** The world after a warning box. *)
Definition warned (x : Warning) (w : World) : World :=
  {| widget := widget w; store := store w; undo := undo w;
     warnings := x :: warnings w |}.

(** What the theorems need of the delivery of [changed()]: on a bound
    widget the update of the controls returns, with the guard down, the
    baseline taken unless an edit is under way, and nothing else moved. *)
Definition deliversUpdate (deliver : Slot -> M unit) : Prop :=
  forall w p b, pointsTo w p b ->
    exists w',
      deliver UpdateFromBackground w = Ok tt w' /\
      frame w' = (Some p, false, isBeingEdited_ (widget w),
                  (if isBeingEdited_ (widget w)
                   then dataBeforeEditing_ (widget w) else data_ b),
                  store w, undo w, warnings w).

(** The computation does not end in a null dereference. *)
Definition noNull {A} (m : M A) : Prop :=
  forall w, m w <> Failed NullDereference.

(** Started with the guard down, the computation has it down when it
    returns. *)
Definition leavesGuardDown {A} (m : M A) : Prop :=
  forall w a w', isUpdatingFromBackground_ (widget w) = false ->
                 m w = Ok a w' ->
                 isUpdatingFromBackground_ (widget w') = false.

(** The slots that edit one property and emit a checkpoint at once. *)
Definition isCheckpointedEdit (s : Slot) : bool :=
  match s with
  | ColorSelectorColorChanged _ | ImageLineEditEditingFinished
  | ImageBrowseButtonClicked _ | SizeComboBoxCurrentIndexChanged _
  | RepeatComboBoxCurrentIndexChanged _ | HoldCheckBoxToggled _ => true
  | _ => false
  end.

(** What such a slot, run in world [w], writes into the data of the
    Background. *)
Definition applyCheckpointedEdit (s : Slot) (w : World) (d : Data) : Data :=
  match s with
  | ColorSelectorColorChanged c => upd_color c d
  | ImageLineEditEditingFinished =>
      upd_imageUrl (imageLineEdit_ (controls (widget w))) d
  | ImageBrowseButtonClicked l =>
      upd_imageUrl (detectWildcard (map relativeFilePath l)).1 d
  | SizeComboBoxCurrentIndexChanged i => upd_sizeType i d
  | RepeatComboBoxCurrentIndexChanged i => upd_repeatType i d
  | HoldCheckBoxToggled h => upd_hold h d
  | _ => d
  end.

(** The controls show the data: every control holds the value of its
    property, and the two size spin boxes are hidden for [Cover] and shown
    for [Manual]. *)
Definition mirrors (c : Controls) (d : Data) : Prop :=
  colorSelector_ c = color d /\ imageLineEdit_ c = imageUrl d /\
  leftSpinBox_ c = (position d).1 /\ topSpinBox_ c = (position d).2 /\
  sizeComboBox_ c = sizeType d /\
  widthSpinBox_ c = (size_ d).1 /\ heightSpinBox_ c = (size_ d).2 /\
  repeatComboBox_ c = repeatType d /\ opacitySpinBox_ c = opacity d /\
  holdCheckBox_ c = hold d /\
  (sizeType d = Cover ->
   widthSpinBoxShown c = false /\ heightSpinBoxShown c = false) /\
  (sizeType d = Manual ->
   widthSpinBoxShown c = true /\ heightSpinBoxShown c = true).

(** The controls are in step with the data: every control holds what its
    setter makes of the value of its property, and the two size spin boxes
    are hidden for [Cover] and shown for [Manual]. *)
Definition rendered (c : Controls) (d : Data) : Prop :=
  colorSelector_ c = shownColor toolkit (color d) /\
  imageLineEdit_ c = shownText toolkit (imageUrl d) /\
  leftSpinBox_ c = shownValue toolkit LeftSpinBox (position d).1 /\
  topSpinBox_ c = shownValue toolkit TopSpinBox (position d).2 /\
  sizeComboBox_ c = shownIndex toolkit SizeComboBox (sizeType d) /\
  widthSpinBox_ c = shownValue toolkit WidthSpinBox (size_ d).1 /\
  heightSpinBox_ c = shownValue toolkit HeightSpinBox (size_ d).2 /\
  repeatComboBox_ c = shownIndex toolkit RepeatComboBox (repeatType d) /\
  opacitySpinBox_ c = shownValue toolkit OpacitySpinBox (opacity d) /\
  holdCheckBox_ c = hold d /\
  (sizeType d = Cover ->
   widthSpinBoxShown c = false /\ heightSpinBoxShown c = false) /\
  (sizeType d = Manual ->
   widthSpinBoxShown c = true /\ heightSpinBoxShown c = true).

(** The controls can hold the data as it is: the color and the url are kept
    by their setters, the five numbers are within the bounds and the decimals
    of their spin boxes, and the two types are indices of items of their
    combo boxes. *)
Definition displayable (d : Data) : Prop :=
  shownColor toolkit (color d) = color d /\
  shownText toolkit (imageUrl d) = imageUrl d /\
  shownValue toolkit LeftSpinBox (position d).1 = (position d).1 /\
  shownValue toolkit TopSpinBox (position d).2 = (position d).2 /\
  shownIndex toolkit SizeComboBox (sizeType d) = sizeType d /\
  shownValue toolkit WidthSpinBox (size_ d).1 = (size_ d).1 /\
  shownValue toolkit HeightSpinBox (size_ d).2 = (size_ d).2 /\
  shownIndex toolkit RepeatComboBox (repeatType d) = repeatType d /\
  shownValue toolkit OpacitySpinBox (opacity d) = opacity d.

(** The world with the controls changed by [f]. *)
Definition shows (f : Controls -> Controls) (w : World) : World :=
  {| widget :=
       {| background_ := background_ (widget w);
          isUpdatingFromBackground_ := isUpdatingFromBackground_ (widget w);
          isBeingEdited_ := isBeingEdited_ (widget w);
          dataBeforeEditing_ := dataBeforeEditing_ (widget w);
          controls := f (controls (widget w)) |};
     store := store w; undo := undo w; warnings := warnings w |}.

(** The controls after the [switch] on the size type. *)
Definition showSize (t : SizeType) (c : Controls) : Controls :=
  if t =? Cover then
    show_heightSpinBoxShown false (show_widthSpinBoxShown false c)
  else if t =? Manual then
    show_heightSpinBoxShown true (show_widthSpinBoxShown true c)
  else c.

(** The controls after the calls of [updateFromBackground_], in their
    order, when no slot interferes. *)
Definition refreshControls (d : Data) (c : Controls) : Controls :=
  show_holdCheckBox_ (hold d)
    (show_opacitySpinBox_ (shownValue toolkit OpacitySpinBox (opacity d))
       (show_repeatComboBox_ (shownIndex toolkit RepeatComboBox (repeatType d))
          (showSize (sizeType d)
             (show_heightSpinBox_ (shownValue toolkit HeightSpinBox (size_ d).2)
                (show_widthSpinBox_ (shownValue toolkit WidthSpinBox (size_ d).1)
                   (show_sizeComboBox_
                      (shownIndex toolkit SizeComboBox (sizeType d))
                      (show_topSpinBox_
                         (shownValue toolkit TopSpinBox (position d).2)
                         (show_leftSpinBox_
                            (shownValue toolkit LeftSpinBox (position d).1)
                            (show_imageLineEdit_ (shownText toolkit (imageUrl d))
                               (show_colorSelector_ (shownColor toolkit (color d))
                                  c)))))))))).

(** The world after [updateFromBackground_] on a widget bound to [b]. *)
Definition refreshed (b : Background) (w : World) : World :=
  {| widget :=
       {| background_ := background_ (widget w);
          isUpdatingFromBackground_ := false;
          isBeingEdited_ := isBeingEdited_ (widget w);
          dataBeforeEditing_ :=
            if isBeingEdited_ (widget w)
            then dataBeforeEditing_ (widget w) else data_ b;
          controls := refreshControls (data_ b) (controls (widget w)) |};
     store := store w; undo := undo w; warnings := warnings w |}.

(** [b] with its connection to the widget set to [c]. *)
Definition withConnected (c : bool) (b : Background) : Background :=
  {| data_ := data_ b; changedConnected := c; cacheClears := cacheClears b |}.

(** The Background objects after the widget has cut its connection to the
    Background it was bound to, if any. *)
Definition disconnectOld (w : World) : gmap ptr Background :=
  match background_ (widget w) with
  | Some q =>
      match store w !! q with
      | Some bq => <[q := withConnected false bq]> (store w)
      | None => store w
      end
  | None => store w
  end.

(** The bound pointer, if any, points to a Background object. *)
Definition boundIsLive (w : World) : Prop :=
  forall q, background_ (widget w) = Some q -> is_Some (store w !! q).

(** The wiring between the widget and the Background objects: the bound
    Background exists and is connected, and no other Background is. *)
Definition wired (w : World) : Prop :=
  (forall p, background_ (widget w) = Some p ->
             exists b, store w !! p = Some b /\ changedConnected b = true) /\
  (forall q bq, store w !! q = Some bq -> changedConnected bq = true ->
                background_ (widget w) = Some q).

(** From [w] to [w'] the undo entries and the warnings shown so far are
    kept, and no Background object is created or destroyed. *)
Definition historyKept (w w' : World) : Prop :=
  undo w `suffix_of` undo w' /\ warnings w `suffix_of` warnings w' /\
  dom (store w') = dom (store w).

Definition keepsHistory {A} (m : M A) : Prop :=
  forall w a w', m w = Ok a w' -> historyKept w w'.

(** The same for code that runs after [p] has been dereferenced. *)
Definition keepsHistoryAt {A} (p : ptr) (m : M A) : Prop :=
  forall w a w', is_Some (store w !! p) -> m w = Ok a w' -> historyKept w w'.

(** [b] with its data replaced. *)
Definition withData (d : Data) (b : Background) : Background :=
  {| data_ := d; changedConnected := changedConnected b;
     cacheClears := cacheClears b |}.

(** The computation never dereferences a null [background_], and leaves the
    pointer as it is. *)
Definition nullSafe {A} (m : M A) : Prop :=
  forall w, match m w with
            | Ok _ w' => background_ (widget w') = background_ (widget w)
            | Failed e => e <> NullDereference
            end.

(** The same for code that runs under a successful test of the pointer. *)
Definition boundSafe {A} (m : M A) : Prop :=
  forall w, bound w = true ->
            match m w with
            | Ok _ w' => background_ (widget w') = background_ (widget w)
            | Failed e => e <> NullDereference
            end.

End Model.

(** *** A concrete panel

    Numbers stand for colors and for [double] values; the document holds one
    Background, at address 0, as the constructor and [setBackground] leave
    it: white, no image, 1280 by 720, opacity 1, hold checked. *)
Module Sample.

Definition sampleData : @Data Z Z :=
  {| color := 0; imageUrl := []; position := (0, 0); size_ := (1280, 720);
     sizeType := Cover; repeatType := 0; opacity := 1; hold := true |}.

Definition sampleBackground : @Background Z Z :=
  {| data_ := sampleData; changedConnected := true; cacheClears := 0 |}.

Definition sampleControls : @Controls Z Z :=
  {| colorSelector_ := 0; imageLineEdit_ := [];
     leftSpinBox_ := 0; topSpinBox_ := 0; sizeComboBox_ := 0;
     widthSpinBox_ := 1280; heightSpinBox_ := 720;
     widthSpinBoxShown := false; heightSpinBoxShown := false;
     repeatComboBox_ := 0; opacitySpinBox_ := 1; holdCheckBox_ := true;
     childrenEnabled := true |}.

(** The widget bound to the Background at address 0. *)
Definition sampleWorld : @World Z Z :=
  {| widget := {| background_ := Some 0%nat;
                  isUpdatingFromBackground_ := false;
                  isBeingEdited_ := false;
                  dataBeforeEditing_ := sampleData;
                  controls := sampleControls |};
     store := {[ 0%nat := sampleBackground ]};
     undo := [];
     warnings := [] |}.

(** The same Background edited behind the widget's back: the data has left
    the baseline. *)
Definition editedWorld : @World Z Z :=
  {| widget := widget sampleWorld;
     store := {[ 0%nat := withData (upd_opacity 0 sampleData) sampleBackground ]};
     undo := [];
     warnings := [] |}.

(** The Background holds an opacity beyond the bounds of the spin box. *)
Definition overWorld : @World Z Z :=
  {| widget := widget sampleWorld;
     store := {[ 0%nat := withData (upd_opacity 2 sampleData) sampleBackground ]};
     undo := [];
     warnings := [] |}.

(** The panel after image*.png was chosen and checkpointed. *)
Definition imageBackground : @Background Z Z :=
  withData (upd_imageUrl (q "image*.png") sampleData) sampleBackground.

Definition imageWorld : @World Z Z :=
  {| widget := {| background_ := Some 0%nat;
                  isUpdatingFromBackground_ := false;
                  isBeingEdited_ := false;
                  dataBeforeEditing_ := data_ imageBackground;
                  controls := show_imageLineEdit_ (q "image*.png") sampleControls |};
     store := {[ 0%nat := imageBackground ]};
     undo := [];
     warnings := [] |}.

(** The widget bound to nothing. *)
Definition unboundWorld : @World Z Z :=
  {| widget := {| background_ := None;
                  isUpdatingFromBackground_ := false;
                  isBeingEdited_ := false;
                  dataBeforeEditing_ := sampleData;
                  controls := sampleControls |};
     store := {[ 0%nat := sampleBackground ]};
     undo := [];
     warnings := [] |}.


(** A second Background, at address 1, that the widget is not bound to. *)
Definition otherBackground : @Background Z Z :=
  {| data_ := upd_opacity 0 sampleData; changedConnected := false;
     cacheClears := 0 |}.

Definition twoWorld : @World Z Z :=
  {| widget := widget sampleWorld;
     store := <[ 1%nat := otherBackground ]> {[ 0%nat := sampleBackground ]};
     undo := [];
     warnings := [] |}.

(** The pattern inferred from img1.png and img2.png. *)
Definition samplePattern : Pattern :=
  infer [q "img1.png"; q "img2.png"] (q "img1.png") (q "img2.png").


(** Controls that emit their change signal on every programmatic change. *)
Definition alwaysEmits : Control -> @World Z Z -> bool := fun _ _ => true.

(** The controls as the constructor sets them up, with whole numbers for
    the doubles: the opacity spin box bounded by 0 and 1, the other spin
    boxes by -1e6 and 1e6, the size combo box with two items and the repeat
    combo box with four; an index that names no item leaves the combo box
    without a current item (-1). *)
Definition bounded (lo hi v : Z) : Z := Z.max lo (Z.min hi v).

Definition itemIndex (count i : Z) : Z :=
  if (0 <=? i) && (i <? count) then i else -1.

Definition sampleToolkit : @Toolkit Z Z :=
  {| shownColor := fun c => c;
     shownText := fun t => t;
     shownValue := fun ctl v =>
       match ctl with
       | OpacitySpinBox => bounded 0 1 v
       | _ => bounded (-1000000) 1000000 v
       end;
     shownIndex := fun ctl i =>
       match ctl with
       | SizeComboBox => itemIndex 2 i
       | _ => itemIndex 4 i
       end |}.

(** Files selected in the document directory itself. *)
Definition sameDir : QString -> QString := fun f => f.

(** Dragging the left spin box to 5, then to 7. *)
Definition sampleBatch : list (@Slot Z Z) :=
  [LeftSpinBoxValueChanged 5; LeftSpinBoxValueChanged 7].

End Sample.
End Widget.

(** ** The url syntax in the words of the specification

    These definitions follow the wording of the specification, not the code;
    the theorems below compare the validator with them. A position is an
    index into the string. *)
Module UrlSyntax.
Import QStr.

(** The string without any ['*']. *)
Definition removeStars (s : QString) : QString := filter (fun c => c <> star) s.

(** The number of ['*'] in the string. *)
Definition countStars (s : QString) : nat :=
  length (filter (fun c => c = star) s).

(** There is a wildcard at position [i]. *)
Definition wildcardAt (s : QString) (i : nat) : Prop := s !! i = Some star.

(** Some path separator stands after position [i]. *)
Definition separatorAfter (s : QString) (i : nat) : Prop :=
  exists k, (i < k)%nat /\ s !! k = Some slash.

(** Position [i] holds "the last valid wildcard occurrence not followed by a
    path separator". *)
Definition lastValidWildcard (s : QString) (i : nat) : Prop :=
  wildcardAt s i /\ ~ separatorAfter s i /\
  forall i', (i < i')%nat -> wildcardAt s i' -> separatorAfter s i'.

(** The string with every ['*'] removed but the one at position [i]. *)
Definition keepOnly (s : QString) (i : nat) : QString :=
  removeStars (take i s) ++ star :: removeStars (drop (S i) s).

(** "zero or one [*] wildcard; wildcard must not be immediately followed by
    [/]", read literally. *)
Definition syntaxAsStated (s : QString) : Prop :=
  (countStars s <= 1)%nat /\
  forall i, wildcardAt s i -> s !! (S i) <> Some slash.

(** The same with "no slash after wildcards", the comment of [validate]. *)
Definition syntaxNoSlashAfter (s : QString) : Prop :=
  (countStars s <= 1)%nat /\
  forall i, wildcardAt s i -> ~ separatorAfter s i.

End UrlSyntax.

Import QStr ImageUrlValidator Wildcard UrlSyntax.

(** * Theorems *)

(** ** The string functions at work *)

Example toInt_ex :
  toInt (q "-12") = Some (-12) /\ toInt (q "1x") = None /\
  toInt (q "99999999999") = None /\ toInt (q " 7 ") = Some 7.
Proof. vm_compute. repeat split. Qed.

Example validate_ex1 : validate (q "image*.png") = Acceptable.
Proof. reflexivity. Qed.

Example fixup_ex1 : fixup (q "a*b/c*d*e") = q "ab/cd*e".
Proof. reflexivity. Qed.

(** Case analysis on the integer comparisons of the source. *)
Ltac case_cmp :=
  match goal with
  | |- context [?a >? ?b] => destruct (Z.gtb_spec a b)
  | |- context [?a <? ?b] => destruct (Z.ltb_spec a b)
  | |- context [?a <=? ?b] => destruct (Z.leb_spec a b)
  | |- context [?a =? ?b] => destruct (Z.eqb_spec a b)
  end.

(** ** Strings *)

Lemma removeStars_cons_star s : removeStars (star :: s) = removeStars s.
Proof. unfold removeStars. rewrite filter_cons_False; [done | naive_solver]. Qed.

Lemma removeStars_cons_other c s :
  c <> star -> removeStars (c :: s) = c :: removeStars s.
Proof. intros H. unfold removeStars. by rewrite filter_cons_True. Qed.

Lemma removeStars_app s t : removeStars (s ++ t) = removeStars s ++ removeStars t.
Proof. apply filter_app. Qed.

Lemma removeStars_id s : star ∉ s -> removeStars s = s.
Proof.
  induction s as [|c s IH]; [done|].
  rewrite not_elem_of_cons. intros [Hc Hs].
  rewrite removeStars_cons_other by done. by rewrite IH.
Qed.

Lemma removeStars_no_star s : star ∉ removeStars s.
Proof. unfold removeStars. rewrite list_elem_of_filter. tauto. Qed.

Lemma removeStars_idemp s : removeStars (removeStars s) = removeStars s.
Proof. apply removeStars_id, removeStars_no_star. Qed.

Lemma countStars_cons c s :
  countStars (c :: s) = if decide (c = star) then S (countStars s) else countStars s.
Proof.
  unfold countStars. rewrite filter_cons. by destruct (decide (c = star)).
Qed.

Lemma countStars_app s t : countStars (s ++ t) = (countStars s + countStars t)%nat.
Proof. unfold countStars. by rewrite filter_app, length_app. Qed.

Lemma countStars_zero s : countStars s = 0%nat <-> star ∉ s.
Proof.
  induction s as [|c s IH].
  - split; [intros _; apply not_elem_of_nil | done].
  - rewrite countStars_cons, not_elem_of_cons.
    destruct (decide (c = star)) as [->|Hc].
    + split; [lia | intros [? _]; congruence].
    + rewrite IH. split; [intros ?; split; [congruence | done] | tauto].
Qed.

Lemma ch_eqb_true a b : ch_eqb a b = true <-> a = b.
Proof. unfold ch_eqb. apply bool_decide_eq_true. Qed.

Lemma ch_eqb_false a b : ch_eqb a b = false <-> a <> b.
Proof. unfold ch_eqb. apply bool_decide_eq_false. Qed.

Lemma ch_eqb_refl a : ch_eqb a a = true.
Proof. by apply ch_eqb_true. Qed.

Lemma star_not_slash : star <> slash.
Proof. done. Qed.

(** *** [lastIndexOf] *)

Lemma lastIndexOf_from_absent c s i acc :
  c ∉ s -> lastIndexOf_from c s i acc = acc.
Proof.
  revert i acc. induction s as [|x s IH]; intros i acc; [done|].
  rewrite not_elem_of_cons. intros [Hx Hs]. simpl.
  rewrite IH by done.
  destruct (ch_eqb x c) eqn:E; [|done].
  apply ch_eqb_true in E. congruence.
Qed.

Lemma lastIndexOf_from_last c pre post i acc :
  c ∉ post ->
  lastIndexOf_from c (pre ++ c :: post) i acc = i + Z.of_nat (length pre).
Proof.
  intros Hpost. revert i acc. induction pre as [|x pre IH]; intros i acc; simpl.
  - rewrite ch_eqb_refl, lastIndexOf_from_absent by done. lia.
  - rewrite IH. lia.
Qed.

Lemma lastIndexOf_absent c s : c ∉ s -> lastIndexOf c s = -1.
Proof. apply lastIndexOf_from_absent. Qed.

Lemma lastIndexOf_last c pre post :
  c ∉ post -> lastIndexOf c (pre ++ c :: post) = Z.of_nat (length pre).
Proof. intros H. unfold lastIndexOf. by rewrite lastIndexOf_from_last. Qed.

(** [lastIndexOf] is [-1] or an index of the string. *)
Lemma lastIndexOf_range c s : -1 <= lastIndexOf c s < size s.
Proof.
  destruct (decide (c ∈ s)) as [Hin|Hout].
  - apply list_elem_of_split_r in Hin as (pre & post & -> & Hpost).
    rewrite lastIndexOf_last by done. unfold size. rewrite length_app. simpl. lia.
  - rewrite lastIndexOf_absent by done. unfold size. lia.
Qed.

(** *** The loop of [fixup] *)

Lemma fixup_loop_outside j s i :
  j < i \/ i + size s <= j -> fixup_loop j s i = removeStars s.
Proof.
  revert i. induction s as [|c s IH]; intros i Hj; [done|].
  unfold size in *. simpl in *.
  rewrite IH by lia.
  replace (i =? j) with false by lia. rewrite orb_false_r.
  destruct (ch_eqb c star) eqn:E; simpl.
  - apply ch_eqb_true in E as ->. by rewrite removeStars_cons_star.
  - apply ch_eqb_false in E. by rewrite removeStars_cons_other.
Qed.

Lemma fixup_loop_at pre x post i j :
  j = i + size pre ->
  fixup_loop j (pre ++ x :: post) i = removeStars pre ++ x :: removeStars post.
Proof.
  revert i. induction pre as [|c pre IH]; intros i Hj;
    unfold size in Hj; simpl in *.
  - replace (i =? j) with true by lia. rewrite orb_true_r.
    by rewrite fixup_loop_outside by lia.
  - rewrite (IH (i + 1)) by (unfold size; lia).
    replace (i =? j) with false by lia. rewrite orb_false_r.
    destruct (ch_eqb c star) eqn:E; simpl.
    + apply ch_eqb_true in E as ->. by rewrite removeStars_cons_star.
    + apply ch_eqb_false in E. by rewrite removeStars_cons_other.
Qed.

(** *** The three cases of [fixup] *)

Lemma fixup_no_star s : star ∉ s -> fixup s = s.
Proof.
  intros H. unfold fixup. rewrite (lastIndexOf_absent star) by done.
  replace (if lastIndexOf slash s >? -1 then -1 else -1) with (-1)
    by (by case_cmp).
  rewrite fixup_loop_outside by lia. by apply removeStars_id.
Qed.

Lemma fixup_slash_after pre post :
  star ∉ post -> slash ∈ post ->
  fixup (pre ++ star :: post) = removeStars pre ++ post.
Proof.
  intros Hstar Hslash. unfold fixup.
  rewrite lastIndexOf_last by done.
  apply list_elem_of_split_r in Hslash as (p1 & p2 & -> & Hp2).
  replace (pre ++ star :: p1 ++ slash :: p2)
    with ((pre ++ star :: p1) ++ slash :: p2) by (by rewrite <- app_assoc).
  rewrite lastIndexOf_last by done.
  rewrite length_app. simpl.
  case_cmp; [|lia].
  rewrite fixup_loop_outside by lia.
  rewrite <- app_assoc. simpl.
  rewrite removeStars_app, removeStars_cons_star.
  by rewrite (removeStars_id (p1 ++ slash :: p2)).
Qed.

Lemma fixup_keep pre post :
  star ∉ post -> slash ∉ post ->
  fixup (pre ++ star :: post) = removeStars pre ++ star :: post.
Proof.
  intros Hstar Hslash. unfold fixup.
  rewrite lastIndexOf_last by done.
  assert (lastIndexOf slash (pre ++ star :: post) < Z.of_nat (length pre)) as Hk.
  { destruct (decide (slash ∈ pre)) as [Hin|Hout].
    - apply list_elem_of_split_r in Hin as (p1 & p2 & -> & Hp2).
      rewrite <- app_assoc. simpl.
      rewrite lastIndexOf_last.
      + rewrite length_app. simpl. lia.
      + rewrite not_elem_of_app, not_elem_of_cons.
        split; [done | split; [apply not_eq_sym, star_not_slash | done]].
    - rewrite lastIndexOf_absent; [lia|].
      rewrite not_elem_of_app, not_elem_of_cons.
      split; [done | split; [apply not_eq_sym, star_not_slash | done]]. }
  case_cmp; [lia|].
  rewrite (fixup_loop_at pre star post 0) by (unfold size; lia).
  by rewrite (removeStars_id post).
Qed.

(** Every string falls under one of the three cases. *)
Lemma fixup_cases s :
  ((star ∉ s) /\ fixup s = s) \/
  (exists pre post, s = pre ++ star :: post /\ (star ∉ post) /\ (slash ∈ post) /\
     fixup s = removeStars pre ++ post) \/
  (exists pre post, s = pre ++ star :: post /\ (star ∉ post) /\ (slash ∉ post) /\
     fixup s = removeStars pre ++ star :: post).
Proof.
  destruct (decide (star ∈ s)) as [Hin|Hout].
  - apply list_elem_of_split_r in Hin as (pre & post & -> & Hpost).
    right. destruct (decide (slash ∈ post)).
    + left. exists pre, post. by rewrite fixup_slash_after.
    + right. exists pre, post. by rewrite fixup_keep.
  - left. by rewrite fixup_no_star.
Qed.

(** *** Positions and decompositions *)

Lemma wildcardAt_middle pre post : wildcardAt (pre ++ star :: post) (length pre).
Proof. unfold wildcardAt. by rewrite list_lookup_middle. Qed.

Lemma separatorAfter_middle pre c post :
  separatorAfter (pre ++ c :: post) (length pre) <-> slash ∈ post.
Proof.
  unfold separatorAfter. split.
  - intros (k & Hk & Hl).
    rewrite lookup_app_r in Hl by lia.
    destruct (k - length pre)%nat as [|n] eqn:E; [lia|].
    simpl in Hl. by apply list_elem_of_lookup_2 in Hl.
  - intros (n & Hn)%list_elem_of_lookup_1.
    exists (length pre + S n)%nat. split; [lia|].
    rewrite lookup_app_r by lia.
    replace (length pre + S n - length pre)%nat with (S n) by lia. done.
Qed.

Lemma separatorAfter_later s i i' :
  (i <= i')%nat -> separatorAfter s i' -> separatorAfter s i.
Proof. intros Hi (k & Hk & Hl). exists k. split; [lia | done]. Qed.

(** What [lastValidWildcard] says about the two sides of the position. *)
Lemma lastValidWildcard_split s i :
  lastValidWildcard s i ->
  s = take i s ++ star :: drop (S i) s /\
  (star ∉ drop (S i) s) /\ (slash ∉ drop (S i) s).
Proof.
  intros (Hw & Hno & Hlast). split; [|split].
  - symmetry. by apply take_drop_middle.
  - intros (n & Hn)%list_elem_of_lookup_1. rewrite lookup_drop in Hn.
    apply Hno, (separatorAfter_later s i (S i + n)); [lia|].
    apply Hlast; [lia | done].
  - intros (n & Hn)%list_elem_of_lookup_1. rewrite lookup_drop in Hn.
    apply Hno. exists (S i + n)%nat. split; [lia | done].
Qed.

(** ** [ImageUrlValidator::fixup] *)

(** C3. Applying [fixup] twice gives the same string as applying it once,
    for every input string. *)
Theorem fixup_idempotent (input : QString) : fixup (fixup input) = fixup input.
Proof.
  destruct (fixup_cases input)
    as [[_ E] | [(pre & post & -> & Hs & _ & ->) | (pre & post & -> & Hs & Hn & ->)]].
  - by rewrite !E.
  - apply fixup_no_star. rewrite not_elem_of_app.
    split; [apply removeStars_no_star | done].
  - rewrite fixup_keep by done. by rewrite removeStars_idemp.
Qed.

(** C4. [fixup] removes every ['*'] except the last wildcard that is not
    followed by a path separator ['/']; when every ['*'] has a ['/'] somewhere
    after it, all wildcards are removed. The output has at most one ['*'], and
    the characters other than ['*'] are kept, in their order. *)
Theorem fixup_keeps_last_valid_wildcard (input : QString) :
  (forall i, lastValidWildcard input i -> fixup input = keepOnly input i) /\
  ((forall i, wildcardAt input i -> separatorAfter input i) ->
   fixup input = removeStars input) /\
  (countStars (fixup input) <= 1)%nat /\
  removeStars (fixup input) = removeStars input.
Proof.
  split; [|split; [|split]].
  - intros i Hi. unfold keepOnly.
    destruct (lastValidWildcard_split _ _ Hi) as (Hs & Hstar & Hslash).
    rewrite Hs at 1. rewrite fixup_keep by done.
    by rewrite (removeStars_id (drop (S i) input)).
  - intros Hall.
    destruct (decide (star ∈ input)) as [Hin|Hout].
    + apply list_elem_of_split_r in Hin as (pre & post & -> & Hpost).
      pose proof (Hall _ (wildcardAt_middle pre post)) as Hsep.
      apply separatorAfter_middle in Hsep.
      rewrite fixup_slash_after by done.
      rewrite removeStars_app, removeStars_cons_star.
      by rewrite (removeStars_id post).
    + rewrite fixup_no_star by done. by rewrite removeStars_id.
  - destruct (fixup_cases input)
      as [[Hs ->] | [(pre & post & -> & Hs & _ & ->) | (pre & post & -> & Hs & Hn & ->)]].
    + apply countStars_zero in Hs. lia.
    + rewrite countStars_app.
      pose proof (proj2 (countStars_zero _) (removeStars_no_star pre)).
      apply countStars_zero in Hs. lia.
    + rewrite countStars_app, countStars_cons.
      pose proof (proj2 (countStars_zero _) (removeStars_no_star pre)).
      apply countStars_zero in Hs.
      destruct (decide (star = star)); [lia | done].
  - destruct (fixup_cases input)
      as [[Hs ->] | [(pre & post & -> & Hs & _ & ->) | (pre & post & -> & Hs & Hn & ->)]].
    + done.
    + rewrite !removeStars_app, removeStars_cons_star.
      by rewrite removeStars_idemp.
    + rewrite !removeStars_app, !removeStars_cons_star.
      by rewrite removeStars_idemp.
Qed.

(** ** [ImageUrlValidator::validate] *)

Lemma validate_loop_not_invalid n s : validate_loop n s <> Invalid.
Proof.
  revert n. induction s as [|c s IH]; intros n; simpl; [done|].
  destruct (ch_eqb c star); [destruct (n =? 0); [apply IH | done]|].
  destruct (ch_eqb c slash && (n >? 0)); [done | apply IH].
Qed.

(** Once a wildcard has been seen, neither ['*'] nor ['/'] may follow. *)
Lemma validate_loop_after n s :
  0 < n -> validate_loop n s = Acceptable <-> (star ∉ s) /\ (slash ∉ s).
Proof.
  intros Hn. induction s as [|c s IH]; simpl.
  - split; [intros _; split; apply not_elem_of_nil | done].
  - rewrite !not_elem_of_cons.
    destruct (ch_eqb c star) eqn:Es.
    + apply ch_eqb_true in Es as ->.
      case_cmp; [lia|]. split; [done | intros [[? _] _]; congruence].
    + apply ch_eqb_false in Es.
      destruct (ch_eqb c slash) eqn:El; simpl.
      * apply ch_eqb_true in El as ->.
        case_cmp; [|lia]. split; [done | intros [_ [? _]]; congruence].
      * apply ch_eqb_false in El. rewrite IH.
        split; [intros [? ?]; repeat split; congruence | tauto].
Qed.

Lemma wildcardAt_cons c s i : wildcardAt (c :: s) (S i) <-> wildcardAt s i.
Proof. done. Qed.

Lemma separatorAfter_cons c s i :
  separatorAfter (c :: s) (S i) <-> separatorAfter s i.
Proof.
  unfold separatorAfter. split.
  - intros (k & Hk & Hl). destruct k as [|k]; [lia|].
    exists k. split; [lia | done].
  - intros (k & Hk & Hl). exists (S k). split; [lia | done].
Qed.

Lemma separatorAfter_head c s : separatorAfter (c :: s) 0 <-> slash ∈ s.
Proof. apply (separatorAfter_middle [] c s). Qed.

Lemma syntaxNoSlashAfter_star s :
  syntaxNoSlashAfter (star :: s) <-> (star ∉ s) /\ (slash ∉ s).
Proof.
  unfold syntaxNoSlashAfter. rewrite countStars_cons.
  destruct (decide (star = star)); [|done]. split.
  - intros [Hc Hw]. split.
    + apply countStars_zero. lia.
    + rewrite <- (separatorAfter_head star). by apply Hw.
  - intros [Hs Hl]. split.
    + apply countStars_zero in Hs. lia.
    + intros [|i] Hi.
      * by rewrite separatorAfter_head.
      * apply wildcardAt_cons, list_elem_of_lookup_2 in Hi. done.
Qed.

Lemma syntaxNoSlashAfter_other c s :
  c <> star -> syntaxNoSlashAfter (c :: s) <-> syntaxNoSlashAfter s.
Proof.
  intros Hc. unfold syntaxNoSlashAfter. rewrite countStars_cons.
  destruct (decide (c = star)); [done|]. split.
  - intros [Hn Hw]. split; [done|]. intros i Hi.
    rewrite <- (separatorAfter_cons c). by apply Hw.
  - intros [Hn Hw]. split; [done|]. intros [|i] Hi.
    + unfold wildcardAt in Hi. simpl in Hi. congruence.
    + rewrite separatorAfter_cons. by apply Hw.
Qed.

Lemma validate_loop_start s :
  validate_loop 0 s = Acceptable <-> syntaxNoSlashAfter s.
Proof.
  induction s as [|c s IH]; simpl.
  - split; [|done]. intros _. split; [unfold countStars; simpl; lia|].
    intros i Hi. unfold wildcardAt in Hi. by rewrite lookup_nil in Hi.
  - destruct (ch_eqb c star) eqn:Es.
    + apply ch_eqb_true in Es as ->.
      by rewrite validate_loop_after, syntaxNoSlashAfter_star by lia.
    + apply ch_eqb_false in Es. rewrite andb_false_r.
      by rewrite IH, syntaxNoSlashAfter_other.
Qed.

(** C5, as the code has it. [validate] returns [Acceptable] exactly for the
    strings with zero or one ['*'] and no ['/'] anywhere after the wildcard,
    and [Intermediate] for every other string. *)
Theorem validate_acceptable_iff (input : QString) :
  (validate input = Acceptable <-> syntaxNoSlashAfter input) /\
  (~ syntaxNoSlashAfter input -> validate input = Intermediate).
Proof.
  split; [apply validate_loop_start|].
  intros Hno. rewrite <- validate_loop_start in Hno.
  pose proof (validate_loop_not_invalid 0 input) as Hinv.
  unfold validate. by destruct (validate_loop 0 input).
Qed.

(** C5, as stated, fails: ["*a/"] has one wildcard, not immediately followed
    by ['/'], and [validate] answers [Intermediate]. *)
Lemma validate_rejects_later_slash :
  syntaxAsStated (q "*a/") /\ validate (q "*a/") = Intermediate.
Proof.
  split; [|reflexivity]. split.
  - vm_compute. lia.
  - intros [|[|[|i]]] Hi; vm_compute in Hi |- *; congruence.
Qed.

(** ** Wildcard inference *)

(** The loops stop on their own: the bound of each loop is never what ends
    it. *)
Lemma sharedPrefix_loop_exit fuel s0 s1 p :
  0 <= p -> size s0 - p <= Z.of_nat fuel ->
  let r := sharedPrefix_loop fuel s0 s1 p in
  (size s0 >? r) && (size s1 >? r) && ch_eqb (at_ s0 r) (at_ s1 r) = false.
Proof.
  revert p. induction fuel as [|fuel IH]; intros p Hp Hfuel; simpl.
  - replace (size s0 >? p) with false by lia. done.
  - destruct ((size s0 >? p) && (size s1 >? p)
              && ch_eqb (at_ s0 p) (at_ s1 p)) eqn:E; [|done].
    apply IH; lia.
Qed.

Lemma chopDigits_loop_exit fuel s0 p :
  p <= Z.of_nat fuel ->
  let r := chopDigits_loop fuel s0 p in
  (r >? 0) && isDigit (at_ s0 (r - 1)) = false.
Proof.
  revert p. induction fuel as [|fuel IH]; intros p Hfuel; simpl.
  - replace (p >? 0) with false by lia. done.
  - destruct ((p >? 0) && isDigit (at_ s0 (p - 1))) eqn:E; [|done].
    apply IH; lia.
Qed.

Lemma wildcardDigits_loop_exit fuel s0 pl wl :
  size s0 - pl - wl <= Z.of_nat fuel ->
  let r := wildcardDigits_loop fuel s0 pl wl in
  (size s0 >? pl + r) && isDigit (at_ s0 (pl + r)) = false.
Proof.
  revert wl. induction fuel as [|fuel IH]; intros wl Hfuel; simpl.
  - replace (size s0 >? pl + wl) with false by lia. done.
  - destruct ((size s0 >? pl + wl) && isDigit (at_ s0 (pl + wl))) eqn:E; [|done].
    apply IH; lia.
Qed.

(** *** [left], [right], [remove] and [chop] within the string *)

Lemma left_take k (s : QString) :
  0 <= k <= size s -> left k s = take (Z.to_nat k) s.
Proof.
  intros Hk. unfold left, size in *.
  destruct ((k <? 0) || (Z.of_nat (length s) <=? k)) eqn:E; [|done].
  rewrite take_ge; [done | lia].
Qed.

Lemma right_drop k (s : QString) :
  0 <= k <= size s -> right k s = drop (length s - Z.to_nat k) s.
Proof.
  intros Hk. unfold right, size in *.
  destruct ((k <? 0) || (Z.of_nat (length s) <=? k)) eqn:E; [|done].
  replace (length s - Z.to_nat k)%nat with 0%nat by lia. done.
Qed.

Lemma remove0_drop k (s : QString) : 0 <= k -> remove0 k s = drop (Z.to_nat k) s.
Proof.
  intros Hk. unfold remove0. case_cmp; [|done].
  by replace (Z.to_nat k) with 0%nat by lia.
Qed.

Lemma chop_take k (s : QString) :
  0 <= k <= size s -> chop k s = take (length s - Z.to_nat k) s.
Proof.
  intros Hk. unfold chop, size in *. case_cmp.
  - rewrite take_ge; [done | lia].
  - case_cmp; [|done].
    by replace (length s - Z.to_nat k)%nat with 0%nat by lia.
Qed.

(** *** The consistency check against "matches" *)

(** For a name at least as long as prefix and suffix together, the check of
    the source finds the name consistent exactly when it matches the pattern
    in the sense of the specification. *)
Lemma inconsistent_matches p (f : QString) :
  wellFormed p -> size (prefix p) + size (suffix p) <= size f ->
  inconsistent p f = false <-> matchesPattern p f.
Proof.
  intros [Hpl Hsl] Hlen. unfold inconsistent, matchesPattern.
  rewrite Hpl, Hsl. unfold size in Hlen.
  rewrite left_take, right_drop, remove0_drop by (unfold size; lia).
  rewrite chop_take by (unfold size; rewrite length_drop; lia).
  unfold size. rewrite !Nat2Z.id, length_drop.
  set (pl := length (prefix p)) in *. set (sl := length (suffix p)) in *.
  split.
  - intros H.
    destruct (decide (take pl f = prefix p)) as [Ep|]; simpl in H;
      [|by rewrite bool_decide_eq_false_2 in H].
    destruct (decide (drop (length f - sl) f = suffix p)) as [Es|]; simpl in H;
      [|by rewrite bool_decide_eq_true_2, bool_decide_eq_false_2 in H].
    rewrite !bool_decide_eq_true_2 in H by done. simpl in H.
    exists (take (length f - pl - sl) (drop pl f)). split.
    + rewrite <- Ep at 1. rewrite <- Es.
      rewrite <- (take_drop pl f) at 1. f_equal.
      rewrite <- (take_drop (length f - pl - sl) (drop pl f)) at 1. f_equal.
      rewrite drop_drop. f_equal. lia.
    + destruct (take (length f - pl - sl) (drop pl f)) as [|c w]; [by left|].
      right. simpl in H. by destruct (toInt (c :: w)).
  - intros (w & -> & Hw).
    assert (take pl (prefix p ++ w ++ suffix p) = prefix p) as ->
      by apply take_app_length.
    assert (drop (length (prefix p ++ w ++ suffix p) - sl) (prefix p ++ w ++ suffix p)
            = suffix p) as ->.
    { rewrite (app_assoc (prefix p)). apply drop_app_length'.
      rewrite !length_app. fold sl. lia. }
    rewrite !bool_decide_eq_true_2 by done. simpl.
    rewrite (drop_app_length' (prefix p) (w ++ suffix p) pl) by done.
    assert (take (length (prefix p ++ w ++ suffix p) - pl - sl) (w ++ suffix p) = w) as ->.
    { apply take_app_length'. rewrite !length_app. fold pl sl. lia. }
    destruct Hw as [-> | [v Hv]]; [done|].
    rewrite Hv. by case_cmp.
Qed.

(** The text of the warning is made of the reported names, one per line. *)
Lemma inconsistentFilenames_reported p filenames :
  inconsistentFilenames p filenames
  = concat (map (fun f => f ++ [newline]) (reported p filenames)).
Proof.
  unfold reported. induction filenames as [|f rest IH]; [done|].
  simpl. rewrite filter_cons.
  destruct (inconsistent p f) eqn:E.
  - destruct (decide (true = true)); [|done]. simpl.
    rewrite <- app_assoc. simpl. by rewrite IH.
  - destruct (decide (false = true)); [done|]. by rewrite IH.
Qed.

(** *** The pattern inferred from two names is well formed *)

Lemma sharedPrefix_loop_range fuel s0 s1 p :
  0 <= p <= size s0 ->
  p <= sharedPrefix_loop fuel s0 s1 p <= size s0.
Proof.
  revert p. induction fuel as [|fuel IH]; intros p Hp; simpl; [lia|].
  destruct (Z.gtb_spec (size s0) p); simpl; [|lia].
  destruct ((size s1 >? p) && ch_eqb (at_ s0 p) (at_ s1 p)); [|lia].
  specialize (IH (p + 1)). lia.
Qed.

Lemma chopDigits_loop_range fuel s0 p :
  0 <= p -> 0 <= chopDigits_loop fuel s0 p <= p.
Proof.
  revert p. induction fuel as [|fuel IH]; intros p Hp; simpl; [lia|].
  destruct (Z.gtb_spec p 0); simpl; [|lia].
  destruct (isDigit (at_ s0 (p - 1))); [|lia].
  specialize (IH (p - 1)). lia.
Qed.

Lemma chopMinus_range filenames s0 p :
  0 <= p -> 0 <= chopMinus filenames s0 p <= p.
Proof.
  intros Hp. unfold chopMinus.
  destruct (Z.gtb_spec p 0); simpl; [|lia].
  destruct (ch_eqb (at_ s0 (p - 1)) dash); [|lia].
  destruct (negb (theyAllHaveIt filenames p)); lia.
Qed.

Lemma wildcardDigits_loop_range fuel s0 pl wl :
  pl + wl <= size s0 ->
  wl <= wildcardDigits_loop fuel s0 pl wl /\
  pl + wildcardDigits_loop fuel s0 pl wl <= size s0.
Proof.
  revert wl. induction fuel as [|fuel IH]; intros wl Hwl; simpl; [lia|].
  destruct (Z.gtb_spec (size s0) (pl + wl)); simpl; [|lia].
  destruct (isDigit (at_ s0 (pl + wl))); [|lia].
  specialize (IH (wl + 1)). lia.
Qed.

Lemma s0WildcardLength_range s0 pl :
  0 <= pl <= size s0 ->
  0 <= s0WildcardLength s0 pl /\ pl + s0WildcardLength s0 pl <= size s0.
Proof.
  intros Hpl. unfold s0WildcardLength.
  destruct (Z.eqb_spec (size s0) pl); [lia|].
  destruct (ch_eqb (at_ s0 pl) dash).
  - pose proof (wildcardDigits_loop_range (length s0) s0 pl 1). lia.
  - destruct (isDigit (at_ s0 pl)); [|lia].
    pose proof (wildcardDigits_loop_range (length s0) s0 pl 0). lia.
Qed.

Lemma infer_wellFormed filenames s0 s1 : wellFormed (infer filenames s0 s1).
Proof.
  unfold infer, wellFormed. simpl.
  set (p1 := sharedPrefix_loop (length s0) s0 s1 0).
  set (p2 := chopDigits_loop (Z.to_nat p1) s0 p1).
  set (pl := chopMinus filenames s0 p2).
  assert (0 <= p1 <= size s0) by (apply sharedPrefix_loop_range; unfold size; lia).
  assert (0 <= p2 <= p1) by (apply chopDigits_loop_range; lia).
  assert (0 <= pl <= p2) by (apply chopMinus_range; lia).
  pose proof (s0WildcardLength_range s0 pl).
  rewrite left_take, right_drop by lia.
  unfold size in *. rewrite length_take, length_drop. lia.
Qed.

(** "Detect wildcard" for two names or more: the url is the pattern, and the
    warning box is shown exactly when some name is reported. *)
Lemma detectWildcard_two s0 s1 rest :
  let filenames := s0 :: s1 :: rest in
  let p := infer filenames s0 s1 in
  detectWildcard filenames
  = (patternUrl p,
     match reported p filenames with
     | [] => None
     | _ :: _ => Some {| warnedUrl := patternUrl p;
                         warnedFiles := chop 1 (inconsistentFilenames p filenames) |}
     end).
Proof.
  cbv zeta. unfold detectWildcard. cbv zeta. f_equal.
  rewrite inconsistentFilenames_reported.
  destruct (reported _ _) as [|f bad]; [reflexivity|].
  simpl. unfold size. rewrite !length_app. simpl.
  case_cmp; [done | lia].
Qed.

(** C6, where the code departs from it. With a.png1.png, a.png2.png and a.png
    selected the pattern is ["a.png*.png"]; a.png is neither prefix+suffix nor
    prefix + integer + suffix, yet the check finds it consistent and no
    warning is shown. *)
Theorem browse_overlap_file_not_warned :
  let files := [q "a.png1.png"; q "a.png2.png"; q "a.png"] in
  let p := infer files (q "a.png1.png") (q "a.png2.png") in
  detectWildcard files = (q "a.png*.png", None) /\
  inconsistent p (q "a.png") = false /\
  ~ matchesPattern p (q "a.png").
Proof.
  split; [vm_compute; reflexivity|]. split; [vm_compute; reflexivity|].
  intros (w & Hw & _).
  change (q "a.png" = q "a.png" ++ w ++ q ".png") in Hw.
  apply (f_equal length) in Hw. rewrite !length_app in Hw. simpl in Hw. lia.
Qed.

(** ** More on the wildcard inference *)

Lemma at_lookup (s : QString) i x : s !! i = Some x -> at_ s (Z.of_nat i) = x.
Proof.
  intros H. unfold at_. case_cmp; [lia|].
  rewrite Nat2Z.id. by apply nth_lookup_Some.
Qed.

Lemma lookup_at (s : QString) i :
  0 <= i < size s -> s !! Z.to_nat i = Some (at_ s i).
Proof.
  intros Hi. unfold size in Hi.
  destruct (lookup_lt_is_Some_2 s (Z.to_nat i)) as [x Hx]; [lia|].
  rewrite Hx. f_equal. symmetry.
  rewrite <- (at_lookup s (Z.to_nat i) x Hx). f_equal. lia.
Qed.

Lemma sharedPrefix_loop_range1 fuel s0 s1 p :
  0 <= p <= size s1 -> sharedPrefix_loop fuel s0 s1 p <= size s1.
Proof.
  revert p. induction fuel as [|fuel IH]; intros p Hp; simpl; [lia|].
  destruct (Z.gtb_spec (size s0) p); simpl; [|lia].
  destruct (Z.gtb_spec (size s1) p); simpl; [|lia].
  destruct (ch_eqb (at_ s0 p) (at_ s1 p)); [|lia].
  apply IH. lia.
Qed.

Lemma sharedPrefix_loop_common fuel s0 s1 p :
  (forall i, 0 <= i < p -> at_ s0 i = at_ s1 i) ->
  forall i, 0 <= i < sharedPrefix_loop fuel s0 s1 p -> at_ s0 i = at_ s1 i.
Proof.
  revert p. induction fuel as [|fuel IH]; intros p Hp; simpl; [done|].
  destruct ((size s0 >? p) && (size s1 >? p)) eqn:E1; simpl; [|done].
  destruct (ch_eqb (at_ s0 p) (at_ s1 p)) eqn:E2; [|done].
  apply ch_eqb_true in E2. apply IH. intros i Hi.
  destruct (decide (i = p)) as [->|]; [done|]. apply Hp. lia.
Qed.

Lemma take_eq_pointwise (s0 s1 : QString) r :
  (r <= length s0)%nat -> (r <= length s1)%nat ->
  (forall i, 0 <= i < Z.of_nat r -> at_ s0 i = at_ s1 i) ->
  take r s0 = take r s1.
Proof.
  intros H0 H1 Hat. apply list_eq. intros i.
  destruct (decide (i < r)%nat) as [Hi|Hi].
  - rewrite !lookup_take_lt by done.
    rewrite <- (Nat2Z.id i).
    rewrite !lookup_at by (unfold size; lia). f_equal. apply Hat. lia.
  - rewrite !lookup_take_ge by lia. done.
Qed.

Lemma sharedPrefix_is_longest_aux (s0 s1 : QString) :
  let r := Z.to_nat (sharedPrefix_loop (length s0) s0 s1 0) in
  (r <= length s0)%nat /\ (r <= length s1)%nat /\ take r s0 = take r s1.
Proof.
  intros r.
  pose proof (sharedPrefix_loop_range (length s0) s0 s1 0) as R0.
  pose proof (sharedPrefix_loop_range1 (length s0) s0 s1 0) as R1.
  unfold size in *.
  assert (r <= length s0)%nat by lia. assert (r <= length s1)%nat by lia.
  split; [done|]. split; [done|].
  apply take_eq_pointwise; [done..|]. intros i Hi.
  apply (sharedPrefix_loop_common (length s0) s0 s1 0); lia.
Qed.

(** The first loop finds the longest common prefix of the first two names:
    the names agree on the first [r] characters, and on no more. *)
Theorem sharedPrefix_is_longest (s0 s1 : QString) :
  let r := Z.to_nat (sharedPrefix_loop (length s0) s0 s1 0) in
  (r <= length s0)%nat /\ (r <= length s1)%nat /\
  take r s0 = take r s1 /\
  forall k, (r < k)%nat -> (k <= length s0)%nat -> (k <= length s1)%nat ->
            take k s0 <> take k s1.
Proof.
  intros r.
  destruct (sharedPrefix_is_longest_aux s0 s1) as (H0' & H1' & Hc).
  pose proof (sharedPrefix_loop_range (length s0) s0 s1 0) as R0.
  pose proof (sharedPrefix_loop_exit (length s0) s0 s1 0) as Hexit.
  unfold size in *. simpl in Hexit.
  split; [done|]. split; [done|]. split; [done|].
intros k Hk H0 H1 Heq.
    assert (take k s0 !! r = take k s1 !! r) as Hr by (by rewrite Heq).
    rewrite !lookup_take_lt in Hr by done.
    unfold r in Hr.
    rewrite !lookup_at in Hr by (unfold size; lia).
    injection Hr as Hr.
    specialize (Hexit ltac:(lia) ltac:(lia)).
    apply (proj2 (ch_eqb_true _ _)) in Hr. rewrite Hr in Hexit.
    rewrite andb_true_r in Hexit.
    apply andb_false_iff in Hexit as [Hx|Hx]; lia.
Qed.

Lemma wildcardDigits_loop_digits fuel s0 pl wl :
  forall i, wl <= i < wildcardDigits_loop fuel s0 pl wl ->
            isDigit (at_ s0 (pl + i)) = true.
Proof.
  revert wl. induction fuel as [|fuel IH]; intros wl i Hi; simpl in Hi; [lia|].
  destruct (size s0 >? pl + wl) eqn:E1; simpl in Hi; [|lia].
  destruct (isDigit (at_ s0 (pl + wl))) eqn:E2; [|lia].
  destruct (decide (i = wl)) as [->|]; [done|].
  apply (IH (wl + 1)). lia.
Qed.

Lemma Forall_digits_window (s0 : QString) (a n : nat) :
  (forall i, Z.of_nat a <= i < Z.of_nat (a + n) -> isDigit (at_ s0 i) = true) ->
  Forall (fun c => isDigit c = true) (take n (drop a s0)).
Proof.
  intros H. apply Forall_lookup. intros i x Hx.
  apply lookup_take_Some in Hx as [Hx Hi]. rewrite lookup_drop in Hx.
  rewrite <- (at_lookup _ _ _ Hx). apply H. lia.
Qed.

(** The shape of the wildcard of the first name: digits, or a minus sign
    followed by digits, or nothing at all. *)
Lemma s0WildcardLength_shape (s0 : QString) pl :
  0 <= pl <= size s0 ->
  let mid := take (Z.to_nat (s0WildcardLength s0 pl)) (drop (Z.to_nat pl) s0) in
  Forall (fun c => isDigit c = true) mid \/
  exists t, mid = dash :: t /\ Forall (fun c => isDigit c = true) t.
Proof.
  intros Hpl mid. subst mid. unfold s0WildcardLength.
  destruct (Z.eqb_spec (size s0) pl); [left; apply Forall_nil_2|].
  destruct (ch_eqb (at_ s0 pl) dash) eqn:Ed.
  - right. apply ch_eqb_true in Ed.
    pose proof (wildcardDigits_loop_range (length s0) s0 pl 1 ltac:(lia)) as [R1 R2].
    pose proof (wildcardDigits_loop_digits (length s0) s0 pl 1) as Hd.
    set (r := wildcardDigits_loop (length s0) s0 pl 1) in *.
    pose proof (lookup_at s0 pl ltac:(lia)) as Hat. rewrite Ed in Hat.
    rewrite (drop_S _ _ _ Hat).
    replace (Z.to_nat r) with (S (Z.to_nat (r - 1))) by lia. simpl.
    eexists. split; [reflexivity|].
    apply Forall_digits_window. intros i Hi.
    replace i with (pl + (i - pl)) by lia. apply Hd. lia.
  - destruct (isDigit (at_ s0 pl)); [|left; apply Forall_nil_2].
    left.
    pose proof (wildcardDigits_loop_range (length s0) s0 pl 0 ltac:(lia)) as [R1 R2].
    pose proof (wildcardDigits_loop_digits (length s0) s0 pl 0) as Hd.
    set (r := wildcardDigits_loop (length s0) s0 pl 0) in *.
    apply Forall_digits_window. intros i Hi.
    replace i with (pl + (i - pl)) by lia. apply Hd. lia.
Qed.

Lemma infer_prefixLength_range filenames (s0 s1 : QString) :
  0 <= prefixLength (infer filenames s0 s1)
    <= sharedPrefix_loop (length s0) s0 s1 0.
Proof.
  unfold infer. simpl.
  set (p1 := sharedPrefix_loop (length s0) s0 s1 0).
  assert (0 <= p1 <= size s0) by (apply sharedPrefix_loop_range; unfold size; lia).
  pose proof (chopDigits_loop_range (Z.to_nat p1) s0 p1 ltac:(lia)).
  pose proof (chopMinus_range filenames s0
                (chopDigits_loop (Z.to_nat p1) s0 p1) ltac:(lia)).
  lia.
Qed.

Lemma infer_parts filenames (s0 s1 : QString) :
  let p := infer filenames s0 s1 in
  let pl := prefixLength p in
  let wl := s0WildcardLength s0 pl in
  0 <= pl <= sharedPrefix_loop (length s0) s0 s1 0 /\
  0 <= wl /\ pl + wl <= size s0 /\
  suffixLength p = size s0 - pl - wl /\
  prefix p = take (Z.to_nat pl) s0 /\
  suffix p = drop (Z.to_nat pl + Z.to_nat wl) s0.
Proof.
  pose proof (infer_prefixLength_range filenames s0 s1) as Hpl.
  pose proof (sharedPrefix_loop_range (length s0) s0 s1 0) as R0.
  unfold size in R0. specialize (R0 ltac:(lia)).
  cbv zeta. unfold infer in *. cbn [prefixLength suffixLength prefix suffix] in *.
  set (pl := chopMinus filenames s0 _) in *.
  pose proof (s0WildcardLength_range s0 pl ltac:(unfold size; lia)) as [W1 W2].
  set (wl := s0WildcardLength s0 pl) in *.
  split; [done|]. split; [done|]. split; [done|]. split; [done|]. split.
  - apply left_take. unfold size. lia.
  - rewrite right_drop by (unfold size in *; lia). f_equal. unfold size in *. lia.
Qed.

(** *** The rules of the inference *)

Lemma sharedPrefix_largest (s0 s1 : QString) :
  largestSharedPrefix s0 s1
    (Z.to_nat (sharedPrefix_loop (length s0) s0 s1 0)).
Proof.
  set (r := Z.to_nat (sharedPrefix_loop (length s0) s0 s1 0)).
  destruct (sharedPrefix_is_longest_aux s0 s1) as (H0' & H1' & Hc).
  pose proof (sharedPrefix_loop_range (length s0) s0 s1 0) as R0.
  pose proof (sharedPrefix_loop_exit (length s0) s0 s1 0) as Hexit.
  unfold size in *. simpl in Hexit.
  split; [done|]. split; [done|]. split; [done|].
  intros k Hk H0 H1 Heq.
  assert (take k s0 !! r = take k s1 !! r) as Hr by (by rewrite Heq).
  rewrite !lookup_take_lt in Hr by done.
  unfold r in Hr.
  rewrite !lookup_at in Hr by (unfold size; lia).
  injection Hr as Hr.
  specialize (Hexit ltac:(lia) ltac:(lia)).
  apply (proj2 (ch_eqb_true _ _)) in Hr. rewrite Hr in Hexit.
  rewrite andb_true_r in Hexit.
  apply andb_false_iff in Hexit as [Hx|Hx]; lia.
Qed.

Lemma chopDigits_loop_digits fuel s0 p :
  forall i, chopDigits_loop fuel s0 p <= i < p -> isDigit (at_ s0 i) = true.
Proof.
  revert p. induction fuel as [|fuel IH]; intros p i Hi; simpl in Hi; [lia|].
  destruct (p >? 0) eqn:E1; simpl in Hi; [|lia].
  destruct (isDigit (at_ s0 (p - 1))) eqn:E2; [|lia].
  destruct (decide (i = p - 1)) as [->|]; [done|].
  apply (IH (p - 1)). lia.
Qed.

Lemma last_take_at (s : QString) d :
  (0 < d <= length s)%nat ->
  last (take d s) = Some (at_ s (Z.of_nat d - 1)).
Proof.
  intros Hd. rewrite last_lookup, length_take_le by lia.
  rewrite lookup_take_lt by lia.
  replace (Init.Nat.pred d) with (Z.to_nat (Z.of_nat d - 1)) by lia.
  apply lookup_at. unfold size. lia.
Qed.

Lemma digitsChopped_loop (s0 : QString) p :
  0 <= p <= size s0 ->
  digitsChopped s0 (Z.to_nat p)
    (Z.to_nat (chopDigits_loop (Z.to_nat p) s0 p)).
Proof.
  intros Hp.
  pose proof (chopDigits_loop_range (Z.to_nat p) s0 p ltac:(lia)) as R.
  pose proof (chopDigits_loop_exit (Z.to_nat p) s0 p ltac:(lia)) as Hexit.
  pose proof (chopDigits_loop_digits (Z.to_nat p) s0 p) as Hdig.
  simpl in Hexit. set (d := chopDigits_loop (Z.to_nat p) s0 p) in *.
  unfold size in *. split; [lia|]. split.
  - apply Forall_lookup. intros i x Hx.
    rewrite lookup_drop in Hx. apply lookup_take_Some in Hx as [Hx Hi].
    rewrite <- (at_lookup _ _ _ Hx). apply Hdig. lia.
  - intros c Hc.
    destruct (decide (Z.to_nat d = 0%nat)) as [E|E]; [by rewrite E in Hc|].
    rewrite last_take_at in Hc by lia. injection Hc as <-.
    replace (Z.of_nat (Z.to_nat d) - 1) with (d - 1) by lia.
    apply andb_false_iff in Hexit as [Hx|Hx]; [lia | done].
Qed.

Lemma theyAllHaveIt_allHaveDash (filenames : list QString) p :
  0 < p ->
  theyAllHaveIt filenames p = true <-> allHaveDash filenames (Z.to_nat p).
Proof.
  intros Hp. unfold theyAllHaveIt, allHaveDash.
  assert (forall f : QString,
            negb ((size f <? p) || negb (ch_eqb (at_ f (p - 1)) dash)) = true
            <-> f !! (Z.to_nat p - 1)%nat = Some dash) as Hf.
  { intros f. rewrite negb_true_iff, orb_false_iff, negb_false_iff, ch_eqb_true.
    unfold size. split.
    - intros [Hl <-].
      replace (Z.to_nat p - 1)%nat with (Z.to_nat (p - 1)) by lia.
      apply lookup_at. unfold size. lia.
    - intros Hx. pose proof (lookup_lt_Some _ _ _ Hx).
      split; [lia|].
      rewrite <- (at_lookup _ _ _ Hx). f_equal. lia. }
  induction filenames as [|f fs IH]; simpl.
  - split; [intros _; apply Forall_nil_2 | done].
  - rewrite andb_true_iff, Forall_cons, Hf, IH. done.
Qed.

Lemma dashChopped_chopMinus (filenames : list QString) (s0 : QString) p :
  0 <= p <= size s0 ->
  dashChopped filenames s0 (Z.to_nat p)
    (Z.to_nat (chopMinus filenames s0 p)).
Proof.
  intros Hp. unfold chopMinus, dashChopped, size in *.
  destruct (Z.gtb_spec p 0) as [Hpos|Hpos]; simpl.
  - rewrite last_take_at by lia.
    replace (Z.of_nat (Z.to_nat p) - 1) with (p - 1) by lia.
    destruct (ch_eqb (at_ s0 (p - 1)) dash) eqn:Ed.
    + apply ch_eqb_true in Ed.
      pose proof (theyAllHaveIt_allHaveDash filenames p Hpos) as Hall.
      destruct (theyAllHaveIt filenames p) eqn:Et; simpl.
      * split; [|done]. intros [_ Hn]. exfalso. by apply Hn, Hall.
      * split; [intros _; lia|]. intros Hn. exfalso. apply Hn.
        split; [by rewrite Ed|]. intros Ha. apply Hall in Ha. done.
    + apply ch_eqb_false in Ed. split; [|done].
      intros [[= Hd] _]. done.
  - replace (Z.to_nat p) with 0%nat by lia. split; [|done].
    by intros [Hd _].
Qed.

(** C2. The rules of the inference, for any selection of two or more names:
    the prefix is cut from the first name at the largest shared prefix of
    the first two names, less its trailing digits, less a trailing ['-']
    unless every selected name has ['-'] at that position; the url is the
    prefix, a wildcard and the suffix. On image1.png, image2.png, image10.png
    this yields ["image*.png"], and on img-1.png, img-2.png it yields
    ["img-*.png"]: the dash that all names share stays in the prefix, and no
    name is reported. *)
Theorem wildcard_inference_rules :
  (forall (s0 s1 : QString) (rest : list QString),
     let filenames := s0 :: s1 :: rest in
     let p := infer filenames s0 s1 in
     (exists r d : nat,
        largestSharedPrefix s0 s1 r /\ digitsChopped s0 r d /\
        dashChopped filenames s0 d (length (prefix p))) /\
     prefix p = take (length (prefix p)) s0 /\
     (detectWildcard filenames).1 = prefix p ++ star :: suffix p) /\
  detectWildcard [q "image1.png"; q "image2.png"; q "image10.png"]
    = (q "image*.png", None) /\
  detectWildcard [q "img-1.png"; q "img-2.png"] = (q "img-*.png", None) /\
  prefix (infer [q "img-1.png"; q "img-2.png"] (q "img-1.png") (q "img-2.png"))
    = q "img-".
Proof.
  split; [|repeat split; vm_compute; reflexivity].
  intros s0 s1 rest filenames p.
  destruct (infer_parts filenames s0 s1) as (Hpl & _ & _ & _ & Hpre & _).
  fold p in Hpl, Hpre.
  pose proof (sharedPrefix_loop_range (length s0) s0 s1 0) as R0.
  unfold size in R0. specialize (R0 ltac:(lia)).
  assert (length (prefix p) = Z.to_nat (prefixLength p)) as Hlen.
  { rewrite Hpre, length_take_le; [done | lia]. }
  split; [|split].
  - exists (Z.to_nat (sharedPrefix_loop (length s0) s0 s1 0)),
           (Z.to_nat (chopDigits_loop
                        (Z.to_nat (sharedPrefix_loop (length s0) s0 s1 0)) s0
                        (sharedPrefix_loop (length s0) s0 s1 0))).
    split; [apply sharedPrefix_largest|].
    split; [apply digitsChopped_loop; unfold size; lia|].
    rewrite Hlen. apply dashChopped_chopMinus.
    pose proof (chopDigits_loop_range
                  (Z.to_nat (sharedPrefix_loop (length s0) s0 s1 0)) s0
                  (sharedPrefix_loop (length s0) s0 s1 0) ltac:(lia)).
    unfold size. lia.
  - by rewrite Hlen.
  - unfold filenames, p. by rewrite detectWildcard_two.
Qed.

(** The chops at work: the digit shared by img10.png and img11.png is
    chopped from the prefix; and the dash shared by t-1.png and t-2.png is
    chopped as a minus sign, because t3.png has none. *)
Example sample_digits_chopped :
  detectWildcard [q "img10.png"; q "img11.png"] = (q "img*.png", None).
Proof. vm_compute. reflexivity. Qed.

Example sample_minus_chopped :
  detectWildcard [q "t-1.png"; q "t-2.png"; q "t3.png"] = (q "t*.png", None).
Proof. vm_compute. reflexivity. Qed.

(** What the inference makes of the first two names: the first name is
    prefix, wildcard and suffix in a row; the prefix also starts the second
    name; and the wildcard is a run of digits, possibly after a minus
    sign, or empty. *)
Theorem infer_splits_first_name filenames (s0 s1 : QString) :
  let p := infer filenames s0 s1 in
  s0 = prefix p ++ wildcardOf p s0 ++ suffix p /\
  take (length (prefix p)) s1 = prefix p /\
  (Forall (fun c => isDigit c = true) (wildcardOf p s0) \/
   exists t, wildcardOf p s0 = dash :: t /\ Forall (fun c => isDigit c = true) t).
Proof.
  intros p.
  destruct (infer_parts filenames s0 s1) as (Hpl & W1 & W2 & Hsl & Hpre & Hsuf).
  destruct (sharedPrefix_is_longest_aux s0 s1) as (Hr0 & Hr1 & Hcommon).
  fold p in Hpl, W1, W2, Hsl, Hpre, Hsuf.
  set (pl := prefixLength p) in *. set (wl := s0WildcardLength s0 pl) in *.
  assert (wildcardOf p s0 = take (Z.to_nat wl) (drop (Z.to_nat pl) s0)) as Hmid.
  { unfold wildcardOf. fold pl. rewrite Hsl. f_equal. lia. }
  split; [|split].
  - rewrite Hpre, Hmid, Hsuf.
    rewrite <- (drop_drop s0).
    by rewrite (take_drop _ (drop (Z.to_nat pl) s0)), take_drop.
  - rewrite Hpre. rewrite length_take_le by (unfold size in *; lia).
    set (r := Z.to_nat (sharedPrefix_loop (length s0) s0 s1 0)) in *.
    transitivity (take (Z.to_nat pl) (take r s1)).
    + rewrite take_take. f_equal. lia.
    + rewrite <- Hcommon, take_take. f_equal. lia.
  - rewrite Hmid. apply s0WildcardLength_shape. unfold size in *. lia.
Qed.

(** For the pattern inferred from the selection and a name at least as long
    as prefix and suffix together, the consistency check of the source and
    the matching of the specification agree. *)
Theorem inferred_pattern_check_agrees filenames (s0 s1 f : QString) :
  let p := infer filenames s0 s1 in
  size (prefix p) + size (suffix p) <= size f ->
  inconsistent p f = false <-> matchesPattern p f.
Proof.
  intros p Hlen. apply inconsistent_matches; [apply infer_wellFormed | done].
Qed.

Lemma concat_lines_joinLines (names : list QString) :
  names <> [] ->
  concat (map (fun f => f ++ [newline]) names) = joinLines names ++ [newline].
Proof.
  induction names as [|f rest IH]; [done|]. intros _.
  destruct rest as [|g rest]; [simpl; by rewrite app_nil_r|].
  change (concat (map (fun f => f ++ [newline]) (f :: g :: rest)))
    with ((f ++ [newline]) ++ concat (map (fun f => f ++ [newline]) (g :: rest))).
  rewrite IH by done.
  change (joinLines (f :: g :: rest)) with (f ++ newline :: joinLines (g :: rest)).
  by rewrite <- !app_assoc.
Qed.

Lemma chop_last (s : QString) c : chop 1 (s ++ [c]) = s.
Proof.
  rewrite chop_take by (unfold size; rewrite length_app; simpl; lia).
  rewrite length_app. simpl.
  apply take_app_length'. lia.
Qed.

(** The warning box of the browse slot: it is shown exactly when the check
    reports some name, names the inferred url, and lists the reported names
    in the order of the selection, one per line. With fewer than two names
    there is no warning. *)
Theorem detectWildcard_warning (s0 s1 : QString) (rest : list QString) :
  let filenames := s0 :: s1 :: rest in
  let p := infer filenames s0 s1 in
  (detectWildcard [] = ([], None) /\ detectWildcard [s0] = (s0, None)) /\
  (detectWildcard filenames).1 = patternUrl p /\
  match (detectWildcard filenames).2 with
  | None => reported p filenames = []
  | Some x =>
      reported p filenames <> [] /\
      warnedUrl x = patternUrl p /\
      warnedFiles x = joinLines (reported p filenames)
  end.
Proof.
  intros filenames p. split; [done|].
  unfold filenames, p. rewrite detectWildcard_two. cbn [fst snd].
  split; [done|]. fold filenames. fold p.
  rewrite inconsistentFilenames_reported.
  destruct (reported p filenames) as [|f bad] eqn:E; [done|].
  split; [done|]. split; [done|]. cbn [warnedFiles].
  rewrite concat_lines_joinLines by done. apply chop_last.
Qed.

(** ** The validator and [fixup] together *)

Lemma validate_loop_no_star n s : (star ∉ s) -> n = 0 -> validate_loop n s = Acceptable.
Proof.
  intros Hs ->. induction s as [|c s IH]; [done|].
  apply not_elem_of_cons in Hs as [Hc Hs]. simpl.
  destruct (ch_eqb c star) eqn:E; [apply ch_eqb_true in E; congruence|].
  rewrite andb_false_r. by apply IH.
Qed.

Lemma validate_loop_skip pre s :
  (star ∉ pre) -> validate_loop 0 (pre ++ s) = validate_loop 0 s.
Proof.
  induction pre as [|c pre IH]; [done|].
  intros [Hc Hs]%not_elem_of_cons. simpl.
  destruct (ch_eqb c star) eqn:E; [apply ch_eqb_true in E; congruence|].
  rewrite andb_false_r. by apply IH.
Qed.

Lemma validate_fixup_acceptable_aux (input : QString) :
  validate (fixup input) = Acceptable.
Proof.
  unfold validate.
  destruct (fixup_cases input)
    as [[Hs ->] | [(pre & post & -> & Hs & _ & ->) | (pre & post & -> & Hs & Hn & ->)]].
  - by apply validate_loop_no_star.
  - apply validate_loop_no_star; [|done]. rewrite not_elem_of_app.
    split; [apply removeStars_no_star | done].
  - rewrite validate_loop_skip by apply removeStars_no_star.
    change (validate_loop 0 (star :: post)) with (validate_loop 1 post).
    by apply validate_loop_after.
Qed.

(** Whatever the input, what [fixup] returns is [Acceptable] to
    [validate]. *)
Theorem validate_fixup_acceptable (input : QString) :
  validate (fixup input) = Acceptable.
Proof. apply validate_fixup_acceptable_aux. Qed.

(** [fixup] changes a string exactly when [validate] does not accept it. *)
Theorem fixup_fixpoint_iff_acceptable (input : QString) :
  fixup input = input <-> validate input = Acceptable.
Proof.
  split.
  - intros H. rewrite <- H. apply validate_fixup_acceptable_aux.
  - intros Hv. apply validate_loop_start in Hv as [Hcount Hsep].
    destruct (fixup_cases input)
      as [[_ E] | [(pre & post & -> & Hs & Hin & _)
                  | (pre & post & -> & Hs & Hn & ->)]].
    + done.
    + exfalso. apply (Hsep (length pre)); [apply wildcardAt_middle|].
      by apply separatorAfter_middle.
    + rewrite countStars_app, countStars_cons in Hcount.
      destruct (decide (star = star)); [|done].
      rewrite removeStars_id; [done|]. apply countStars_zero. lia.
Qed.

(** ** The widget *)
Section WidgetTheorems.
Import Widget.

Context {double Color : Type}.
Context `{!EqDecision double, !EqDecision Color}.
Context (emits : Control -> @World double Color -> bool).
Context (toolkit : @Toolkit double Color).
Context (relativeFilePath : QString -> QString).

Local Abbreviation World := (@World double Color).
Local Abbreviation M := (@M double Color).
Local Abbreviation Slot := (@Slot double Color).
Local Abbreviation Data := (@Data double Color).
Local Abbreviation Background := (@Background double Color).
Local Abbreviation Controls := (@Controls double Color).
Local Abbreviation dispatch := (dispatch emits toolkit relativeFilePath).
Local Abbreviation dispatchAll := (dispatchAll emits toolkit relativeFilePath).
Local Abbreviation slot := (slot emits toolkit relativeFilePath).
Local Abbreviation refreshControls := (refreshControls toolkit).
Local Abbreviation refreshed := (refreshed toolkit).
Local Abbreviation rendered := (rendered toolkit).
Local Abbreviation displayable := (displayable toolkit).

(** *** Rules of the monad *)

Lemma bind_Ok {A B} (m : M A) (k : A -> M B) w a w1 :
  m w = Ok a w1 -> bind m k w = k a w1.
Proof. intros H. unfold bind. by rewrite H. Qed.

(** *** One step of [updateFromBackground_] at a time *)

Lemma updating_guard p e (d : Data) st u ws w :
  updating p e d st u ws w ->
  background_ (widget w) = Some p /\
  isUpdatingFromBackground_ (widget w) = true /\
  isBeingEdited_ (widget w) = e /\ dataBeforeEditing_ (widget w) = d /\
  store w = st /\ undo w = u /\ warnings w = ws.
Proof. unfold updating, frame. intros [= -> -> -> -> -> -> ->]. done. Qed.

Lemma run_data {B} p e (d : Data) st u ws b (k : Data -> M B) w :
  updating p e d st u ws w -> st !! p = Some b ->
  bind (viaBackground Background_data) k w = k (data_ b) w.
Proof.
  intros (Hp & _ & _ & _ & Hst & _)%updating_guard Hb.
  unfold viaBackground, Background_data, bind, deref, load, ret.
  by rewrite Hp, Hst, Hb.
Qed.

Lemma run_with_controls {B} p e (d : Data) st u ws f (k : unit -> M B) w :
  updating p e d st u ws w ->
  exists w1, updating p e d st u ws w1 /\
             bind (with_controls f) k w = k tt w1.
Proof. intros U. eexists. split; [|reflexivity]. exact U. Qed.

Lemma run_setControl {B} deliver ctl show s p e (d : Data) st u ws
    (k : unit -> M B) w :
  quietUnderGuard deliver -> isChangeSlot s = true ->
  updating p e d st u ws w ->
  exists w1, updating p e d st u ws w1 /\
             bind (setControl emits deliver ctl show s) k w = k tt w1.
Proof.
  intros Hq Hs U.
  unfold setControl, bind, get, with_controls, with_widget, when.
  destruct (emits ctl w).
  - rewrite Hq; [|done|].
    + eexists. split; [|reflexivity]. exact U.
    + simpl. by apply updating_guard in U as (_ & ? & _).
  - eexists. split; [|reflexivity]. exact U.
Qed.

Lemma run_showSizeSpinBoxes {B} p e (d : Data) st u ws t (k : unit -> M B) w :
  updating p e d st u ws w ->
  exists w1, updating p e d st u ws w1 /\
             bind (showSizeSpinBoxes t) k w = k tt w1.
Proof.
  intros U. unfold showSizeSpinBoxes.
  destruct (t =? Cover); [|destruct (t =? Manual)];
    (eexists; split; [|reflexivity]); exact U.
Qed.

(** One step of the symbolic run of [updateFromBackground_]. *)
Ltac update_step Hq Hb :=
  cbv beta;
  match goal with
  | U : updating _ _ _ _ _ _ ?w
    |- context [bind (viaBackground Background_data) ?k ?w] =>
      rewrite (run_data _ _ _ _ _ _ _ k w U Hb)
  | U : updating _ _ _ _ _ _ ?w
    |- context [bind (setControl _ _ ?ctl ?show ?s) ?k ?w] =>
      let w1 := fresh "w" in let U1 := fresh "U" in
      destruct (run_setControl _ ctl show s _ _ _ _ _ _ k w Hq eq_refl U)
        as (w1 & U1 & ->); clear U
  | U : updating _ _ _ _ _ _ ?w
    |- context [bind (with_controls ?f) ?k ?w] =>
      let w1 := fresh "w" in let U1 := fresh "U" in
      destruct (run_with_controls _ _ _ _ _ _ f k w U)
        as (w1 & U1 & ->); clear U
  | U : updating _ _ _ _ _ _ ?w
    |- context [bind (showSizeSpinBoxes ?t) ?k ?w] =>
      let w1 := fresh "w" in let U1 := fresh "U" in
      destruct (run_showSizeSpinBoxes _ _ _ _ _ _ t k w U)
        as (w1 & U1 & ->); clear U
  end.

(** [updateFromBackground_] on a bound widget: the controls are refreshed,
    the baseline is taken unless an edit is under way, the guard is down at
    the end, and nothing else moves. *)
Lemma updateFromBackground_bound deliver w p b :
  quietUnderGuard deliver -> pointsTo w p b ->
  exists w',
    updateFromBackground_ emits toolkit deliver w = Ok tt w' /\
    frame w' = (Some p, false, isBeingEdited_ (widget w),
                (if isBeingEdited_ (widget w)
                 then dataBeforeEditing_ (widget w) else data_ b),
                store w, undo w, warnings w).
Proof.
  intros Hq [Hp Hb].
  unfold updateFromBackground_, setColor, setText, setValue, setCurrentIndex.
  rewrite (bind_Ok get _ w w w eq_refl).
  unfold bound. rewrite Hp.
  rewrite (bind_Ok (set_isUpdatingFromBackground_ true) _ w tt _ eq_refl).
  match goal with |- context [bind _ _ ?w1] =>
    remember w1 as w0 eqn:Ew0;
    assert (updating p (isBeingEdited_ (widget w))
              (dataBeforeEditing_ (widget w)) (store w) (undo w) (warnings w) w0)
      as U by (subst w0; unfold updating, frame; simpl; by rewrite Hp);
    clear Ew0
  end.
  repeat update_step Hq Hb.
  cbv beta.
  match goal with U : updating _ _ _ _ _ _ ?w |- _ =>
    apply updating_guard in U as (Hp2 & Hg & He & Hd & Hst & Hu & Hws);
    rewrite (bind_Ok get _ w w w eq_refl)
  end.
  rewrite He.
  destruct (isBeingEdited_ (widget w)); simpl.
  - eexists. split; [reflexivity|]. unfold frame; simpl.
    by rewrite Hp2, He, Hd, Hst, Hu, Hws.
  - unfold bind at 1. unfold bind at 1.
    unfold viaBackground, Background_data, bind, deref, load, ret.
    rewrite Hp2, Hst, Hb. simpl.
    eexists. split; [reflexivity|]. unfold frame; simpl.
    by rewrite Hp2, He, Hst, Hu, Hws.
Qed.

(** *** Guarded slots *)

Lemma editAndCheckpoint_not_editable edit (w : World) :
  editable w = false -> editAndCheckpoint edit w = Ok tt w.
Proof. intros H. unfold editAndCheckpoint, bind, get, when. by rewrite H. Qed.

Lemma editOnly_not_editable edit (w : World) :
  editable w = false -> editOnly edit w = Ok tt w.
Proof. intros H. unfold editOnly, bind, get, when. by rewrite H. Qed.

Lemma editable_guard (w : World) :
  isUpdatingFromBackground_ (widget w) = true -> editable w = false.
Proof. intros H. unfold editable. rewrite H. apply andb_false_r. Qed.

Lemma editable_unbound (w : World) :
  background_ (widget w) = None -> editable w = false.
Proof. intros H. unfold editable, bound. by rewrite H. Qed.

(** A slot that starts with the test of the pointer and of the guard does
    nothing (but for the warning box of the browse slot) when the test
    fails. *)
Lemma slot_not_editable deliver s (w : World) :
  isGuardedSlot s = true -> editable w = false ->
  slot deliver s w
  = Ok tt (match s with
           | ImageBrowseButtonClicked l =>
               match (detectWildcard (map relativeFilePath l)).2 with
               | Some x => warned x w
               | None => w
               end
           | _ => w
           end).
Proof.
  intros Hs He. destruct s; try discriminate Hs; simpl;
    unfold processColorSelectorColorChanged_, processImageLineEditEditingFinished_,
      processLeftSpinBoxValueChanged_, processTopSpinBoxValueChanged_,
      processSizeComboBoxCurrentIndexChanged_, processWidthSpinBoxValueChanged_,
      processHeightSpinBoxValueChanged_, processRepeatComboBoxCurrentIndexChanged_,
      processOpacitySpinBoxValueChanged_, processHoldCheckBoxToggled_;
    rewrite ?editAndCheckpoint_not_editable, ?editOnly_not_editable by done;
    try done.
  unfold processImageBrowseButtonClicked_.
  destruct (detectWildcard (map relativeFilePath selected)).2 as [x|].
  - rewrite (bind_Ok (warn x) _ w tt (warned x w) eq_refl).
    by rewrite editAndCheckpoint_not_editable.
  - rewrite (bind_Ok (ret tt) _ w tt w eq_refl).
    by rewrite editAndCheckpoint_not_editable.
Qed.

Lemma slot_change_quiet deliver : quietUnderGuard (slot deliver).
Proof.
  intros s w Hs Hg. rewrite slot_not_editable.
  - by destruct s.
  - by destruct s.
  - by apply editable_guard.
Qed.

Lemma dispatch_quiet n : quietUnderGuard (dispatch (S n)).
Proof. apply slot_change_quiet. Qed.

(** The update of the controls, delivered as a slot. *)
Lemma dispatch_update n (w : World) p b :
  pointsTo w p b ->
  exists w',
    dispatch (S (S n)) UpdateFromBackground w = Ok tt w' /\
    frame w' = (Some p, false, isBeingEdited_ (widget w),
                (if isBeingEdited_ (widget w)
                 then dataBeforeEditing_ (widget w) else data_ b),
                store w, undo w, warnings w).
Proof. apply updateFromBackground_bound, dispatch_quiet. Qed.

(** *** [emitCheckpoint_] *)

(** Runs the code as far as the pointer [Hp] and the object [Hb] decide. *)
Ltac exec Hp Hb := repeat (progress (cbn; rewrite ?Hp, ?Hb)).

Lemma emitCheckpoint_unbound (w : World) :
  background_ (widget w) = None -> emitCheckpoint_ w = Ok tt w.
Proof. intros H. unfold emitCheckpoint_, bind, get, bound. by rewrite H. Qed.

Lemma emitCheckpoint_bound (w : World) p b :
  pointsTo w p b ->
  emitCheckpoint_ w
  = Ok tt (if decide (data_ b = dataBeforeEditing_ (widget w))
           then w else checkpointed p (data_ b) w).
Proof.
  intros [Hp Hb].
  unfold emitCheckpoint_, viaBackground, Background_data, Background_emitCheckpoint,
    set_dataBeforeEditing_, with_widget, bind, get, bound, deref, load, ret.
  exec Hp Hb.
  destruct (decide (data_ b <> dataBeforeEditing_ (widget w))) as [Hne|He];
    destruct (decide (data_ b = dataBeforeEditing_ (widget w))) as [He'|Hne'];
    try done.
  exec Hp Hb. unfold checkpointed. by rewrite Hp.
Qed.

(** *** Setters of the Background *)

Lemma frame_fields (w : World) bp g e d st u ws :
  frame w = (bp, g, e, d, st, u, ws) ->
  background_ (widget w) = bp /\
  isUpdatingFromBackground_ (widget w) = g /\
  isBeingEdited_ (widget w) = e /\ dataBeforeEditing_ (widget w) = d /\
  store w = st /\ undo w = u /\ warnings w = ws.
Proof. unfold frame. intros [= -> -> -> -> -> -> ->]. done. Qed.

Lemma withData_same (b : Background) : withData (data_ b) b = b.
Proof. by destruct b. Qed.

Lemma dispatch_deliversUpdate n : deliversUpdate (dispatch (S (S n))).
Proof. intros w p b. apply dispatch_update. Qed.

(** A setter called in the middle of an edit: the object is updated, the
    widget refreshes its controls if it is connected, and neither the
    baseline nor the undo entries move. *)
Lemma Background_set_run {A} `{!EqDecision A} deliver (getter : Data -> A) upd
    (w : World) p b v d st u ws :
  deliversUpdate deliver -> (forall x, upd (getter x) x = x) ->
  frame w = (Some p, false, true, d, st, u, ws) -> st !! p = Some b ->
  exists w',
    Background_set deliver getter upd p v w = Ok tt w' /\
    frame w' = (Some p, false, true, d,
                <[p := withData (upd v (data_ b)) b]> st, u, ws).
Proof.
  intros Hd Hlaw Hf Hb.
  destruct (frame_fields _ _ _ _ _ _ _ _ Hf) as (Hp & Hg & He & Hbase & Hst & Hu & Hws).
  rewrite <- Hst in Hb.
  unfold Background_set.
  rewrite (bind_Ok (load p) _ w b w) by (unfold load; by rewrite Hb).
  destruct (decide (getter (data_ b) = v)) as [<-|Hne].
  - exists w. split; [done|].
    rewrite Hlaw, withData_same, Hf. by rewrite <- Hst, insert_id.
  - rewrite (bind_Ok (save p _) _ w tt _ eq_refl).
    unfold Background_changed.
    match goal with |- context [bind (load p) _ ?w1] =>
      rewrite (bind_Ok (load p) _ w1 (withData (upd v (data_ b)) b) w1)
        by (unfold load; simpl; by rewrite lookup_insert_eq);
      assert (pointsTo w1 p (withData (upd v (data_ b)) b)) as Hpt
        by (split; simpl; [done | by rewrite lookup_insert_eq]);
      assert (frame w1 = (Some p, false, true, d,
                <[p := withData (upd v (data_ b)) b]> st, u, ws)) as Hf1
        by (unfold frame; simpl; by rewrite Hp, Hg, He, Hbase, Hst, Hu, Hws);
      remember w1 as w2 eqn:Ew2; clear Ew2
    end.
    simpl. destruct (changedConnected b); simpl.
    + destruct (Hd _ _ _ Hpt) as (w' & E & Hf').
      exists w'. split; [done|]. rewrite Hf'.
      destruct (frame_fields _ _ _ _ _ _ _ _ Hf1)
        as (_ & _ & -> & -> & -> & -> & ->). done.
    + by exists w2.
Qed.

(** *** The two shapes of the editing slots *)

Lemma editOnly_run edit (w : World) p st' :
  background_ (widget w) = Some p ->
  isUpdatingFromBackground_ (widget w) = false ->
  (forall w1,
     frame w1 = (Some p, false, true, dataBeforeEditing_ (widget w),
                 store w, undo w, warnings w) ->
     exists w2, edit w1 = Ok tt w2 /\
       frame w2 = (Some p, false, true, dataBeforeEditing_ (widget w),
                   st', undo w, warnings w)) ->
  exists w',
    editOnly edit w = Ok tt w' /\
    frame w' = (Some p, false, false, dataBeforeEditing_ (widget w),
                st', undo w, warnings w).
Proof.
  intros Hp Hg Hedit. unfold editOnly.
  rewrite (bind_Ok get _ w w w eq_refl).
  unfold editable, bound. rewrite Hp, Hg. simpl.
  rewrite (bind_Ok (set_isBeingEdited_ true) _ w tt _ eq_refl).
  match goal with |- context [bind edit _ ?w1] =>
    destruct (Hedit w1) as (w2 & E & Hf2);
      [unfold frame; simpl; by rewrite Hp, Hg|]
  end.
  rewrite (bind_Ok edit _ _ tt w2 E).
  eexists. split; [reflexivity|].
  destruct (frame_fields _ _ _ _ _ _ _ _ Hf2) as (? & ? & ? & ? & ? & ? & ?).
  unfold frame. simpl. congruence.
Qed.

Lemma editAndCheckpoint_run edit (w : World) p st' b' :
  background_ (widget w) = Some p ->
  isUpdatingFromBackground_ (widget w) = false ->
  (forall w1,
     frame w1 = (Some p, false, true, dataBeforeEditing_ (widget w),
                 store w, undo w, warnings w) ->
     exists w2, edit w1 = Ok tt w2 /\
       frame w2 = (Some p, false, true, dataBeforeEditing_ (widget w),
                   st', undo w, warnings w)) ->
  st' !! p = Some b' ->
  exists w',
    editAndCheckpoint edit w = Ok tt w' /\
    frame w' = (Some p, false, false,
                (if decide (data_ b' = dataBeforeEditing_ (widget w))
                 then dataBeforeEditing_ (widget w) else data_ b'),
                st',
                (if decide (data_ b' = dataBeforeEditing_ (widget w))
                 then undo w else (p, data_ b') :: undo w),
                warnings w).
Proof.
  intros Hp Hg Hedit Hb'. unfold editAndCheckpoint.
  rewrite (bind_Ok get _ w w w eq_refl).
  unfold editable, bound. rewrite Hp, Hg. simpl.
  rewrite (bind_Ok (set_isBeingEdited_ true) _ w tt _ eq_refl).
  match goal with |- context [bind edit _ ?w1] =>
    destruct (Hedit w1) as (w2 & E & Hf2);
      [unfold frame; simpl; by rewrite Hp, Hg|]
  end.
  rewrite (bind_Ok edit _ _ tt w2 E).
  rewrite (bind_Ok (set_isBeingEdited_ false) _ w2 tt _ eq_refl).
  destruct (frame_fields _ _ _ _ _ _ _ _ Hf2)
    as (Hp2 & Hg2 & He2 & Hd2 & Hst2 & Hu2 & Hws2).
  match goal with |- context [emitCheckpoint_ ?w3] =>
    rewrite (emitCheckpoint_bound w3 p b')
      by (split; simpl; [done | by rewrite Hst2])
  end.
  eexists. split; [reflexivity|]. simpl.
  destruct (decide (data_ b' = dataBeforeEditing_ w2.(widget))) as [Heq|Hne];
    rewrite Hd2 in *.
  - destruct (decide _); [|done]. unfold frame. simpl. congruence.
  - destruct (decide _); [done|]. unfold frame. simpl. congruence.
Qed.

(** *** The slots on a bound widget *)

Lemma run_data_bound {B} (k : Data -> M B) (w : World) p b :
  background_ (widget w) = Some p -> store w !! p = Some b ->
  bind (viaBackground Background_data) k w = k (data_ b) w.
Proof.
  intros Hp Hb.
  unfold viaBackground, Background_data, bind, deref, load, ret.
  by rewrite Hp, Hb.
Qed.

Lemma viaBackground_bound {B} (f : ptr -> M B) (w : World) p :
  background_ (widget w) = Some p -> viaBackground f w = f p w.
Proof. intros Hp. unfold viaBackground, bind, deref. by rewrite Hp. Qed.

(** A setter reached through [background_->] in the middle of an edit. *)
Lemma viaBackground_set_run {A} `{!EqDecision A} deliver (getter : Data -> A) upd
    (w : World) p b v d st u ws :
  deliversUpdate deliver -> (forall x, upd (getter x) x = x) ->
  frame w = (Some p, false, true, d, st, u, ws) -> st !! p = Some b ->
  exists w',
    viaBackground (fun p => Background_set deliver getter upd p v) w = Ok tt w' /\
    frame w' = (Some p, false, true, d,
                <[p := withData (upd v (data_ b)) b]> st, u, ws).
Proof.
  intros Hd Hlaw Hf Hb.
  rewrite (viaBackground_bound _ w p)
    by (by destruct (frame_fields _ _ _ _ _ _ _ _ Hf)).
  by apply Background_set_run.
Qed.

Lemma upd_position_law (x : Data) : upd_position (position x) x = x.
Proof. by destruct x. Qed.
Lemma upd_size_law (x : Data) : upd_size_ (size_ x) x = x.
Proof. by destruct x. Qed.
Lemma upd_opacity_law (x : Data) : upd_opacity (opacity x) x = x.
Proof. by destruct x. Qed.
Lemma upd_imageUrl_law (x : Data) : upd_imageUrl (imageUrl x) x = x.
Proof. by destruct x. Qed.

(** A [valueChanged] slot of a spin box writes its value into the
    Background; the baseline and the undo entries stay as they are. *)
Lemma valueChanged_run deliver s (w : World) p b :
  deliversUpdate deliver -> isValueChanged s = true ->
  pointsTo w p b -> isUpdatingFromBackground_ (widget w) = false ->
  exists w',
    slot deliver s w = Ok tt w' /\
    frame w' = (Some p, false, false, dataBeforeEditing_ (widget w),
                <[p := withData (applyValueChanged s (data_ b)) b]> (store w),
                undo w, warnings w).
Proof.
  intros Hd Hs [Hp Hb] Hg.
  destruct s; try discriminate Hs; simpl;
    unfold processLeftSpinBoxValueChanged_, processTopSpinBoxValueChanged_,
      processWidthSpinBoxValueChanged_, processHeightSpinBoxValueChanged_,
      processOpacitySpinBoxValueChanged_;
    apply editOnly_run; try done; intros w1 Hf1;
    pose proof (frame_fields _ _ _ _ _ _ _ _ Hf1) as (Hp1 & _ & _ & _ & Hst1 & _);
    rewrite ?(run_data_bound _ w1 p b) by (by rewrite ?Hst1).
  - by apply (viaBackground_set_run deliver position upd_position);
      [| apply upd_position_law | |].
  - by apply (viaBackground_set_run deliver position upd_position);
      [| apply upd_position_law | |].
  - by apply (viaBackground_set_run deliver size_ upd_size_);
      [| apply upd_size_law | |].
  - by apply (viaBackground_set_run deliver size_ upd_size_);
      [| apply upd_size_law | |].
  - by apply (viaBackground_set_run deliver opacity upd_opacity);
      [| apply upd_opacity_law | |].
Qed.

(** The browse slot on a bound widget, whatever was selected: the warning
    box is shown if the check found a name to report, the url is written
    into the Background, and a checkpoint follows if the data left the
    baseline. *)
Lemma browse_run deliver selected (w : World) p b :
  deliversUpdate deliver ->
  pointsTo w p b -> isUpdatingFromBackground_ (widget w) = false ->
  let detected := detectWildcard (map relativeFilePath selected) in
  let d' := upd_imageUrl detected.1 (data_ b) in
  exists w',
    slot deliver (ImageBrowseButtonClicked selected) w = Ok tt w' /\
    frame w' = (Some p, false, false,
                (if decide (d' = dataBeforeEditing_ (widget w))
                 then dataBeforeEditing_ (widget w) else d'),
                <[p := withData d' b]> (store w),
                (if decide (d' = dataBeforeEditing_ (widget w))
                 then undo w else (p, d') :: undo w),
                match detected.2 with
                | Some x => x :: warnings w
                | None => warnings w
                end).
Proof.
  intros Hd [Hp Hb] Hg detected d'. simpl.
  unfold processImageBrowseButtonClicked_. fold detected.
  assert (exists w0,
            (forall k : unit -> M unit,
               bind (match detected.2 with Some x => warn x | None => ret tt end)
                    k w = k tt w0) /\
            widget w0 = widget w /\ store w0 = store w /\ undo w0 = undo w /\
            warnings w0 = match detected.2 with
                          | Some x => x :: warnings w
                          | None => warnings w
                          end) as (w0 & E & Hw & Hst & Hu & Hws).
  { destruct detected.2; eexists; (split; [intros k; reflexivity|]); done. }
  rewrite E.
  destruct (editAndCheckpoint_run
              (viaBackground (fun p => Background_setImageUrl deliver p detected.1))
              w0 p (<[p := withData d' b]> (store w0)) (withData d' b))
    as (w' & E' & Hf').
  - by rewrite Hw.
  - by rewrite Hw.
  - intros w1 Hf1.
    apply (viaBackground_set_run deliver imageUrl upd_imageUrl);
      [done | apply upd_imageUrl_law | done | by rewrite Hst].
  - by rewrite lookup_insert_eq.
  - exists w'. split; [done|]. rewrite Hf'. simpl.
    by rewrite Hw, Hst, Hu, Hws.
Qed.

(** The browse slot with two names or more selected: whether or not names
    are reported, the pattern becomes the url of the Background; the warning
    box lists the reported names. *)
Lemma browse_two_or_more_run deliver s0 s1 rest (w : World) p b :
  deliversUpdate deliver ->
  pointsTo w p b -> isUpdatingFromBackground_ (widget w) = false ->
  let filenames := map relativeFilePath (s0 :: s1 :: rest) in
  let pat := infer filenames (relativeFilePath s0) (relativeFilePath s1) in
  exists w',
    slot deliver (ImageBrowseButtonClicked (s0 :: s1 :: rest)) w = Ok tt w' /\
    store w' !! p = Some (withData (upd_imageUrl (patternUrl pat) (data_ b)) b) /\
    warnings w'
    = match reported pat filenames with
      | [] => warnings w
      | _ :: _ => {| warnedUrl := patternUrl pat;
                     warnedFiles := chop 1 (inconsistentFilenames pat filenames) |}
                  :: warnings w
      end.
Proof.
  intros Hd Hpt Hg filenames pat.
  destruct (browse_run deliver (s0 :: s1 :: rest) w p b Hd Hpt Hg)
    as (w' & E & Hf).
  exists w'. split; [done|].
  destruct (frame_fields _ _ _ _ _ _ _ _ Hf) as (_ & _ & _ & _ & Hst & _ & Hws).
  fold filenames in Hst, Hws.
  change filenames
    with (relativeFilePath s0 :: relativeFilePath s1 :: map relativeFilePath rest)
    in Hst, Hws.
  rewrite detectWildcard_two in Hst, Hws. simpl in Hst, Hws.
  split.
  - by rewrite Hst, lookup_insert_eq.
  - rewrite Hws. by destruct (reported _ _).
Qed.

(** *** Checkpoints *)

(** C1. On a bound Background, [emitCheckpoint_] records an undo entry only
    when the data differs from the baseline, and moves the baseline to the
    data; called again with nothing changed in between, it does nothing: the
    two calls together record at most one entry. *)
Theorem emitCheckpoint_twice_records_once (w : World) p b :
  pointsTo w p b ->
  exists w1,
    emitCheckpoint_ w = Ok tt w1 /\
    emitCheckpoint_ w1 = Ok tt w1 /\
    store w1 = store w /\
    undo w1 = (if decide (data_ b = dataBeforeEditing_ (widget w))
               then undo w else (p, data_ b) :: undo w) /\
    dataBeforeEditing_ (widget w1) = data_ b.
Proof.
  intros Hpt. rewrite (emitCheckpoint_bound w p b Hpt).
  destruct Hpt as [Hp Hb].
  destruct (decide (data_ b = dataBeforeEditing_ (widget w))) as [He|Hne].
  - exists w. rewrite (emitCheckpoint_bound w p b) by done.
    destruct (decide _); done.
  - exists (checkpointed p (data_ b) w).
    rewrite (emitCheckpoint_bound _ p b) by done.
    simpl. destruct (decide (data_ b = data_ b)); done.
Qed.

(** A batch of [valueChanged] events: the Background follows, no checkpoint
    is emitted and the baseline stays. *)
Lemma valueChanged_batch n evs (w : World) p b :
  pointsTo w p b -> isUpdatingFromBackground_ (widget w) = false ->
  Forall (fun s => isValueChanged s = true) evs ->
  exists w1,
    dispatchAll (S (S (S n))) evs w = Ok tt w1 /\
    frame w1 = (Some p, false, isBeingEdited_ (widget w1),
                dataBeforeEditing_ (widget w),
                store w1, undo w, warnings w) /\
    store w1 !! p
    = Some (withData (foldl (fun d s => applyValueChanged s d) (data_ b) evs) b).
Proof.
  intros Hpt Hg Hevs. revert w b Hpt Hg.
  induction Hevs as [|s evs Hs Hevs IH]; intros w b [Hp Hb] Hg.
  - exists w. split; [done|]. split.
    + unfold frame. by rewrite Hp, Hg.
    + simpl. by rewrite withData_same.
  - destruct (valueChanged_run (dispatch (S (S n))) s w p b)
      as (w1 & E1 & Hf1); try done; [apply dispatch_deliversUpdate|].
    destruct (frame_fields _ _ _ _ _ _ _ _ Hf1)
      as (Hp1 & Hg1 & He1 & Hd1 & Hst1 & Hu1 & Hws1).
    destruct (IH w1 (withData (applyValueChanged s (data_ b)) b))
      as (w2 & E2 & Hf2 & Hb2).
    + split; [done|]. by rewrite Hst1, lookup_insert_eq.
    + done.
    + exists w2. split; [|split].
      * change (dispatchAll (S (S (S n))) (s :: evs))
          with (bind (dispatch (S (S (S n))) s)
                     (fun _ => dispatchAll (S (S (S n))) evs)).
        by rewrite (bind_Ok _ _ w tt w1 E1).
      * rewrite Hf2. by rewrite Hd1, Hu1, Hws1.
      * by rewrite Hb2.
Qed.

(** C7. A batch of spin-box edits: every [valueChanged] event writes into the
    bound Background and emits no checkpoint; the [editingFinished] event that
    ends the batch emits one checkpoint if the data then differs from the
    baseline held when the batch started, and none otherwise. *)
Theorem spin_batch_single_checkpoint n evs fin (w : World) p b :
  pointsTo w p b -> isUpdatingFromBackground_ (widget w) = false ->
  Forall (fun s => isValueChanged s = true) evs ->
  isEditingFinished fin = true ->
  let d' := foldl (fun d s => applyValueChanged s d) (data_ b) evs in
  exists w1 w2,
    dispatchAll (S (S (S n))) evs w = Ok tt w1 /\
    undo w1 = undo w /\
    dataBeforeEditing_ (widget w1) = dataBeforeEditing_ (widget w) /\
    store w1 !! p = Some (withData d' b) /\
    dispatch (S (S (S n))) fin w1 = Ok tt w2 /\
    store w2 = store w1 /\
    undo w2 = (if decide (d' = dataBeforeEditing_ (widget w))
               then undo w else (p, d') :: undo w).
Proof.
  intros Hpt Hg Hevs Hfin d'.
  destruct (valueChanged_batch n evs w p b Hpt Hg Hevs) as (w1 & E1 & Hf1 & Hb1).
  destruct (frame_fields _ _ _ _ _ _ _ _ Hf1)
    as (Hp1 & Hg1 & _ & Hd1 & _ & Hu1 & Hws1).
  fold d' in Hb1.
  assert (dispatch (S (S (S n))) fin w1 = emitCheckpoint_ w1) as Efin
    by (by destruct fin).
  rewrite (emitCheckpoint_bound w1 p (withData d' b)) in Efin by done.
  exists w1. eexists.
  split; [exact E1|]. split; [exact Hu1|]. split; [exact Hd1|].
  split; [exact Hb1|]. split; [exact Efin|].
  simpl. rewrite Hd1.
  destruct (decide (d' = dataBeforeEditing_ (widget w))); simpl; [done|].
  by rewrite Hu1.
Qed.

(** C10. When the file dialog returns no file name, the browse slot still
    calls [setImageUrl] with the empty string: the url of the bound Background
    is cleared, and a checkpoint is emitted if the data then differs from the
    baseline, which, when the baseline is the data before the click, means
    that the url was not empty already. No warning box is shown. *)
Theorem browse_nothing_selected_clears_url n (w : World) p b :
  pointsTo w p b -> isUpdatingFromBackground_ (widget w) = false ->
  let d' := upd_imageUrl [] (data_ b) in
  exists w',
    dispatch (S (S (S n))) (ImageBrowseButtonClicked []) w = Ok tt w' /\
    store w' = <[p := withData d' b]> (store w) /\
    imageUrl d' = [] /\
    undo w' = (if decide (d' = dataBeforeEditing_ (widget w))
               then undo w else (p, d') :: undo w) /\
    (dataBeforeEditing_ (widget w) = data_ b ->
     undo w' = (if decide (imageUrl (data_ b) = [])
                then undo w else (p, d') :: undo w)) /\
    warnings w' = warnings w.
Proof.
  intros Hpt Hg d'.
  destruct (browse_run (dispatch (S (S n))) [] w p b) as (w' & E & Hf);
    try done; [apply dispatch_deliversUpdate|].
  exists w'. split; [done|].
  destruct (frame_fields _ _ _ _ _ _ _ _ Hf) as (_ & _ & _ & _ & Hst & Hu & Hws).
  simpl in Hst, Hu, Hws. fold d' in Hst, Hu.
  split; [done|]. split; [done|]. split; [done|]. split; [|done].
  intros Hbase. rewrite Hu, Hbase.
  destruct (decide (d' = data_ b)) as [Hd|Hd];
    destruct (decide (imageUrl (data_ b) = [])) as [Hi|Hi]; try done.
  - exfalso. apply Hi. by rewrite <- Hd.
  - exfalso. apply Hd. unfold d'. rewrite <- Hi. apply upd_imageUrl_law.
Qed.

(** *** No null dereference *)

Lemma boundSafe_bind {A B} (m : M A) (k : A -> M B) :
  boundSafe m -> (forall a, boundSafe (k a)) -> boundSafe (bind m k).
Proof.
  intros Hm Hk w Hw. unfold bind. specialize (Hm w Hw).
  destruct (m w) as [a w1|e]; [|done].
  assert (bound w1 = true) as Hw1 by (unfold bound in *; by rewrite Hm).
  specialize (Hk a w1 Hw1). destruct (k a w1); [congruence | done].
Qed.

Lemma boundSafe_ret {A} (a : A) : boundSafe (ret a : M A).
Proof. by intros w Hw. Qed.

Lemma boundSafe_get : boundSafe (get : M World).
Proof. by intros w Hw. Qed.

Lemma boundSafe_fail {A} : boundSafe (fail OutOfFuel : M A).
Proof. by intros w Hw. Qed.

Lemma boundSafe_deref : boundSafe (deref : M ptr).
Proof.
  intros w Hw. unfold deref, bound in *.
  destruct (background_ (widget w)) eqn:E; simpl; congruence.
Qed.

Lemma boundSafe_load p : boundSafe (load p : M Background).
Proof. intros w Hw. unfold load. by destruct (store w !! p). Qed.

Lemma boundSafe_with_store f : boundSafe (with_store f : M unit).
Proof. by intros w Hw. Qed.

Lemma boundSafe_save p b : boundSafe (save p b : M unit).
Proof. apply boundSafe_with_store. Qed.

Lemma boundSafe_warn x : boundSafe (warn x : M unit).
Proof. by intros w Hw. Qed.

Lemma boundSafe_with_controls f : boundSafe (with_controls f : M unit).
Proof. by intros w Hw. Qed.

Lemma boundSafe_set_isUpdatingFromBackground_ v :
  boundSafe (set_isUpdatingFromBackground_ v : M unit).
Proof. by intros w Hw. Qed.

Lemma boundSafe_set_isBeingEdited_ v : boundSafe (set_isBeingEdited_ v : M unit).
Proof. by intros w Hw. Qed.

Lemma boundSafe_set_dataBeforeEditing_ d :
  boundSafe (set_dataBeforeEditing_ d : M unit).
Proof. by intros w Hw. Qed.

Lemma boundSafe_when c (m : M unit) : boundSafe m -> boundSafe (when c m).
Proof. intros Hm. destruct c; [done | apply boundSafe_ret]. Qed.

Lemma boundSafe_if {A} (c : bool) (m1 m2 : M A) :
  boundSafe m1 -> boundSafe m2 -> boundSafe (if c then m1 else m2).
Proof. by destruct c. Qed.

Lemma boundSafe_if_dec {A} {P : Prop} (c : {P} + {~ P}) (m1 m2 : M A) :
  boundSafe m1 -> boundSafe m2 -> boundSafe (if c then m1 else m2).
Proof. by destruct c. Qed.

Lemma boundSafe_viaBackground {A} (f : ptr -> M A) :
  (forall p, boundSafe (f p)) -> boundSafe (viaBackground f).
Proof. intros Hf. apply boundSafe_bind; [apply boundSafe_deref | done]. Qed.

(** Breaks a slot into the steps above. *)
Ltac safe :=
  repeat first
    [ apply boundSafe_bind | apply boundSafe_ret | apply boundSafe_get
    | apply boundSafe_fail | apply boundSafe_deref | apply boundSafe_load
    | apply boundSafe_save | apply boundSafe_with_store | apply boundSafe_warn
    | apply boundSafe_with_controls
    | apply boundSafe_set_isUpdatingFromBackground_
    | apply boundSafe_set_isBeingEdited_
    | apply boundSafe_set_dataBeforeEditing_
    | apply boundSafe_when | apply boundSafe_if_dec | apply boundSafe_if
    | apply boundSafe_viaBackground
    | match goal with H : forall s, boundSafe (_ s) |- _ => apply H end
    | match goal with |- forall _, _ => intro end
    | assumption ].

Section Safety.
Context (deliver : Slot -> M unit).
Context (Hdeliver : forall s, boundSafe (deliver s)).

Lemma boundSafe_Background_set {A} `{!EqDecision A}
    (getter : Data -> A) upd p v :
  boundSafe (Background_set deliver getter upd p v).
Proof. unfold Background_set, Background_changed. safe. Qed.

Lemma boundSafe_emitCheckpoint_ : boundSafe (emitCheckpoint_ : M unit).
Proof.
  unfold emitCheckpoint_, Background_data, Background_emitCheckpoint. safe.
Qed.

Lemma boundSafe_setControl ctl show s :
  boundSafe (setControl emits deliver ctl show s).
Proof. unfold setControl. safe. Qed.

Lemma boundSafe_updateFromBackground_ :
  boundSafe (updateFromBackground_ emits toolkit deliver).
Proof.
  unfold updateFromBackground_, setColor, setText, setValue, setCurrentIndex,
    showSizeSpinBoxes, Background_data.
  safe.
Qed.

Lemma boundSafe_editAndCheckpoint (edit : M unit) :
  boundSafe edit -> boundSafe (editAndCheckpoint edit).
Proof.
  intros He. unfold editAndCheckpoint. safe.
Qed.

Lemma boundSafe_editOnly (edit : M unit) :
  boundSafe edit -> boundSafe (editOnly edit).
Proof. intros He. unfold editOnly. safe. Qed.

Lemma boundSafe_detected_warning (o : option Warning) :
  boundSafe (match o with Some x => warn x | None => ret tt end : M unit).
Proof. destruct o; safe. Qed.

Lemma boundSafe_slot s : boundSafe (slot deliver s).
Proof.
  destruct s; simpl;
    try apply boundSafe_emitCheckpoint_;
    try apply boundSafe_updateFromBackground_;
    try (apply boundSafe_editAndCheckpoint; solve [safe]);
    try (apply boundSafe_editOnly; solve [safe]).
  - unfold processImageBrowseButtonClicked_.
    apply boundSafe_bind; [apply boundSafe_detected_warning|]. intros _.
    apply boundSafe_editAndCheckpoint. safe.
  - unfold processImageRefreshButtonClicked_, Background_clearCache. safe.
Qed.

End Safety.

(** *** The unbound widget *)

Lemma slot_unbound deliver s (w : World) :
  background_ (widget w) = None ->
  exists w',
    slot deliver s w = Ok tt w' /\
    widget w' = widget w /\ store w' = store w /\ undo w' = undo w.
Proof.
  intros Hp. destruct (isGuardedSlot s) eqn:Hs.
  - rewrite slot_not_editable by (done || by apply editable_unbound).
    destruct s; try (by exists w).
    destruct (detectWildcard (map relativeFilePath selected)).2;
      eexists; split; done.
  - exists w. split; [|done].
    destruct s; try discriminate Hs; simpl;
      try (by apply emitCheckpoint_unbound).
    + unfold processImageRefreshButtonClicked_, bind, get, bound. by rewrite Hp.
    + unfold updateFromBackground_, bind, get, bound. by rewrite Hp.
Qed.

Lemma nullSafe_boundSafe {A} (m : M A) : nullSafe m -> boundSafe m.
Proof. intros H w _. apply H. Qed.

Lemma nullSafe_slot deliver s :
  (forall s', nullSafe (deliver s')) -> nullSafe (slot deliver s).
Proof.
  intros Hd w. destruct (bound w) eqn:Hb.
  - apply (boundSafe_slot deliver); [|done].
    intros s'. apply nullSafe_boundSafe, Hd.
  - assert (background_ (widget w) = None) as Hp
      by (unfold bound in Hb; by destruct (background_ (widget w))).
    destruct (slot_unbound deliver s w Hp) as (w' & -> & Hw & _).
    by rewrite Hw.
Qed.

Lemma nullSafe_dispatch n s : nullSafe (dispatch n s).
Proof.
  revert s. induction n as [|n IH]; intros s.
  - by intros w.
  - by apply nullSafe_slot.
Qed.

Lemma nullSafe_noNull {A} (m : M A) : nullSafe m -> noNull m.
Proof. intros H w E. specialize (H w). by rewrite E in H. Qed.

Lemma noNull_bind {A B} (m : M A) (k : A -> M B) :
  noNull m -> (forall a, noNull (k a)) -> noNull (bind m k).
Proof.
  intros Hm Hk w. unfold bind. specialize (Hm w).
  destruct (m w) as [a w1|e]; [apply Hk | congruence].
Qed.

Lemma noNull_Background_connect c p :
  noNull (Background_connect c p : M unit).
Proof.
  intros w. unfold Background_connect, bind, load.
  by destruct (store w !! p).
Qed.

(** [if (background_) background_->f(...)], followed by more code. *)
Lemma noNull_if_bound_then {B} (f : ptr -> M unit) (k : unit -> M B) :
  (forall p, noNull (f p)) -> (forall a, noNull (k a)) ->
  noNull (bind get (fun w : World => bind (when (bound w) (viaBackground f)) k)).
Proof.
  intros Hf Hk w. unfold bind at 1, get. unfold bound.
  destruct (background_ (widget w)) as [p|] eqn:Hp; simpl.
  - unfold bind. rewrite (viaBackground_bound f w p Hp).
    specialize (Hf p w). destruct (f p w); [apply Hk | congruence].
  - apply Hk.
Qed.

Lemma noNull_if_bound (f : ptr -> M unit) :
  (forall p, noNull (f p)) ->
  noNull (bind get (fun w : World => when (bound w) (viaBackground f))).
Proof.
  intros Hf w. unfold bind, get, bound.
  destruct (background_ (widget w)) as [p|] eqn:Hp; simpl; [|done].
  rewrite (viaBackground_bound f w p Hp). apply Hf.
Qed.

Lemma setBackground_noNull n background :
  noNull (setBackground emits toolkit (dispatch n) background).
Proof.
  unfold setBackground.
  apply noNull_if_bound_then; [apply noNull_Background_connect|]. intros _.
  apply noNull_bind; [by intros w|]. intros _.
  apply noNull_bind; [by intros w|]. intros w1.
  apply noNull_bind; [by intros w|]. intros _.
  apply noNull_bind.
  - apply nullSafe_noNull.
    change (updateFromBackground_ emits toolkit (dispatch n))
      with (slot (dispatch n) UpdateFromBackground).
    apply nullSafe_slot. intros s'. apply nullSafe_dispatch.
  - intros _. apply noNull_if_bound, noNull_Background_connect.
Qed.

(** C8. With no Background bound, every slot of the widget and
    [emitCheckpoint_] return without touching the Background objects, the
    undo entries or the widget's own state; and in no world at all does a slot
    or [setBackground] dereference a null [background_]. *)
Theorem unbound_widget_is_inert :
  (forall n s (w : World),
     background_ (widget w) = None ->
     exists w',
       dispatch (S n) s w = Ok tt w' /\
       widget w' = widget w /\ store w' = store w /\ undo w' = undo w) /\
  (forall w : World,
     background_ (widget w) = None -> emitCheckpoint_ w = Ok tt w) /\
  (forall n s (w : World), dispatch n s w <> Failed NullDereference) /\
  (forall n background (w : World),
     setBackground emits toolkit (dispatch n) background w <> Failed NullDereference).
Proof.
  split; [|split; [|split]].
  - intros n s w Hp.
    change (dispatch (S n) s) with (slot (dispatch n) s).
    by apply slot_unbound.
  - apply emitCheckpoint_unbound.
  - intros n s. apply nullSafe_noNull, nullSafe_dispatch.
  - intros n background. apply setBackground_noNull.
Qed.

(** *** The guard of [updateFromBackground_] *)

Lemma bind_Ok_inv {A B} (m : M A) (k : A -> M B) (w : World) b w' :
  bind m k w = Ok b w' -> exists a w1, m w = Ok a w1 /\ k a w1 = Ok b w'.
Proof.
  unfold bind. destruct (m w) as [a w1|e]; [|done]. intros H. by exists a, w1.
Qed.

(** Whatever the signals do, [updateFromBackground_] returns with the guard
    down when it found a Background, and changes nothing otherwise. *)
Lemma updateFromBackground_guard deliver (w w' : World) :
  updateFromBackground_ emits toolkit deliver w = Ok tt w' ->
  if bound w then isUpdatingFromBackground_ (widget w') = false else w' = w.
Proof.
  unfold updateFromBackground_. intros E.
  apply bind_Ok_inv in E as (w0 & w1 & [= <- <-] & E).
  destruct (bound w); [|by injection E as <-].
  repeat (apply bind_Ok_inv in E as (? & ? & _ & E); cbv beta in E).
  by injection E as <-.
Qed.

(** *** The guard is down between events *)

Lemma leavesGuardDown_bind {A B} (m : M A) (k : A -> M B) :
  leavesGuardDown m -> (forall a, leavesGuardDown (k a)) ->
  leavesGuardDown (bind m k).
Proof.
  intros Hm Hk w b w' Hg (a & w1 & E1 & E2)%bind_Ok_inv.
  eapply Hk; [|exact E2]. by eapply Hm.
Qed.


Lemma leavesGuardDown_ret {A} (a : A) : leavesGuardDown (ret a : M A).
Proof. by intros w x w' H [= <- <-]. Qed.

Lemma leavesGuardDown_get : leavesGuardDown (get : M World).
Proof. by intros w x w' H [= <- <-]. Qed.

Lemma leavesGuardDown_fail {A} e : leavesGuardDown (fail e : M A).
Proof. by intros w x w' H. Qed.

Lemma leavesGuardDown_deref : leavesGuardDown (deref : M ptr).
Proof.
  intros w x w' H. unfold deref.
  destruct (background_ (widget w)); [by intros [= <- <-] | done].
Qed.

Lemma leavesGuardDown_load p : leavesGuardDown (load p : M Background).
Proof.
  intros w x w' H. unfold load.
  destruct (store w !! p); [by intros [= <- <-] | done].
Qed.

Lemma leavesGuardDown_with_store f : leavesGuardDown (with_store f : M unit).
Proof. intros w x w' H E. inversion E; subst. exact H. Qed.

Lemma leavesGuardDown_warn x : leavesGuardDown (warn x : M unit).
Proof. intros w a w' H E. inversion E; subst. exact H. Qed.

Lemma leavesGuardDown_with_controls f :
  leavesGuardDown (with_controls f : M unit).
Proof. intros w x w' H E. inversion E; subst. exact H. Qed.

Lemma leavesGuardDown_set_isBeingEdited_ v :
  leavesGuardDown (set_isBeingEdited_ v : M unit).
Proof. intros w x w' H E. inversion E; subst. exact H. Qed.

Lemma leavesGuardDown_set_dataBeforeEditing_ d :
  leavesGuardDown (set_dataBeforeEditing_ d : M unit).
Proof. intros w x w' H E. inversion E; subst. exact H. Qed.

Lemma leavesGuardDown_set_background_ p :
  leavesGuardDown (set_background_ p : M unit).
Proof. intros w x w' H E. inversion E; subst. exact H. Qed.

Lemma leavesGuardDown_when c (m : M unit) :
  leavesGuardDown m -> leavesGuardDown (when c m).
Proof. intros Hm. destruct c; [done | apply leavesGuardDown_ret]. Qed.

Lemma leavesGuardDown_if {A} (c : bool) (m1 m2 : M A) :
  leavesGuardDown m1 -> leavesGuardDown m2 ->
  leavesGuardDown (if c then m1 else m2).
Proof. by destruct c. Qed.

Lemma leavesGuardDown_if_dec {A} {P : Prop} (c : {P} + {~ P}) (m1 m2 : M A) :
  leavesGuardDown m1 -> leavesGuardDown m2 ->
  leavesGuardDown (if c then m1 else m2).
Proof. by destruct c. Qed.

Lemma leavesGuardDown_updateFromBackground_ deliver :
  leavesGuardDown (updateFromBackground_ emits toolkit deliver).
Proof.
  intros w [] w' Hg E. apply updateFromBackground_guard in E.
  destruct (bound w); [done | by subst].
Qed.

(** Breaks a slot into steps that leave the guard down. *)
Ltac guard_down :=
  repeat first
    [ apply leavesGuardDown_updateFromBackground_
    | apply leavesGuardDown_bind | apply leavesGuardDown_ret
    | apply leavesGuardDown_get | apply leavesGuardDown_fail
    | apply leavesGuardDown_deref | apply leavesGuardDown_load
    | apply leavesGuardDown_with_store | apply leavesGuardDown_warn
    | apply leavesGuardDown_with_controls
    | apply leavesGuardDown_set_isBeingEdited_
    | apply leavesGuardDown_set_dataBeforeEditing_
    | apply leavesGuardDown_set_background_
    | apply leavesGuardDown_when | apply leavesGuardDown_if_dec
    | apply leavesGuardDown_if
    | match goal with H : forall s, leavesGuardDown (_ s) |- _ => apply H end
    | match goal with |- forall _, _ => intro end
    | assumption ].



Lemma leavesGuardDown_setBackground n background :
  leavesGuardDown (setBackground emits toolkit (dispatch n) background).
Proof.
  unfold setBackground, viaBackground, Background_connect, save. guard_down.
Qed.


(** *** Every slot on a bound widget *)

Lemma upd_color_law (x : Data) : upd_color (color x) x = x.
Proof. by destruct x. Qed.
Lemma upd_sizeType_law (x : Data) : upd_sizeType (sizeType x) x = x.
Proof. by destruct x. Qed.
Lemma upd_repeatType_law (x : Data) : upd_repeatType (repeatType x) x = x.
Proof. by destruct x. Qed.
Lemma upd_hold_law (x : Data) : upd_hold (hold x) x = x.
Proof. by destruct x. Qed.

(** [editAndCheckpoint_run] for an edit that reads the controls. *)
Lemma editAndCheckpoint_run_controls edit (w : World) p st' b' :
  background_ (widget w) = Some p ->
  isUpdatingFromBackground_ (widget w) = false ->
  (forall w1,
     frame w1 = (Some p, false, true, dataBeforeEditing_ (widget w),
                 store w, undo w, warnings w) ->
     controls (widget w1) = controls (widget w) ->
     exists w2, edit w1 = Ok tt w2 /\
       frame w2 = (Some p, false, true, dataBeforeEditing_ (widget w),
                   st', undo w, warnings w)) ->
  st' !! p = Some b' ->
  exists w',
    editAndCheckpoint edit w = Ok tt w' /\
    frame w' = (Some p, false, false,
                (if decide (data_ b' = dataBeforeEditing_ (widget w))
                 then dataBeforeEditing_ (widget w) else data_ b'),
                st',
                (if decide (data_ b' = dataBeforeEditing_ (widget w))
                 then undo w else (p, data_ b') :: undo w),
                warnings w).
Proof.
  intros Hp Hg Hedit Hb'. unfold editAndCheckpoint.
  rewrite (bind_Ok get _ w w w eq_refl).
  unfold editable, bound. rewrite Hp, Hg. simpl.
  rewrite (bind_Ok (set_isBeingEdited_ true) _ w tt _ eq_refl).
  match goal with |- context [bind edit _ ?w1] =>
    destruct (Hedit w1) as (w2 & E & Hf2);
      [unfold frame; simpl; by rewrite Hp, Hg | done |]
  end.
  rewrite (bind_Ok edit _ _ tt w2 E).
  rewrite (bind_Ok (set_isBeingEdited_ false) _ w2 tt _ eq_refl).
  destruct (frame_fields _ _ _ _ _ _ _ _ Hf2)
    as (Hp2 & Hg2 & He2 & Hd2 & Hst2 & Hu2 & Hws2).
  match goal with |- context [emitCheckpoint_ ?w3] =>
    rewrite (emitCheckpoint_bound w3 p b')
      by (split; simpl; [done | by rewrite Hst2])
  end.
  eexists. split; [reflexivity|]. simpl.
  destruct (decide (data_ b' = dataBeforeEditing_ w2.(widget))) as [Heq|Hne];
    rewrite Hd2 in *.
  - destruct (decide _); [|done]. unfold frame. simpl. congruence.
  - destruct (decide _); [done|]. unfold frame. simpl. congruence.
Qed.

(** A slot that edits one property and checkpoints at once: the property is
    written, and one undo entry is recorded if the data has left the
    baseline. *)
Lemma checkpointedEdit_run deliver s (w : World) p b :
  deliversUpdate deliver -> isCheckpointedEdit s = true ->
  pointsTo w p b -> isUpdatingFromBackground_ (widget w) = false ->
  let d' := applyCheckpointedEdit relativeFilePath s w (data_ b) in
  exists w',
    slot deliver s w = Ok tt w' /\
    frame w' = (Some p, false, false,
                (if decide (d' = dataBeforeEditing_ (widget w))
                 then dataBeforeEditing_ (widget w) else d'),
                <[p := withData d' b]> (store w),
                (if decide (d' = dataBeforeEditing_ (widget w))
                 then undo w else (p, d') :: undo w),
                match s with
                | ImageBrowseButtonClicked l =>
                    match (detectWildcard (map relativeFilePath l)).2 with
                    | Some x => x :: warnings w
                    | None => warnings w
                    end
                | _ => warnings w
                end).
Proof.
  intros Hd Hs [Hp Hb] Hg d'.
  destruct s; try discriminate Hs;
    try (by apply browse_run); simpl;
    unfold processColorSelectorColorChanged_, processImageLineEditEditingFinished_,
      processSizeComboBoxCurrentIndexChanged_,
      processRepeatComboBoxCurrentIndexChanged_, processHoldCheckBoxToggled_;
    apply (editAndCheckpoint_run_controls _ w p _ (withData d' b));
    try done; try (by rewrite lookup_insert_eq); intros w1 Hf1 Hc1.
  - by apply (viaBackground_set_run deliver color upd_color);
      [| apply upd_color_law | |].
  - rewrite (bind_Ok get _ w1 w1 w1 eq_refl). rewrite Hc1.
    by apply (viaBackground_set_run deliver imageUrl upd_imageUrl);
      [| apply upd_imageUrl_law | |].
  - by apply (viaBackground_set_run deliver sizeType upd_sizeType);
      [| apply upd_sizeType_law | |].
  - by apply (viaBackground_set_run deliver repeatType upd_repeatType);
      [| apply upd_repeatType_law | |].
  - by apply (viaBackground_set_run deliver hold upd_hold);
      [| apply upd_hold_law | |].
Qed.

(** The refresh button clears the cache of the bound Background and does
    nothing else. *)
Lemma refresh_run deliver (w : World) p b :
  pointsTo w p b ->
  exists w',
    slot deliver ImageRefreshButtonClicked w = Ok tt w' /\
    widget w' = widget w /\ undo w' = undo w /\ warnings w' = warnings w /\
    store w' = <[p := {| data_ := data_ b;
                         changedConnected := changedConnected b;
                         cacheClears := S (cacheClears b) |}]> (store w).
Proof.
  intros [Hp Hb]. simpl.
  unfold processImageRefreshButtonClicked_, viaBackground, Background_clearCache,
    save, with_store, when, bound, bind, get, deref, load.
  rewrite Hp. cbn. rewrite Hp. cbn. rewrite Hb.
  eexists. split; [reflexivity | done].
Qed.

(** The kinds of slots. *)
Lemma slot_kinds (s : Slot) :
  isValueChanged s = true \/ isCheckpointedEdit s = true \/
  isEditingFinished s = true \/ s = ImageRefreshButtonClicked \/
  s = UpdateFromBackground.
Proof. destruct s; simpl; tauto. Qed.

Lemma event_on_bound_widget_aux n s (w : World) p b :
  pointsTo w p b -> isUpdatingFromBackground_ (widget w) = false ->
  exists w' b',
    dispatch (S (S (S n))) s w = Ok tt w' /\
    background_ (widget w') = Some p /\
    isUpdatingFromBackground_ (widget w') = false /\
    (isBeingEdited_ (widget w) = false -> isBeingEdited_ (widget w') = false) /\
    store w' = <[p := b']> (store w) /\
    changedConnected b' = changedConnected b /\
    (undo w' = undo w \/ undo w' = (p, data_ b') :: undo w) /\
    (dataBeforeEditing_ (widget w') = dataBeforeEditing_ (widget w) \/
     dataBeforeEditing_ (widget w') = data_ b').
Proof.
  intros Hpt Hg. pose proof Hpt as [Hp Hb].
  change (dispatch (S (S (S n))) s) with (slot (dispatch (S (S n))) s).
  destruct (slot_kinds s) as [Hs | [Hs | [Hs | [-> | ->]]]].
  - destruct (valueChanged_run (dispatch (S (S n))) s w p b) as (w' & E & Hf);
      try done; [apply dispatch_deliversUpdate|].
    destruct (frame_fields _ _ _ _ _ _ _ _ Hf) as (? & ? & ? & ? & ? & ? & ?).
    exists w', (withData (applyValueChanged s (data_ b)) b).
    repeat (split; [done|]). split; [by left | by left].
  - destruct (checkpointedEdit_run (dispatch (S (S n))) s w p b) as (w' & E & Hf);
      try done; [apply dispatch_deliversUpdate|].
    destruct (frame_fields _ _ _ _ _ _ _ _ Hf) as (? & ? & ? & Hd & ? & Hu & ?).
    eexists w', _. repeat (split; [done|]).
    destruct (decide _); simpl; split; auto.
  - assert (slot (dispatch (S (S n))) s w = emitCheckpoint_ w) as ->
      by (by destruct s).
    rewrite (emitCheckpoint_bound w p b Hpt).
    destruct (decide (data_ b = dataBeforeEditing_ (widget w))).
    + exists w, b. rewrite insert_id by done. repeat (split; [done|]).
      split; by left.
    + exists (checkpointed p (data_ b) w), b. simpl. rewrite insert_id by done.
      repeat (split; [done|]). split; by right.
  - destruct (refresh_run (dispatch (S (S n))) w p b Hpt)
      as (w' & E & Hw & Hu & _ & Hst).
    eexists w', _. split; [exact E|]. rewrite Hw.
    repeat (split; [done|]). split; by left.
  - destruct (dispatch_update (S n) w p b Hpt) as (w' & E & Hf).
    destruct (frame_fields _ _ _ _ _ _ _ _ Hf) as (? & ? & He & Hd & Hst & ? & ?).
    exists w', b. rewrite insert_id by done.
    split; [exact E|]. split; [done|]. split; [done|].
    split; [congruence|]. split; [done|]. split; [done|]. split; [by left|].
    rewrite Hd. destruct (isBeingEdited_ (widget w)); [by left | by right].
Qed.

(** Any event on a widget bound to a live Background, the guard being down:
    three levels of nested slots are enough for the slot to return; the widget
    stays bound to the same Background with the guard down; only that
    Background is written and it stays connected as it was; at most one undo
    entry is recorded, a snapshot of the Background's new data; and the
    baseline is either kept or moved to that data. *)
Theorem event_on_bound_widget n s (w : World) p b :
  pointsTo w p b -> isUpdatingFromBackground_ (widget w) = false ->
  exists w' b',
    dispatch (S (S (S n))) s w = Ok tt w' /\
    background_ (widget w') = Some p /\
    isUpdatingFromBackground_ (widget w') = false /\
    (isBeingEdited_ (widget w) = false -> isBeingEdited_ (widget w') = false) /\
    store w' = <[p := b']> (store w) /\
    changedConnected b' = changedConnected b /\
    (undo w' = undo w \/ undo w' = (p, data_ b') :: undo w) /\
    (dataBeforeEditing_ (widget w') = dataBeforeEditing_ (widget w) \/
     dataBeforeEditing_ (widget w') = data_ b').
Proof. apply event_on_bound_widget_aux. Qed.

(** An edit with an immediate checkpoint (color, url from the line edit or
    the file dialog, size type, repeat type, hold), on a widget whose
    baseline is the data of its Background: the property is written, the
    baseline follows, and exactly one undo entry is recorded if the edit
    changed the data, none if it did not. *)
Theorem checkpointed_edit_records_change n s (w : World) p b :
  pointsTo w p b -> isUpdatingFromBackground_ (widget w) = false ->
  isCheckpointedEdit s = true ->
  dataBeforeEditing_ (widget w) = data_ b ->
  let d' := applyCheckpointedEdit relativeFilePath s w (data_ b) in
  exists w',
    dispatch (S (S (S n))) s w = Ok tt w' /\
    store w' = <[p := withData d' b]> (store w) /\
    dataBeforeEditing_ (widget w') = d' /\
    undo w' = (if decide (d' = data_ b) then undo w else (p, d') :: undo w).
Proof.
  intros Hpt Hg Hs Hbase d'.
  change (dispatch (S (S (S n))) s) with (slot (dispatch (S (S n))) s).
  destruct (checkpointedEdit_run (dispatch (S (S n))) s w p b) as (w' & E & Hf);
    try done; [apply dispatch_deliversUpdate|].
  destruct (frame_fields _ _ _ _ _ _ _ _ Hf) as (_ & _ & _ & Hd & Hst & Hu & _).
  fold d' in Hd, Hst, Hu. rewrite Hbase in Hd, Hu.
  exists w'. split; [done|]. split; [done|]. split; [|done].
  rewrite Hd. by destruct (decide (d' = data_ b)).
Qed.

(** After an edit with an immediate checkpoint, and after the
    [editingFinished] of a spin box, the baseline is the data of the
    Background, whatever it was before. *)
Theorem checkpoint_resyncs_baseline n s (w : World) p b :
  pointsTo w p b -> isUpdatingFromBackground_ (widget w) = false ->
  isCheckpointedEdit s || isEditingFinished s = true ->
  exists w' b',
    dispatch (S (S (S n))) s w = Ok tt w' /\
    store w' !! p = Some b' /\
    dataBeforeEditing_ (widget w') = data_ b'.
Proof.
  intros Hpt Hg Hs. pose proof Hpt as [Hp Hb].
  change (dispatch (S (S (S n))) s) with (slot (dispatch (S (S n))) s).
  apply orb_true_iff in Hs as [Hs|Hs].
  - destruct (checkpointedEdit_run (dispatch (S (S n))) s w p b) as (w' & E & Hf);
      try done; [apply dispatch_deliversUpdate|].
    destruct (frame_fields _ _ _ _ _ _ _ _ Hf) as (_ & _ & _ & Hd & Hst & _ & _).
    eexists w', _. split; [done|]. rewrite Hst, lookup_insert_eq.
    split; [done|]. rewrite Hd. simpl. by destruct (decide _).
  - assert (slot (dispatch (S (S n))) s w = emitCheckpoint_ w) as ->
      by (by destruct s).
    rewrite (emitCheckpoint_bound w p b Hpt).
    destruct (decide (data_ b = dataBeforeEditing_ (widget w))).
    + by exists w, b.
    + by exists (checkpointed p (data_ b) w), b.
Qed.

(** *** [updateFromBackground_], exactly *)

Lemma run_setControl_exact {B} deliver ctl show s (k : unit -> M B) (w : World) :
  quietUnderGuard deliver -> isChangeSlot s = true ->
  isUpdatingFromBackground_ (widget w) = true ->
  bind (setControl emits deliver ctl show s) k w = k tt (shows show w).
Proof.
  intros Hq Hs Hg.
  unfold setControl, bind, get, with_controls, with_widget, when.
  destruct (emits ctl w); [|done].
  by rewrite Hq.
Qed.

Lemma run_showSizeSpinBoxes_exact {B} t (k : unit -> M B) (w : World) :
  bind (showSizeSpinBoxes t) k w
  = k tt (if t =? Cover
          then shows (show_heightSpinBoxShown false)
                     (shows (show_widthSpinBoxShown false) w)
          else if t =? Manual
               then shows (show_heightSpinBoxShown true)
                          (shows (show_widthSpinBoxShown true) w)
               else w).
Proof.
  unfold showSizeSpinBoxes.
  destruct (t =? Cover); [done|]. by destruct (t =? Manual).
Qed.

Lemma run_update_tail (w : World) p b :
  background_ (widget w) = Some p -> store w !! p = Some b ->
  bind get (fun w0 : World =>
    bind (when (negb (isBeingEdited_ (widget w0)))
            (bind (viaBackground Background_data)
                  (fun d => set_dataBeforeEditing_ d)))
         (fun _ => set_isUpdatingFromBackground_ false)) w
  = Ok tt
      {| widget :=
           {| background_ := background_ (widget w);
              isUpdatingFromBackground_ := false;
              isBeingEdited_ := isBeingEdited_ (widget w);
              dataBeforeEditing_ :=
                if isBeingEdited_ (widget w)
                then dataBeforeEditing_ (widget w) else data_ b;
              controls := controls (widget w) |};
         store := store w; undo := undo w; warnings := warnings w |}.
Proof.
  intros Hp Hb. rewrite (bind_Ok get _ w w w eq_refl).
  destruct (isBeingEdited_ (widget w)) eqn:E; cbn [negb when].
  - unfold bind, ret, set_isUpdatingFromBackground_, with_widget. simpl.
    by rewrite E.
  - rewrite (bind_Ok _ _ w tt
               {| widget :=
                    {| background_ := background_ (widget w);
                       isUpdatingFromBackground_ :=
                         isUpdatingFromBackground_ (widget w);
                       isBeingEdited_ := isBeingEdited_ (widget w);
                       dataBeforeEditing_ := data_ b;
                       controls := controls (widget w) |};
                  store := store w; undo := undo w; warnings := warnings w |}).
    + unfold set_isUpdatingFromBackground_, with_widget. simpl. by rewrite E.
    + by rewrite (run_data_bound _ w p b).
Qed.

(** On a bound widget, with signals that guarded slots ignore,
    [updateFromBackground_] returns exactly the refreshed world. *)
Lemma updateFromBackground_exact deliver (w : World) p b :
  quietUnderGuard deliver -> pointsTo w p b ->
  updateFromBackground_ emits toolkit deliver w = Ok tt (refreshed b w).
Proof.
  intros Hq [Hp Hb].
  destruct (sizeType (data_ b) =? Cover) eqn:E1;
    [|destruct (sizeType (data_ b) =? Manual) eqn:E2];
    unfold updateFromBackground_, setColor, setText, setValue,
      setCurrentIndex;
    rewrite (bind_Ok get _ _ _ _ eq_refl); unfold bound; rewrite Hp;
    rewrite (bind_Ok (set_isUpdatingFromBackground_ true) _ _ tt _ eq_refl);
    repeat first
      [ rewrite (run_data_bound _ _ p b) by done
      | rewrite run_setControl_exact by done
      | rewrite (bind_Ok (with_controls _) _ _ tt (shows _ _) eq_refl)
      | rewrite run_showSizeSpinBoxes_exact, ?E1, ?E2
      | progress cbv beta ];
    rewrite (run_update_tail _ p b) by done;
    unfold refreshed, refreshControls, showSize; rewrite ?E1, ?E2;
    reflexivity.
Qed.

Lemma refreshControls_rendered (d : Data) (c : Controls) :
  rendered (refreshControls d c) d /\
  childrenEnabled (refreshControls d c) = childrenEnabled c.
Proof.
  unfold rendered, refreshControls, showSize.
  destruct (Z.eqb_spec (sizeType d) Cover) as [E1|E1];
    [|destruct (Z.eqb_spec (sizeType d) Manual) as [E2|E2]];
    simpl; repeat split; try reflexivity;
    exfalso; unfold Cover, Manual in *; congruence.
Qed.

Lemma Controls_ext (c1 c2 : Controls) :
  colorSelector_ c1 = colorSelector_ c2 -> imageLineEdit_ c1 = imageLineEdit_ c2 ->
  leftSpinBox_ c1 = leftSpinBox_ c2 -> topSpinBox_ c1 = topSpinBox_ c2 ->
  sizeComboBox_ c1 = sizeComboBox_ c2 ->
  widthSpinBox_ c1 = widthSpinBox_ c2 -> heightSpinBox_ c1 = heightSpinBox_ c2 ->
  widthSpinBoxShown c1 = widthSpinBoxShown c2 ->
  heightSpinBoxShown c1 = heightSpinBoxShown c2 ->
  repeatComboBox_ c1 = repeatComboBox_ c2 ->
  opacitySpinBox_ c1 = opacitySpinBox_ c2 ->
  holdCheckBox_ c1 = holdCheckBox_ c2 ->
  childrenEnabled c1 = childrenEnabled c2 ->
  c1 = c2.
Proof. destruct c1, c2. simpl. intros. subst. reflexivity. Qed.

(** Data that the controls can hold as it is, is shown as it is. *)
Lemma rendered_displayable (c : Controls) (d : Data) :
  displayable d -> rendered c d -> mirrors c d.
Proof.
  intros (D1 & D2 & D3 & D4 & D5 & D6 & D7 & D8 & D9)
         (R1 & R2 & R3 & R4 & R5 & R6 & R7 & R8 & R9 & R10 & R11 & R12).
  unfold mirrors.
  rewrite R1, R2, R3, R4, R5, R6, R7, R8, R9, D1, D2, D3, D4, D5, D6, D7, D8, D9.
  done.
Qed.

Lemma refreshControls_fields (d : Data) (c : Controls) :
  let r := refreshControls d c in
  colorSelector_ r = shownColor toolkit (color d) /\
  imageLineEdit_ r = shownText toolkit (imageUrl d) /\
  leftSpinBox_ r = shownValue toolkit LeftSpinBox (position d).1 /\
  topSpinBox_ r = shownValue toolkit TopSpinBox (position d).2 /\
  sizeComboBox_ r = shownIndex toolkit SizeComboBox (sizeType d) /\
  widthSpinBox_ r = shownValue toolkit WidthSpinBox (size_ d).1 /\
  heightSpinBox_ r = shownValue toolkit HeightSpinBox (size_ d).2 /\
  widthSpinBoxShown r
  = (if sizeType d =? Cover then false
     else if sizeType d =? Manual then true else widthSpinBoxShown c) /\
  heightSpinBoxShown r
  = (if sizeType d =? Cover then false
     else if sizeType d =? Manual then true else heightSpinBoxShown c) /\
  repeatComboBox_ r = shownIndex toolkit RepeatComboBox (repeatType d) /\
  opacitySpinBox_ r = shownValue toolkit OpacitySpinBox (opacity d) /\
  holdCheckBox_ r = hold d /\ childrenEnabled r = childrenEnabled c.
Proof.
  unfold refreshControls, showSize.
  destruct (sizeType d =? Cover); [|destruct (sizeType d =? Manual)];
    simpl; repeat split; reflexivity.
Qed.

Lemma refreshControls_refreshControls (d : Data) (c : Controls) :
  refreshControls d (refreshControls d c) = refreshControls d c.
Proof.
  destruct (refreshControls_fields d (refreshControls d c))
    as (A1 & A2 & A3 & A4 & A5 & A6 & A7 & A8 & A9 & A10 & A11 & A12 & A13).
  destruct (refreshControls_fields d c)
    as (B1 & B2 & B3 & B4 & B5 & B6 & B7 & B8 & B9 & B10 & B11 & B12 & B13).
  apply Controls_ext; try congruence.
  - rewrite A8, B8.
    destruct (sizeType d =? Cover); [|destruct (sizeType d =? Manual)]; done.
  - rewrite A9, B9.
    destruct (sizeType d =? Cover); [|destruct (sizeType d =? Manual)]; done.
Qed.

Lemma refreshed_refreshed (b : Background) (w : World) :
  refreshed b (refreshed b w) = refreshed b w.
Proof.
  unfold refreshed at 1.
  cbn [refreshed widget store undo warnings background_ isBeingEdited_
       dataBeforeEditing_ controls].
  rewrite refreshControls_refreshControls.
  unfold refreshed. by destruct (isBeingEdited_ (widget w)).
Qed.

(** After [updateFromBackground_] every control holds what its setter makes
    of the bound Background's value for it (a spin box the value rounded and
    bounded, a combo box the index of an item), whatever the controls held
    before and whatever signals they emit on the way, and the size spin boxes
    are hidden for [Cover] and shown for [Manual]. So the controls show the
    data itself when the controls can hold it as it is, and only then need
    they. The children stay enabled or disabled as they were, and the
    Background objects are as before. *)
Theorem update_makes_controls_mirror n (w : World) p b :
  pointsTo w p b ->
  exists w',
    dispatch (S (S n)) UpdateFromBackground w = Ok tt w' /\
    rendered (controls (widget w')) (data_ b) /\
    (displayable (data_ b) -> mirrors (controls (widget w')) (data_ b)) /\
    childrenEnabled (controls (widget w')) = childrenEnabled (controls (widget w)) /\
    store w' = store w.
Proof.
  intros Hpt. exists (refreshed b w). split.
  - change (dispatch (S (S n)) UpdateFromBackground)
      with (updateFromBackground_ emits toolkit (dispatch (S n))).
    apply (updateFromBackground_exact _ w p b); [apply dispatch_quiet | done].
  - unfold Widget.refreshed. cbn [widget controls store].
    destruct (refreshControls_rendered (data_ b) (controls (widget w)))
      as [Hr He].
    split; [done|]. split; [|done].
    intros Hd. by apply rendered_displayable.
Qed.

(** Running [updateFromBackground_] again right away changes nothing. *)
Theorem update_twice_is_update_once n (w : World) p b :
  pointsTo w p b ->
  exists w',
    dispatch (S (S n)) UpdateFromBackground w = Ok tt w' /\
    dispatch (S (S n)) UpdateFromBackground w' = Ok tt w'.
Proof.
  intros Hpt. exists (refreshed b w).
  change (dispatch (S (S n)) UpdateFromBackground)
    with (updateFromBackground_ emits toolkit (dispatch (S n))).
  rewrite (updateFromBackground_exact _ w p b) by (apply dispatch_quiet || done).
  split; [done|].
  rewrite (updateFromBackground_exact _ (refreshed b w) p b)
    by (apply dispatch_quiet || done).
  by rewrite refreshed_refreshed.
Qed.

(** *** [setBackground] *)

Lemma disconnectOld_lookup (w : World) q :
  disconnectOld w !! q
  = if decide (background_ (widget w) = Some q)
    then withConnected false <$> store w !! q else store w !! q.
Proof.
  unfold disconnectOld.
  destruct (background_ (widget w)) as [q0|]; [|by destruct (decide _)].
  destruct (decide (Some q0 = Some q)) as [[= ->]|Hne].
  - destruct (store w !! q) eqn:E; [by rewrite lookup_insert_eq | by rewrite E].
  - destruct (store w !! q0); [|done].
    rewrite lookup_insert_ne; [done | congruence].
Qed.

(** The first statement of [setBackground]: the old connection is cut. *)
Lemma run_disconnect_old {B} (k : unit -> M B) (w : World) :
  boundIsLive w ->
  bind get (fun w0 : World =>
    bind (when (bound w0) (viaBackground (Background_connect false))) k) w
  = k tt {| widget := widget w; store := disconnectOld w;
            undo := undo w; warnings := warnings w |}.
Proof.
  intros Hlive. rewrite (bind_Ok get _ w w w eq_refl).
  unfold bound, disconnectOld.
  destruct (background_ (widget w)) as [q|] eqn:Hq; cbn [when].
  - destruct (Hlive q Hq) as [bq Hbq]. rewrite Hbq.
    rewrite (bind_Ok _ k w tt
               {| widget := widget w;
                  store := <[q := withConnected false bq]> (store w);
                  undo := undo w; warnings := warnings w |}); [done|].
    rewrite (viaBackground_bound _ w q Hq).
    unfold Background_connect, save, with_store, bind, load. by rewrite Hbq.
  - rewrite (bind_Ok (ret tt) k w tt w eq_refl). by destruct w.
Qed.

Lemma setBackground_some_aux n (w : World) p b :
  store w !! p = Some b -> boundIsLive w ->
  exists w',
    setBackground emits toolkit (dispatch (S n)) (Some p) w = Ok tt w' /\
    background_ (widget w') = Some p /\
    isUpdatingFromBackground_ (widget w') = false /\
    isBeingEdited_ (widget w') = isBeingEdited_ (widget w) /\
    store w' !! p = Some (withConnected true b) /\
    (forall q, q <> p ->
       store w' !! q
       = if decide (background_ (widget w) = Some q)
         then withConnected false <$> store w !! q else store w !! q) /\
    rendered (controls (widget w')) (data_ b) /\
    (displayable (data_ b) -> mirrors (controls (widget w')) (data_ b)) /\
    childrenEnabled (controls (widget w')) = true /\
    undo w' = undo w /\
    dataBeforeEditing_ (widget w')
    = (if isBeingEdited_ (widget w)
       then dataBeforeEditing_ (widget w) else data_ b).
Proof.
  intros Hb Hlive. unfold setBackground.
  rewrite run_disconnect_old by done.
  rewrite (bind_Ok (set_background_ (Some p)) _ _ tt _ eq_refl).
  rewrite (bind_Ok get _ _ _ _ eq_refl). unfold bound at 1.
  cbn [widget store undo warnings background_ isUpdatingFromBackground_
       isBeingEdited_ dataBeforeEditing_ controls].
  rewrite (bind_Ok (with_controls _) _ _ tt (shows _ _) eq_refl).
  assert (exists b1, disconnectOld w !! p = Some b1 /\ data_ b1 = data_ b /\
                     withConnected true b1 = withConnected true b)
    as (b1 & Hb1 & Hd1 & Hc1).
  { rewrite disconnectOld_lookup, Hb.
    destruct (decide _); eexists; (split; [reflexivity|]); done. }
  match goal with |- context [bind (updateFromBackground_ _ _ _) _ ?W] =>
    rewrite (bind_Ok _ _ W tt (refreshed b1 W))
      by (apply (updateFromBackground_exact _ W p b1);
          [apply dispatch_quiet | by split])
  end.
  rewrite (bind_Ok get _ _ _ _ eq_refl). unfold bound.
  cbn [refreshed shows widget store undo warnings background_
       isUpdatingFromBackground_ isBeingEdited_ dataBeforeEditing_ controls
       when].
  rewrite viaBackground_bound with (p := p) by done.
  unfold Background_connect, save, with_store.
  unfold refreshed, shows.
  cbn [widget store undo warnings background_ isUpdatingFromBackground_
       isBeingEdited_ dataBeforeEditing_ controls].
  eexists. split.
  - unfold bind, load. cbn [store]. rewrite Hb1. reflexivity.
  - cbn [widget store undo warnings background_ isUpdatingFromBackground_
         isBeingEdited_ dataBeforeEditing_ controls].
    destruct (refreshControls_fields (data_ b1)
                (show_childrenEnabled true (controls (widget w))))
      as (_ & _ & _ & _ & _ & _ & _ & _ & _ & _ & _ & _ & Hen).
    destruct (refreshControls_rendered (data_ b1)
                (show_childrenEnabled true (controls (widget w)))) as [Hm _].
    change {| data_ := data_ b1; changedConnected := true;
              cacheClears := cacheClears b1 |} with (withConnected true b1).
    rewrite Hd1 in *. rewrite Hc1.
    split; [done|]. split; [done|]. split; [done|].
    split; [by rewrite lookup_insert_eq|]. split.
    { intros q Hq. rewrite lookup_insert_ne by done.
      apply disconnectOld_lookup. }
    split; [done|]. split; [intros Hd; by apply rendered_displayable|].
    split; [by rewrite Hen|]. done.
Qed.

(** [setBackground] with a live Background: the widget is bound to it and
    connected to its [changed()], the connection to the Background bound
    before is cut, no other Background object is touched and no data is
    changed; the controls are enabled and every one holds what its setter
    makes of the new Background's value for it, which is the data itself
    when the controls can hold it as it is; the baseline is that data (unless
    an edit is under way), the guard is down and no undo entry is
    recorded. *)
Theorem setBackground_binds n (w : World) p b :
  store w !! p = Some b -> boundIsLive w ->
  exists w',
    setBackground emits toolkit (dispatch (S n)) (Some p) w = Ok tt w' /\
    background_ (widget w') = Some p /\
    isUpdatingFromBackground_ (widget w') = false /\
    isBeingEdited_ (widget w') = isBeingEdited_ (widget w) /\
    store w' !! p = Some (withConnected true b) /\
    (forall q, q <> p ->
       store w' !! q
       = if decide (background_ (widget w) = Some q)
         then withConnected false <$> store w !! q else store w !! q) /\
    rendered (controls (widget w')) (data_ b) /\
    (displayable (data_ b) -> mirrors (controls (widget w')) (data_ b)) /\
    childrenEnabled (controls (widget w')) = true /\
    undo w' = undo w /\
    dataBeforeEditing_ (widget w')
    = (if isBeingEdited_ (widget w)
       then dataBeforeEditing_ (widget w) else data_ b).
Proof. apply setBackground_some_aux. Qed.

Lemma setBackground_null_aux deliver (w : World) :
  boundIsLive w ->
  exists w',
    setBackground emits toolkit deliver None w = Ok tt w' /\
    background_ (widget w') = None /\
    isUpdatingFromBackground_ (widget w')
    = isUpdatingFromBackground_ (widget w) /\
    isBeingEdited_ (widget w') = isBeingEdited_ (widget w) /\
    dataBeforeEditing_ (widget w') = dataBeforeEditing_ (widget w) /\
    controls (widget w') = show_childrenEnabled false (controls (widget w)) /\
    store w' = disconnectOld w /\ undo w' = undo w /\ warnings w' = warnings w.
Proof.
  intros Hlive. unfold setBackground.
  rewrite run_disconnect_old by done.
  rewrite (bind_Ok (set_background_ None) _ _ tt _ eq_refl).
  rewrite (bind_Ok get _ _ _ _ eq_refl). unfold bound at 1.
  cbn [widget store undo warnings background_ isUpdatingFromBackground_
       isBeingEdited_ dataBeforeEditing_ controls].
  rewrite (bind_Ok (with_controls _) _ _ tt (shows _ _) eq_refl).
  unfold updateFromBackground_.
  eexists. split; [reflexivity | done].
Qed.

(** [setBackground(0)]: the widget is bound to nothing, its children are
    disabled, the connection to the Background bound before is cut and nothing
    else changes; from then on every slot leaves the Background objects and
    the undo entries alone. *)
Theorem setBackground_null_unbinds deliver (w : World) :
  boundIsLive w ->
  exists w',
    setBackground emits toolkit deliver None w = Ok tt w' /\
    background_ (widget w') = None /\
    childrenEnabled (controls (widget w')) = false /\
    (forall q,
       store w' !! q
       = if decide (background_ (widget w) = Some q)
         then withConnected false <$> store w !! q else store w !! q) /\
    undo w' = undo w /\
    forall n s, exists w'',
      dispatch (S n) s w' = Ok tt w'' /\
      store w'' = store w' /\ undo w'' = undo w'.
Proof.
  intros Hlive.
  destruct (setBackground_null_aux deliver w Hlive)
    as (w' & E & Hp & _ & _ & _ & Hc & Hst & Hu & _).
  exists w'. split; [done|]. split; [done|]. split; [by rewrite Hc|].
  split; [intros q; rewrite Hst; apply disconnectOld_lookup|].
  split; [done|]. intros n s.
  change (dispatch (S n) s) with (slot (dispatch n) s).
  destruct (slot_unbound (dispatch n) s w' Hp) as (w'' & E' & _ & ? & ?).
  by exists w''.
Qed.

(** *** The wiring between the widget and the Background objects *)

Lemma wired_boundIsLive (w : World) : wired w -> boundIsLive w.
Proof. intros [H _] q Hq. destruct (H q Hq) as (b & -> & _). by eexists. Qed.

(** [changed()] is connected to the widget for the bound Background and for
    no other one: every slot (with fuel for the nested deliveries) and every
    [setBackground] to a live Background or to null returns and keeps it so,
    with the guard down. *)
Theorem wiring_is_invariant (w : World) :
  wired w -> isUpdatingFromBackground_ (widget w) = false ->
  (forall n s, exists w',
     dispatch (S (S (S n))) s w = Ok tt w' /\ wired w' /\
     isUpdatingFromBackground_ (widget w') = false) /\
  (forall n background,
     (forall p, background = Some p -> is_Some (store w !! p)) ->
     exists w',
       setBackground emits toolkit (dispatch (S n)) background w = Ok tt w' /\
       background_ (widget w') = background /\ wired w' /\
       isUpdatingFromBackground_ (widget w') = false).
Proof.
  intros Hw Hg. pose proof Hw as [Hw1 Hw2]. split.
  - intros n s.
    assert ((exists p, background_ (widget w) = Some p) \/
            background_ (widget w) = None) as [[p Hp] | Hp]
      by (destruct (background_ (widget w)); eauto).
    + destruct (Hw1 p Hp) as (b & Hb & Hc).
      destruct (event_on_bound_widget_aux n s w p b (conj Hp Hb) Hg)
        as (w' & b' & E & Hp' & Hg' & _ & Hst & Hc' & _).
      exists w'. split; [done|]. split; [|done]. split.
      * intros p' Hp''. assert (p' = p) as -> by congruence.
        exists b'. rewrite Hst, lookup_insert_eq. split; congruence.
      * intros q bq Hq Hcq. rewrite Hst in Hq. rewrite Hp'.
        destruct (decide (q = p)) as [->|Hne]; [done|].
        rewrite lookup_insert_ne in Hq by done.
        rewrite <- Hp. by apply (Hw2 q bq).
    + change (dispatch (S (S (S n))) s) with (slot (dispatch (S (S n))) s).
      destruct (slot_unbound (dispatch (S (S n))) s w Hp)
        as (w' & E & Hwid & Hst & _).
      exists w'. split; [done|]. rewrite Hwid. split; [|done].
      unfold wired. rewrite Hwid, Hst. done.
  - intros n [p|] Hlive.
    + destruct (Hlive p eq_refl) as [b Hb].
      destruct (setBackground_some_aux n w p b Hb (wired_boundIsLive w Hw))
        as (w' & E & Hp' & Hg' & _ & Hst & Hoth & _).
      exists w'. split; [done|]. split; [done|]. split; [|done]. split.
      * intros p' Hp''. assert (p' = p) as -> by congruence. by eexists.
      * intros q bq Hq Hcq. rewrite Hp'.
        destruct (decide (q = p)) as [->|Hne]; [done|]. exfalso.
        rewrite (Hoth q Hne) in Hq. destruct (decide _) as [Hold|Hold].
        -- destruct (store w !! q); [|done]. by injection Hq as <-.
        -- by apply Hold, (Hw2 q bq).
    + destruct (setBackground_null_aux (dispatch (S n)) w
                  (wired_boundIsLive w Hw))
        as (w' & E & Hp' & Hg' & _ & _ & _ & Hst & _).
      exists w'. split; [done|]. split; [done|]. split; [|congruence]. split.
      * intros p'. rewrite Hp'. done.
      * intros q bq Hq Hcq. exfalso.
        rewrite Hst, disconnectOld_lookup in Hq.
        destruct (decide _) as [Hold|Hold].
        -- destruct (store w !! q); [|done]. by injection Hq as <-.
        -- by apply Hold, (Hw2 q bq).
Qed.

(** *** What no slot does *)

Lemma historyKept_refl (w : World) : historyKept w w.
Proof. by repeat split. Qed.

Lemma historyKept_trans (w1 w2 w3 : World) :
  historyKept w1 w2 -> historyKept w2 w3 -> historyKept w1 w3.
Proof.
  intros (? & ? & ?) (? & ? & ?).
  split; [by etrans|]. split; [by etrans | congruence].
Qed.

Lemma historyKept_live p (w w' : World) :
  historyKept w w' -> is_Some (store w !! p) -> is_Some (store w' !! p).
Proof. intros (_ & _ & Hd). rewrite <- !elem_of_dom. by rewrite Hd. Qed.

Lemma keepsHistoryAt_of_keepsHistory {A} p (m : M A) :
  keepsHistory m -> keepsHistoryAt p m.
Proof. intros H w a w' _. apply H. Qed.

Lemma keepsHistory_bind {A B} (m : M A) (k : A -> M B) :
  keepsHistory m -> (forall a, keepsHistory (k a)) -> keepsHistory (bind m k).
Proof.
  intros Hm Hk w b w' E. apply bind_Ok_inv in E as (a & w1 & E1 & E2).
  eapply historyKept_trans; [by eapply Hm | by eapply Hk].
Qed.

Lemma keepsHistoryAt_bind {A B} p (m : M A) (k : A -> M B) :
  keepsHistoryAt p m -> (forall a, keepsHistoryAt p (k a)) ->
  keepsHistoryAt p (bind m k).
Proof.
  intros Hm Hk w b w' Hl E. apply bind_Ok_inv in E as (a & w1 & E1 & E2).
  pose proof (Hm w a w1 Hl E1) as H1.
  eapply historyKept_trans; [done|].
  eapply Hk; [|done]. by eapply historyKept_live.
Qed.

Lemma keepsHistory_pure {A} (f : World -> A) (g : World -> World) :
  (forall w, historyKept w (g w)) -> keepsHistory (fun w => Ok (f w) (g w)).
Proof. intros H w a w' E. inversion E; subst. apply H. Qed.

Lemma keepsHistory_ret {A} (a : A) : keepsHistory (ret a : M A).
Proof. apply (keepsHistory_pure (fun _ => a) id), historyKept_refl. Qed.

Lemma keepsHistory_get : keepsHistory (get : M World).
Proof. apply (keepsHistory_pure id id), historyKept_refl. Qed.

Lemma keepsHistory_fail {A} e : keepsHistory (fail e : M A).
Proof. by intros w a w' E. Qed.

Lemma keepsHistory_deref : keepsHistory (deref : M ptr).
Proof.
  intros w a w'. unfold deref. destruct (background_ (widget w)); [|done].
  intros E. inversion E; subst. apply historyKept_refl.
Qed.

Lemma keepsHistory_load p : keepsHistory (load p : M Background).
Proof.
  intros w a w'. unfold load. destruct (store w !! p); [|done].
  intros E. inversion E; subst. apply historyKept_refl.
Qed.

Lemma keepsHistory_warn x : keepsHistory (warn x : M unit).
Proof.
  intros w a w' E. inversion E; subst.
  split; [done|]. split; [by apply suffix_cons_r | done].
Qed.

Lemma keepsHistory_with_controls f : keepsHistory (with_controls f : M unit).
Proof. intros w a w' E. inversion E; subst. by repeat split. Qed.

Lemma keepsHistory_set_isUpdatingFromBackground_ v :
  keepsHistory (set_isUpdatingFromBackground_ v : M unit).
Proof. intros w a w' E. inversion E; subst. by repeat split. Qed.

Lemma keepsHistory_set_isBeingEdited_ v :
  keepsHistory (set_isBeingEdited_ v : M unit).
Proof. intros w a w' E. inversion E; subst. by repeat split. Qed.

Lemma keepsHistory_set_dataBeforeEditing_ d :
  keepsHistory (set_dataBeforeEditing_ d : M unit).
Proof. intros w a w' E. inversion E; subst. by repeat split. Qed.

Lemma keepsHistory_when c (m : M unit) :
  keepsHistory m -> keepsHistory (when c m).
Proof. intros Hm. destruct c; [done | apply keepsHistory_ret]. Qed.

Lemma keepsHistory_if {A} (c : bool) (m1 m2 : M A) :
  keepsHistory m1 -> keepsHistory m2 -> keepsHistory (if c then m1 else m2).
Proof. by destruct c. Qed.

Lemma keepsHistory_if_dec {A} {P : Prop} (c : {P} + {~ P}) (m1 m2 : M A) :
  keepsHistory m1 -> keepsHistory m2 -> keepsHistory (if c then m1 else m2).
Proof. by destruct c. Qed.

(** Writing to a Background that has just been read does not create one. *)
Lemma keepsHistoryAt_save p b : keepsHistoryAt p (save p b : M unit).
Proof.
  intros w a w' Hl E. inversion E; subst.
  split; [done|]. split; [done|]. cbn [store].
  apply elem_of_dom in Hl. rewrite dom_insert_L.
  apply subseteq_union_1_L. by apply singleton_subseteq_l.
Qed.

Lemma keepsHistoryAt_if_dec {A} {P : Prop} p (c : {P} + {~ P}) (m1 m2 : M A) :
  keepsHistoryAt p m1 -> keepsHistoryAt p m2 ->
  keepsHistoryAt p (if c then m1 else m2).
Proof. by destruct c. Qed.

Lemma keepsHistory_load_bind {B} p (k : Background -> M B) :
  (forall b, keepsHistoryAt p (k b)) -> keepsHistory (bind (load p) k).
Proof.
  intros Hk w b w' E. apply bind_Ok_inv in E as (a & w1 & E1 & E2).
  unfold load in E1. destruct (store w !! p) eqn:Hl; [|done].
  inversion E1; subst. by eapply Hk.
Qed.

Lemma keepsHistory_viaBackground {A} (f : ptr -> M A) :
  (forall p, keepsHistory (f p)) -> keepsHistory (viaBackground f).
Proof. intros Hf. apply keepsHistory_bind; [apply keepsHistory_deref | done]. Qed.

Lemma keepsHistory_Background_emitCheckpoint p :
  keepsHistory (Background_emitCheckpoint p : M unit).
Proof.
  unfold Background_emitCheckpoint.
  apply keepsHistory_bind; [apply keepsHistory_load|]. intros b w a w' E.
  inversion E; subst. split; [by apply suffix_cons_r | done].
Qed.

(** Breaks a slot into the steps above. *)
Ltac history :=
  repeat first
    [ apply keepsHistory_Background_emitCheckpoint
    | apply keepsHistory_load_bind | apply keepsHistory_bind
    | apply keepsHistory_ret | apply keepsHistory_get
    | apply keepsHistory_fail | apply keepsHistory_deref
    | apply keepsHistory_load | apply keepsHistory_warn
    | apply keepsHistory_with_controls
    | apply keepsHistory_set_isUpdatingFromBackground_
    | apply keepsHistory_set_isBeingEdited_
    | apply keepsHistory_set_dataBeforeEditing_
    | apply keepsHistory_when | apply keepsHistory_if_dec
    | apply keepsHistory_if | apply keepsHistory_viaBackground
    | apply keepsHistoryAt_save | apply keepsHistoryAt_bind
    | apply keepsHistoryAt_if_dec
    | apply keepsHistoryAt_of_keepsHistory
    | match goal with H : forall s, keepsHistory (_ s) |- _ => apply H end
    | match goal with |- forall _, _ => intro end
    | assumption ].

Section History.
Context (deliver : Slot -> M unit).
Context (Hdeliver : forall s, keepsHistory (deliver s)).

Lemma keepsHistory_Background_set {A} `{!EqDecision A}
    (getter : Data -> A) upd p v :
  keepsHistory (Background_set deliver getter upd p v).
Proof. unfold Background_set, Background_changed. history. Qed.

Lemma keepsHistory_emitCheckpoint_ : keepsHistory (emitCheckpoint_ : M unit).
Proof. unfold emitCheckpoint_, Background_data. history. Qed.

Lemma keepsHistory_updateFromBackground_ :
  keepsHistory (updateFromBackground_ emits toolkit deliver).
Proof.
  unfold updateFromBackground_, setColor, setText, setValue, setCurrentIndex,
    showSizeSpinBoxes, setControl, Background_data.
  history.
Qed.

Lemma keepsHistory_editAndCheckpoint (edit : M unit) :
  keepsHistory edit -> keepsHistory (editAndCheckpoint edit).
Proof.
  intros He. unfold editAndCheckpoint.
  pose proof keepsHistory_emitCheckpoint_. history.
Qed.

Lemma keepsHistory_editOnly (edit : M unit) :
  keepsHistory edit -> keepsHistory (editOnly edit).
Proof. intros He. unfold editOnly. history. Qed.

Lemma keepsHistory_slot s : keepsHistory (slot deliver s).
Proof.
  pose proof (@keepsHistory_Background_set) as Hset.
  destruct s; simpl;
    try apply keepsHistory_emitCheckpoint_;
    try apply keepsHistory_updateFromBackground_;
    try (apply keepsHistory_editAndCheckpoint;
         unfold Background_data; solve [history; apply Hset]);
    try (apply keepsHistory_editOnly;
         unfold Background_data; solve [history; apply Hset]).
  - unfold processImageBrowseButtonClicked_.
    apply keepsHistory_bind; [destruct (_.2); history|]. intros _.
    apply keepsHistory_editAndCheckpoint. history; apply Hset.
  - unfold processImageRefreshButtonClicked_, Background_clearCache. history.
Qed.

End History.

Lemma keepsHistory_dispatch n s : keepsHistory (dispatch n s).
Proof.
  revert s. induction n as [|n IH]; intros s.
  - by intros w a w' E.
  - change (dispatch (S n) s) with (slot (dispatch n) s).
    by apply keepsHistory_slot.
Qed.

(** Whatever state the widget is in, and however deep the signals nest, a
    slot that returns has not rebound the widget, has removed no undo entry
    and dismissed no warning, and has neither created nor destroyed a
    Background object. *)
Theorem slots_keep_history n s (w : World) :
  match dispatch n s w with
  | Ok _ w' =>
      background_ (widget w') = background_ (widget w) /\
      undo w `suffix_of` undo w' /\
      warnings w `suffix_of` warnings w' /\
      dom (store w') = dom (store w)
  | Failed _ => True
  end.
Proof.
  pose proof (nullSafe_dispatch n s w) as Hn.
  pose proof (keepsHistory_dispatch n s w) as Hh.
  destruct (dispatch n s w) as [a w'|e]; [|done].
  split; [done|]. by apply (Hh a w').
Qed.

End WidgetTheorems.

(** ** The theorems at work on a concrete panel *)
Import Widget Widget.Sample.

Example sample_drag_then_finish :
  exists w,
    dispatchAll alwaysEmits sampleToolkit sameDir 3
      (sampleBatch ++ [LeftSpinBoxEditingFinished]) sampleWorld = Ok tt w /\
    undo w = [(0%nat, upd_position (7, 0) sampleData)] /\
    leftSpinBox_ (controls (widget w)) = 7.
Proof. eexists. split; [vm_compute; reflexivity|]. split; reflexivity. Qed.

Example sample_out_of_fuel :
  dispatch alwaysEmits sampleToolkit sameDir 2 (LeftSpinBoxValueChanged 5) sampleWorld
  = Failed OutOfFuel.
Proof. vm_compute. reflexivity. Qed.

(** C1 on the panel whose Background was edited behind the widget's back:
    the first call records the entry, the second records nothing. *)
Lemma emitCheckpoint_twice_records_once_witness :
  pointsTo editedWorld 0%nat
    (withData (upd_opacity 0 sampleData) sampleBackground) /\
  exists w1,
    emitCheckpoint_ editedWorld = Ok tt w1 /\
    emitCheckpoint_ w1 = Ok tt w1 /\
    store w1 = store editedWorld /\
    undo w1 = (if decide (data_ (withData (upd_opacity 0 sampleData) sampleBackground)
                          = dataBeforeEditing_ (widget editedWorld))
               then undo editedWorld
               else (0%nat, data_ (withData (upd_opacity 0 sampleData) sampleBackground))
                    :: undo editedWorld) /\
    dataBeforeEditing_ (widget w1)
    = data_ (withData (upd_opacity 0 sampleData) sampleBackground).
Proof.
  assert (pointsTo editedWorld 0%nat
            (withData (upd_opacity 0 sampleData) sampleBackground)) as H
    by (split; reflexivity).
  split; [exact H|].
  exact (emitCheckpoint_twice_records_once editedWorld 0%nat _ H).
Defined.

(** C7 on the sample panel: the left spin box dragged to 5, then to 7, then
    [editingFinished]. *)
Lemma spin_batch_single_checkpoint_witness :
  pointsTo sampleWorld 0%nat sampleBackground /\
  isUpdatingFromBackground_ (widget sampleWorld) = false /\
  Forall (fun s => isValueChanged s = true) sampleBatch /\
  isEditingFinished (LeftSpinBoxEditingFinished : @Slot Z Z) = true /\
  let d' := foldl (fun d s => applyValueChanged s d) (data_ sampleBackground)
                  sampleBatch in
  exists w1 w2,
    dispatchAll alwaysEmits sampleToolkit sameDir 3 sampleBatch sampleWorld = Ok tt w1 /\
    undo w1 = undo sampleWorld /\
    dataBeforeEditing_ (widget w1) = dataBeforeEditing_ (widget sampleWorld) /\
    store w1 !! 0%nat = Some (withData d' sampleBackground) /\
    dispatch alwaysEmits sampleToolkit sameDir 3 LeftSpinBoxEditingFinished w1 = Ok tt w2 /\
    store w2 = store w1 /\
    undo w2 = (if decide (d' = dataBeforeEditing_ (widget sampleWorld))
               then undo sampleWorld else (0%nat, d') :: undo sampleWorld).
Proof.
  assert (pointsTo sampleWorld 0%nat sampleBackground) as H1
    by (split; reflexivity).
  assert (Forall (fun s : @Slot Z Z => isValueChanged s = true) sampleBatch) as H3
    by (repeat constructor).
  split; [exact H1|]. split; [reflexivity|]. split; [exact H3|].
  split; [reflexivity|].
  exact (spin_batch_single_checkpoint alwaysEmits sampleToolkit sameDir 0 sampleBatch
           LeftSpinBoxEditingFinished sampleWorld 0%nat sampleBackground
           H1 eq_refl H3 eq_refl).
Defined.

(** C10 on the panel whose Background shows image*.png: cancelling the file
    dialog clears the url. *)
Lemma browse_nothing_selected_clears_url_witness :
  pointsTo imageWorld 0%nat imageBackground /\
  isUpdatingFromBackground_ (widget imageWorld) = false /\
  let d' := upd_imageUrl [] (data_ imageBackground) in
  exists w',
    dispatch alwaysEmits sampleToolkit sameDir 3 (ImageBrowseButtonClicked []) imageWorld
    = Ok tt w' /\
    store w' = <[0%nat := withData d' imageBackground]> (store imageWorld) /\
    imageUrl d' = [] /\
    undo w' = (if decide (d' = dataBeforeEditing_ (widget imageWorld))
               then undo imageWorld else (0%nat, d') :: undo imageWorld) /\
    (dataBeforeEditing_ (widget imageWorld) = data_ imageBackground ->
     undo w' = (if decide (imageUrl (data_ imageBackground) = [])
                then undo imageWorld else (0%nat, d') :: undo imageWorld)) /\
    warnings w' = warnings imageWorld.
Proof.
  assert (pointsTo imageWorld 0%nat imageBackground) as H1
    by (split; reflexivity).
  split; [exact H1|]. split; [reflexivity|].
  exact (browse_nothing_selected_clears_url alwaysEmits sampleToolkit sameDir 0
           imageWorld 0%nat imageBackground H1 eq_refl).
Defined.

Example sample_cancel_browse :
  exists w,
    dispatch alwaysEmits sampleToolkit sameDir 3 (ImageBrowseButtonClicked []) imageWorld
    = Ok tt w /\
    undo w = [(0%nat, sampleData)].
Proof. eexists. split; [vm_compute; reflexivity|]. reflexivity. Qed.

(** C4 on two strings: in [a*b/c*d*e] the wildcard at position 7 is the last
    valid one and is the only one kept; in [*/] the wildcard has a separator
    after it and is removed. *)
Lemma fixup_keeps_last_valid_wildcard_witness :
  lastValidWildcard (q "a*b/c*d*e") 7 /\
  fixup (q "a*b/c*d*e") = keepOnly (q "a*b/c*d*e") 7 /\
  (forall i, wildcardAt (q "*/") i -> separatorAfter (q "*/") i) /\
  fixup (q "*/") = removeStars (q "*/").
Proof.
  assert (lastValidWildcard (q "a*b/c*d*e") 7) as H1.
  { split; [reflexivity|]. split.
    - intros (k & Hk & Hl).
      do 9 (destruct k as [|k]; [first [lia | discriminate Hl]|]).
      discriminate Hl.
    - intros i Hi Hw. unfold wildcardAt in Hw.
      do 9 (destruct i as [|i]; [first [lia | discriminate Hw]|]).
      discriminate Hw. }
  assert (forall i, wildcardAt (q "*/") i -> separatorAfter (q "*/") i) as H2.
  { intros i Hw. unfold wildcardAt in Hw.
    destruct i as [|i]; [exists 1%nat; split; [lia | reflexivity]|].
    destruct i as [|i]; discriminate Hw. }
  split; [exact H1|]. split.
  - exact (proj1 (fixup_keeps_last_valid_wildcard (q "a*b/c*d*e")) 7%nat H1).
  - split; [exact H2|].
    exact (proj1 (proj2 (fixup_keeps_last_valid_wildcard (q "*/"))) H2).
Defined.

(** C5 on two strings: [image*.png] has one wildcard and no separator after
    it; [*a/] has a separator after its wildcard. *)
Lemma validate_acceptable_iff_witness :
  syntaxNoSlashAfter (q "image*.png") /\
  validate (q "image*.png") = Acceptable /\
  ~ syntaxNoSlashAfter (q "*a/") /\
  validate (q "*a/") = Intermediate.
Proof.
  assert (syntaxNoSlashAfter (q "image*.png")) as H1.
  { split; [vm_compute; lia|].
    intros i _ (k & _ & Hl).
    do 10 (destruct k as [|k]; [discriminate Hl|]). discriminate Hl. }
  assert (~ syntaxNoSlashAfter (q "*a/")) as H2.
  { intros [_ H]. apply (H 0%nat eq_refl).
    exists 2%nat. split; [lia | reflexivity]. }
  split; [exact H1|]. split.
  - exact (proj2 (proj1 (validate_acceptable_iff (q "image*.png"))) H1).
  - split; [exact H2|].
    exact (proj2 (validate_acceptable_iff (q "*a/")) H2).
Defined.

(** C8 on the unbound panel: a color change and [emitCheckpoint_]. *)
Lemma unbound_widget_is_inert_witness :
  background_ (widget unboundWorld) = None /\
  (exists w',
     dispatch alwaysEmits sampleToolkit sameDir 1 (ColorSelectorColorChanged 3) unboundWorld
     = Ok tt w' /\
     widget w' = widget unboundWorld /\ store w' = store unboundWorld /\
     undo w' = undo unboundWorld) /\
  emitCheckpoint_ unboundWorld = Ok tt unboundWorld.
Proof.
  split; [reflexivity|]. split.
  - exact (proj1 (unbound_widget_is_inert alwaysEmits sampleToolkit sameDir)
             0%nat (ColorSelectorColorChanged 3) unboundWorld eq_refl).
  - exact (proj1 (proj2 (unbound_widget_is_inert alwaysEmits sampleToolkit sameDir))
             unboundWorld eq_refl).
Defined.



(** The check of the pattern inferred from img1.png and img2.png, on
    img7.png. *)
Lemma inferred_pattern_check_agrees_witness :
  size (prefix samplePattern) + size (suffix samplePattern)
  <= size (q "img7.png") /\
  (inconsistent samplePattern (q "img7.png") = false
   <-> matchesPattern samplePattern (q "img7.png")).
Proof.
  split; [by vm_compute|].
  apply (inferred_pattern_check_agrees [q "img1.png"; q "img2.png"]
           (q "img1.png") (q "img2.png") (q "img7.png")).
  by vm_compute.
Defined.

(** A new color picked on the sample panel. *)
Lemma event_on_bound_widget_witness :
  pointsTo sampleWorld 0%nat sampleBackground /\
  isUpdatingFromBackground_ (widget sampleWorld) = false /\
  exists w' b',
    dispatch alwaysEmits sampleToolkit sameDir 3 (ColorSelectorColorChanged 3) sampleWorld
    = Ok tt w' /\
    background_ (widget w') = Some 0%nat /\
    isUpdatingFromBackground_ (widget w') = false /\
    (isBeingEdited_ (widget sampleWorld) = false ->
     isBeingEdited_ (widget w') = false) /\
    store w' = <[0%nat := b']> (store sampleWorld) /\
    changedConnected b' = changedConnected sampleBackground /\
    (undo w' = undo sampleWorld \/
     undo w' = (0%nat, data_ b') :: undo sampleWorld) /\
    (dataBeforeEditing_ (widget w') = dataBeforeEditing_ (widget sampleWorld) \/
     dataBeforeEditing_ (widget w') = data_ b').
Proof.
  assert (pointsTo sampleWorld 0%nat sampleBackground) as H1
    by (split; reflexivity).
  split; [exact H1|]. split; [reflexivity|].
  exact (event_on_bound_widget alwaysEmits sampleToolkit sameDir 0
           (ColorSelectorColorChanged 3) sampleWorld 0%nat sampleBackground
           H1 eq_refl).
Defined.

(** The hold check box cleared on the sample panel: one undo entry. *)
Lemma checkpointed_edit_records_change_witness :
  pointsTo sampleWorld 0%nat sampleBackground /\
  isUpdatingFromBackground_ (widget sampleWorld) = false /\
  isCheckpointedEdit (HoldCheckBoxToggled false : @Slot Z Z) = true /\
  dataBeforeEditing_ (widget sampleWorld) = data_ sampleBackground /\
  let d' := upd_hold false sampleData in
  exists w',
    dispatch alwaysEmits sampleToolkit sameDir 3 (HoldCheckBoxToggled false) sampleWorld
    = Ok tt w' /\
    store w' = <[0%nat := withData d' sampleBackground]> (store sampleWorld) /\
    dataBeforeEditing_ (widget w') = d' /\
    undo w' = (if decide (d' = data_ sampleBackground)
               then undo sampleWorld else (0%nat, d') :: undo sampleWorld).
Proof.
  assert (pointsTo sampleWorld 0%nat sampleBackground) as H1
    by (split; reflexivity).
  split; [exact H1|]. split; [reflexivity|]. split; [reflexivity|].
  split; [reflexivity|].
  exact (checkpointed_edit_records_change alwaysEmits sampleToolkit sameDir 0
           (HoldCheckBoxToggled false) sampleWorld 0%nat sampleBackground
           H1 eq_refl eq_refl eq_refl).
Defined.

(** [editingFinished] on the panel whose Background was edited behind the
    widget's back. *)
Lemma checkpoint_resyncs_baseline_witness :
  pointsTo editedWorld 0%nat
    (withData (upd_opacity 0 sampleData) sampleBackground) /\
  isUpdatingFromBackground_ (widget editedWorld) = false /\
  isCheckpointedEdit (OpacitySpinBoxEditingFinished : @Slot Z Z)
  || isEditingFinished (OpacitySpinBoxEditingFinished : @Slot Z Z) = true /\
  exists w' b',
    dispatch alwaysEmits sampleToolkit sameDir 3 OpacitySpinBoxEditingFinished editedWorld
    = Ok tt w' /\
    store w' !! 0%nat = Some b' /\
    dataBeforeEditing_ (widget w') = data_ b'.
Proof.
  assert (pointsTo editedWorld 0%nat
            (withData (upd_opacity 0 sampleData) sampleBackground)) as H1
    by (split; reflexivity).
  split; [exact H1|]. split; [reflexivity|]. split; [reflexivity|].
  exact (checkpoint_resyncs_baseline alwaysEmits sampleToolkit sameDir 0
           OpacitySpinBoxEditingFinished editedWorld 0%nat _
           H1 eq_refl eq_refl).
Defined.

(** The update of the controls on the same panel. *)
Lemma update_makes_controls_mirror_witness :
  pointsTo editedWorld 0%nat
    (withData (upd_opacity 0 sampleData) sampleBackground) /\
  exists w',
    dispatch alwaysEmits sampleToolkit sameDir 2 UpdateFromBackground editedWorld
    = Ok tt w' /\
    rendered sampleToolkit (controls (widget w')) (upd_opacity 0 sampleData) /\
    (displayable sampleToolkit (upd_opacity 0 sampleData) ->
     mirrors (controls (widget w')) (upd_opacity 0 sampleData)) /\
    childrenEnabled (controls (widget w'))
    = childrenEnabled (controls (widget editedWorld)) /\
    store w' = store editedWorld.
Proof.
  assert (pointsTo editedWorld 0%nat
            (withData (upd_opacity 0 sampleData) sampleBackground)) as H1
    by (split; reflexivity).
  split; [exact H1|].
  exact (update_makes_controls_mirror alwaysEmits sampleToolkit sameDir 0
           editedWorld 0%nat _ H1).
Defined.

(** Opacity 0 is within the bounds of its spin box and is shown as it is;
    opacity 2 is not, and the spin box holds 1. *)
Example sample_displayable :
  displayable sampleToolkit (upd_opacity 0 sampleData) /\
  ~ displayable sampleToolkit (upd_opacity 2 sampleData).
Proof.
  split; [by repeat split|].
  intros (_ & _ & _ & _ & _ & _ & _ & _ & H). by vm_compute in H.
Qed.

Example sample_opacity_bounded :
  exists w,
    dispatch alwaysEmits sampleToolkit sameDir 2 UpdateFromBackground
      overWorld = Ok tt w /\
    opacity (dataBeforeEditing_ (widget w)) = 2 /\
    opacitySpinBox_ (controls (widget w)) = 1.
Proof. eexists. split; [vm_compute; reflexivity|]. by vm_compute. Qed.

Lemma update_twice_is_update_once_witness :
  pointsTo editedWorld 0%nat
    (withData (upd_opacity 0 sampleData) sampleBackground) /\
  exists w',
    dispatch alwaysEmits sampleToolkit sameDir 2 UpdateFromBackground editedWorld
    = Ok tt w' /\
    dispatch alwaysEmits sampleToolkit sameDir 2 UpdateFromBackground w' = Ok tt w'.
Proof.
  assert (pointsTo editedWorld 0%nat
            (withData (upd_opacity 0 sampleData) sampleBackground)) as H1
    by (split; reflexivity).
  split; [exact H1|].
  exact (update_twice_is_update_once alwaysEmits sampleToolkit sameDir 0
           editedWorld 0%nat _ H1).
Defined.

Lemma twoWorld_boundIsLive : boundIsLive twoWorld.
Proof. intros p [= <-]. by exists sampleBackground. Qed.

(** The panel bound to the Background at 0 is handed the one at 1. *)
Lemma setBackground_binds_witness :
  store twoWorld !! 1%nat = Some otherBackground /\
  boundIsLive twoWorld /\
  exists w',
    setBackground alwaysEmits sampleToolkit (dispatch alwaysEmits sampleToolkit sameDir 1) (Some 1%nat)
      twoWorld = Ok tt w' /\
    background_ (widget w') = Some 1%nat /\
    isUpdatingFromBackground_ (widget w') = false /\
    isBeingEdited_ (widget w') = isBeingEdited_ (widget twoWorld) /\
    store w' !! 1%nat = Some (withConnected true otherBackground) /\
    (forall p, p <> 1%nat ->
       store w' !! p
       = if decide (background_ (widget twoWorld) = Some p)
         then withConnected false <$> store twoWorld !! p
         else store twoWorld !! p) /\
    rendered sampleToolkit (controls (widget w')) (data_ otherBackground) /\
    (displayable sampleToolkit (data_ otherBackground) ->
     mirrors (controls (widget w')) (data_ otherBackground)) /\
    childrenEnabled (controls (widget w')) = true /\
    undo w' = undo twoWorld /\
    dataBeforeEditing_ (widget w')
    = (if isBeingEdited_ (widget twoWorld)
       then dataBeforeEditing_ (widget twoWorld) else data_ otherBackground).
Proof.
  split; [reflexivity|]. split; [exact twoWorld_boundIsLive|].
  exact (setBackground_binds alwaysEmits sampleToolkit sameDir 0 twoWorld 1%nat
           otherBackground eq_refl twoWorld_boundIsLive).
Defined.

Example sample_rebind :
  exists w,
    setBackground alwaysEmits sampleToolkit (dispatch alwaysEmits sampleToolkit sameDir 1) (Some 1%nat)
      twoWorld = Ok tt w /\
    store w !! 0%nat = Some (withConnected false sampleBackground) /\
    opacitySpinBox_ (controls (widget w)) = 0 /\ undo w = [].
Proof. eexists. split; [vm_compute; reflexivity|]. by vm_compute. Qed.

(** The sample panel is unbound. *)
Lemma setBackground_null_unbinds_witness :
  boundIsLive twoWorld /\
  exists w',
    setBackground alwaysEmits sampleToolkit (dispatch alwaysEmits sampleToolkit sameDir 1) None twoWorld
    = Ok tt w' /\
    background_ (widget w') = None /\
    childrenEnabled (controls (widget w')) = false /\
    (forall p,
       store w' !! p
       = if decide (background_ (widget twoWorld) = Some p)
         then withConnected false <$> store twoWorld !! p
         else store twoWorld !! p) /\
    undo w' = undo twoWorld /\
    forall n s, exists w'',
      dispatch alwaysEmits sampleToolkit sameDir (S n) s w' = Ok tt w'' /\
      store w'' = store w' /\ undo w'' = undo w'.
Proof.
  split; [exact twoWorld_boundIsLive|].
  exact (setBackground_null_unbinds alwaysEmits sampleToolkit sameDir
           (dispatch alwaysEmits sampleToolkit sameDir 1) twoWorld twoWorld_boundIsLive).
Defined.

Lemma twoWorld_wired : wired twoWorld.
Proof.
  split.
  - intros p [= <-]. by exists sampleBackground.
  - intros p bp Hp Hc. unfold twoWorld in Hp. cbn [store] in Hp.
    apply lookup_insert_Some in Hp as [[<- <-] | [_ Hp]]; [done|].
    by apply lookup_singleton_Some in Hp as [<- _].
Qed.

(** The wiring of the panel with two Background objects. *)
Lemma wiring_is_invariant_witness :
  wired twoWorld /\
  isUpdatingFromBackground_ (widget twoWorld) = false /\
  (forall n s, exists w',
     dispatch alwaysEmits sampleToolkit sameDir (S (S (S n))) s twoWorld = Ok tt w' /\
     wired w' /\ isUpdatingFromBackground_ (widget w') = false) /\
  (forall n background,
     (forall p, background = Some p -> is_Some (store twoWorld !! p)) ->
     exists w',
       setBackground alwaysEmits sampleToolkit (dispatch alwaysEmits sampleToolkit sameDir (S n))
         background twoWorld = Ok tt w' /\
       background_ (widget w') = background /\ wired w' /\
       isUpdatingFromBackground_ (widget w') = false).
Proof.
  split; [exact twoWorld_wired|]. split; [reflexivity|].
  exact (wiring_is_invariant alwaysEmits sampleToolkit sameDir twoWorld
           twoWorld_wired eq_refl).
Defined.
